(** * c7a/data/block_writer.hpp: the segmenting block writer

    A shallow embedding of [BlockWriterBase<BlockSize>] and the proofs of
    the properties its specification states about it.

    Conventions of the embedding.
    - A byte pointer into the writer's current block is its offset from
      [block_->begin()]; [nullptr] is [None].  [end_] is the offset of the
      end pointer from the begin of the block it was taken from.
    - Pointer differences and buffer sizes are [nat] (they are bounded by
      the size of a buffer that exists); the item counter [nitems_] is a
      64-bit [size_t] and its increment wraps.
    - The sink is an external object: the embedding keeps the calls it
      received, in order, as its state.
    - Undefined behaviour and failed assertions end the run with a
      [fault]. *)

From Stdlib Require Import List Arith Lia Bool NArith.
From Stdlib.Strings Require Import Byte.
Import ListNotations.

Set Implicit Arguments.

(** ** Outcomes of a run *)

Inductive fault : Type :=
| AssertionFailed   (* assert(!closed_) fails *)
| NullSink          (* sink_->... with sink_ == nullptr *)
| NullBlock         (* block_->... or arithmetic on a null current_ *)
| OutOfBounds       (* a copy or store outside the block *)
| Diverges.         (* the loop of Append never exits *)

Inductive result (A : Type) : Type :=
| Ok (a : A)
| Fail (f : fault).

Arguments Fail {A} f.

Definition bind {A B : Type} (r : result A) (k : A -> result B) : result B :=
  match r with
  | Ok a => k a
  | Fail f => Fail f
  end.

Notation "x <- e ;; k" := (bind e (fun x => k))
  (at level 61, e at next level, right associativity).

(** ** The external collaborators *)

(** Modelled from the spec: [data::Block<BlockSize>] (c7a/data/block.hpp is
    not part of the sources): a fixed-capacity byte buffer of capacity C
    with a begin/end byte range and no other structure. *)
Definition Block : Type := list byte.

(** Modelled from the spec: [data::VirtualBlock<BlockSize>]
    (c7a/data/block.hpp), the tuple (block, valid byte range, first item
    offset, item count) exchanged with a sink. *)
Record VirtualBlock : Type := mkVirtualBlock {
  vb_block : Block;
  vb_begin : nat;
  vb_end : nat;
  vb_first : nat;
  vb_nitems : N
}.

(** Modelled from the spec: [data::BlockSink<BlockSize>]
    (c7a/data/block_sink.hpp): it accepts sealed blocks, directly or as a
    virtual block, and is closed.  Its state is the list of the calls made
    on it, oldest first. *)
Inductive SinkCall : Type :=
| SinkAppendBlock (block : Block) (begin_off end_off first_offset : nat)
                  (nitems : N)
| SinkAppendVBlock (vb : VirtualBlock)
| SinkClose.

Definition BlockSink : Type := list SinkCall.

(** The calls a serializer makes on the writer it is given; the
    [operator()] of a nested item is its [MarkItem] followed by the calls
    of that item. *)
Inductive WriteCall : Type :=
| CallMarkItem
| CallAppend (data : list byte)
| CallPutByte (data : byte).

(** ** The writer *)

Record Writer : Type := mkWriter {
  block_ : option Block;
  current_ : option nat;
  end_ : nat;
  nitems_ : N;
  first_offset_ : nat;
  sink_ : option BlockSink;
  closed_ : bool
}.

Definition size_t_modulus : N := 18446744073709551616%N.

Definition set_sink (s : option BlockSink) (w : Writer) : Writer :=
  mkWriter (block_ w) (current_ w) (end_ w) (nitems_ w) (first_offset_ w)
           s (closed_ w).

Definition set_closed (c : bool) (w : Writer) : Writer :=
  mkWriter (block_ w) (current_ w) (end_ w) (nitems_ w) (first_offset_ w)
           (sink_ w) c.

Definition set_nitems (n : N) (w : Writer) : Writer :=
  mkWriter (block_ w) (current_ w) (end_ w) n (first_offset_ w)
           (sink_ w) (closed_ w).

Definition set_first_offset (o : nat) (w : Writer) : Writer :=
  mkWriter (block_ w) (current_ w) (end_ w) (nitems_ w) o
           (sink_ w) (closed_ w).

Definition set_block (b : option Block) (w : Writer) : Writer :=
  mkWriter b (current_ w) (end_ w) (nitems_ w) (first_offset_ w)
           (sink_ w) (closed_ w).

Definition set_current (c : option nat) (w : Writer) : Writer :=
  mkWriter (block_ w) c (end_ w) (nitems_ w) (first_offset_ w)
           (sink_ w) (closed_ w).

(** [std::copy(src, src + n, dst)] into a buffer at offset [off]. *)
Definition copy_at (buf : Block) (off : nat) (src : list byte) : Block :=
  firstn off buf ++ src ++ skipn (off + length src) buf.

Section BlockWriterBase.

(** The template parameter. *)
Variable BlockSize : nat.

(** [common::g_self_verify] (c7a/common/config.hpp). *)
Variable self_verify : bool.

(** The item type of [operator()], the bytes of
    [typeid(T).hash_code()] as [Put] copies them, and the calls
    [Serialization<BlockWriterBase, T>::Serialize] makes on the writer
    (c7a/data/serialization.hpp). *)
Variable T : Type.
Variable hash_code : list byte.
Variable Serialize : T -> list WriteCall.

(** [std::make_shared<Block>()]. *)
Definition make_block : Block := repeat "000"%byte BlockSize.

Definition AllocateBlock (w : Writer) : Writer :=
  mkWriter (Some make_block) (Some 0) BlockSize 0%N 0
           (sink_ w) (closed_ w).

(** The constructor; the members it leaves to [AllocateBlock] are all
    overwritten there. *)
Definition BlockWriterBase (sink : option BlockSink) : Writer :=
  AllocateBlock (mkWriter None None 0 0%N 0 sink false).

Definition IsValid (w : Writer) : bool :=
  match sink_ w with Some _ => true | None => false end.

(** [sink_->AppendBlock(block_, 0, current_ - block_->begin(),
    first_offset_, nitems_)].  The sink shares the block from here on;
    every caller drops or replaces [block_] right after, so the writer
    never stores into a block the sink holds. *)
Definition FlushBlock (w : Writer) : result Writer :=
  match block_ w, current_ w with
  | Some b, Some c =>
      match sink_ w with
      | Some s =>
          Ok (set_sink
                (Some (s ++ [SinkAppendBlock b 0 c (first_offset_ w)
                                             (nitems_ w)])) w)
      | None => Fail NullSink
      end
  | _, _ => Fail NullBlock
  end.

Definition MaybeFlushBlock (w : Writer) : result Writer :=
  match block_ w with
  | Some _ =>
      if negb (match current_ w with
               | Some c => c =? 0
               | None => false
               end)
         || negb (nitems_ w =? 0)%N
      then
        w1 <- FlushBlock w ;;
        Ok (set_current None (set_block None (set_nitems 0%N w1)))
      else Ok w
  | None => Fail NullBlock
  end.

Definition Flush (w : Writer) : result Writer :=
  w1 <- FlushBlock w ;;
  Ok (AllocateBlock w1).

Definition Close (w : Writer) : result Writer :=
  if negb (closed_ w) then
    w1 <- MaybeFlushBlock (set_closed true w) ;;
    match sink_ w1 with
    | Some s => Ok (set_sink (Some (s ++ [SinkClose])) w1)
    | None => Ok w1
    end
  else Ok w.

(** The destructor: [if (block_) Close();]. *)
Definition Destroy (w : Writer) : result Writer :=
  match block_ w with
  | Some _ => Close w
  | None => Ok w
  end.

Definition AppendBlocks (vblocks : list VirtualBlock) (w : Writer)
  : result Writer :=
  w1 <- MaybeFlushBlock w ;;
  w2 <- match vblocks with
        | [] => Ok w1
        | _ :: _ =>
            match sink_ w1 with
            | Some s =>
                Ok (set_sink (Some (s ++ map SinkAppendVBlock vblocks)) w1)
            | None => Fail NullSink
            end
        end ;;
  Ok (AllocateBlock w2).

Definition MarkItem (w : Writer) : result Writer :=
  w1 <- (if match current_ w with
            | Some c => c =? end_ w
            | None => false
            end
         then Flush w else Ok w) ;;
  w2 <- (if (nitems_ w1 =? 0)%N
         then match block_ w1, current_ w1 with
              | Some _, Some c => Ok (set_first_offset c w1)
              | _, _ => Fail NullBlock
              end
         else Ok w1) ;;
  Ok (set_nitems ((nitems_ w2 + 1) mod size_t_modulus)%N w2).

(** [std::copy(cdata, cdata + n, current_)]. *)
Definition copy_to_current (src : list byte) (w : Writer) : result Writer :=
  match block_ w, current_ w with
  | Some b, Some c =>
      if c + length src <=? length b
      then Ok (set_block (Some (copy_at b c src)) w)
      else Fail OutOfBounds
  | _, _ => Fail NullBlock
  end.

(** [current_ += n]. *)
Definition advance (n : nat) (w : Writer) : result Writer :=
  match current_ w with
  | Some c => Ok (set_current (Some (c + n)) w)
  | None => Fail NullBlock
  end.

(** The loop of [Append] and the copy after it.  [fuel] bounds the
    number of iterations; running out of it is [Diverges]. *)
Fixpoint Append_loop (fuel : nat) (cdata : list byte) (w : Writer)
  : result Writer :=
  match current_ w with
  | None => Fail NullBlock
  | Some c =>
      if end_ w <? c + length cdata then
        match fuel with
        | O => Fail Diverges
        | S fuel' =>
            if end_ w <? c then Fail OutOfBounds
            else
              let partial_size := end_ w - c in
              w1 <- copy_to_current (firstn partial_size cdata) w ;;
              w2 <- advance partial_size w1 ;;
              w3 <- Flush w2 ;;
              Append_loop fuel' (skipn partial_size cdata) w3
        end
      else
        w1 <- copy_to_current cdata w ;;
        advance (length cdata) w1
  end.

(** [Append(data, size)]; [data] holds the [size] bytes at [data].  With
    a block of at least one byte the loop runs at most [size] times
    ([Append_loop_fuel] below), so the bound changes nothing there; with
    [BlockSize = 0] the loop of the source does not end. *)
Definition Append (data : list byte) (w : Writer) : result Writer :=
  if closed_ w then Fail AssertionFailed
  else Append_loop (S (length data)) data w.

(** [*current_++ = data]. *)
Definition store_byte (data : byte) (w : Writer) : result Writer :=
  w1 <- copy_to_current [data] w ;;
  advance 1 w1.

Definition PutByte (data : byte) (w : Writer) : result Writer :=
  if closed_ w then Fail AssertionFailed
  else
    match current_ w with
    | Some c =>
        if c <? end_ w then store_byte data w
        else
          w1 <- Flush w ;;
          store_byte data w1
    | None => Fail NullBlock
    end.

(** [Append(const std::string& str)]: [Append(str.data(), str.size())]. *)
Definition Append_string (str : list byte) (w : Writer) : result Writer :=
  Append str w.

(** [Put(item)]: [Append(&item, sizeof(item))], with [item] given by the
    bytes of its representation. *)
Definition Put (item : list byte) (w : Writer) : result Writer :=
  Append item w.

Definition run_call (c : WriteCall) (w : Writer) : result Writer :=
  match c with
  | CallMarkItem => MarkItem w
  | CallAppend data => Append data w
  | CallPutByte data => PutByte data w
  end.

Fixpoint run_calls (cs : list WriteCall) (w : Writer) : result Writer :=
  match cs with
  | [] => Ok w
  | c :: cs' => w1 <- run_call c w ;; run_calls cs' w1
  end.

(** [operator()(x)]. *)
Definition operator_call (x : T) (w : Writer) : result Writer :=
  if closed_ w then Fail AssertionFailed
  else
    w1 <- MarkItem w ;;
    w2 <- (if self_verify then Put hash_code w1 else Ok w1) ;;
    run_calls (Serialize x) w2.

(** The public operations, as one type, and runs of them. *)
Inductive Op : Type :=
| OpItem (x : T)
| OpCall (c : WriteCall)
| OpFlush
| OpAppendBlocks (vblocks : list VirtualBlock)
| OpClose.

Definition run_op (o : Op) (w : Writer) : result Writer :=
  match o with
  | OpItem x => operator_call x w
  | OpCall c => run_call c w
  | OpFlush => Flush w
  | OpAppendBlocks vblocks => AppendBlocks vblocks w
  | OpClose => Close w
  end.

Fixpoint run (ops : list Op) (w : Writer) : result Writer :=
  match ops with
  | [] => Ok w
  | o :: ops' => w1 <- run_op o w ;; run ops' w1
  end.

(** ** What the sink observes, and what the caller wrote *)

(** The valid bytes of a block handed to the sink. *)
Definition call_bytes (c : SinkCall) : list byte :=
  match c with
  | SinkAppendBlock b lo hi _ _ => firstn (hi - lo) (skipn lo b)
  | SinkAppendVBlock vb =>
      firstn (vb_end vb - vb_begin vb) (skipn (vb_begin vb) (vb_block vb))
  | SinkClose => []
  end.

Definition sink_bytes (s : BlockSink) : list byte :=
  flat_map call_bytes s.

Definition is_append_block (c : SinkCall) : bool :=
  match c with
  | SinkAppendBlock _ _ _ _ _ => true
  | _ => false
  end.

(** How many blocks the writer sealed to the sink. *)
Definition sealed_count (s : BlockSink) : nat :=
  length (filter is_append_block s).

(** The bytes a call appends, and those of a sequence of calls. *)
Definition call_data (c : WriteCall) : list byte :=
  match c with
  | CallMarkItem => []
  | CallAppend data => data
  | CallPutByte data => [data]
  end.

Definition calls_data (cs : list WriteCall) : list byte :=
  flat_map call_data cs.

(** The position in the byte stream at which each [MarkItem] of a
    sequence of calls is made, [pos] bytes having been written before:
    the position of the first byte of the item it starts. *)
Fixpoint mark_positions (pos : nat) (cs : list WriteCall) : list nat :=
  match cs with
  | [] => []
  | CallMarkItem :: cs' => pos :: mark_positions pos cs'
  | c :: cs' => mark_positions (pos + length (call_data c)) cs'
  end.

(** The calls [operator()(x)] makes once its assertion has passed, and
    the bytes it puts on the stream for [x]. *)
Definition item_calls (x : T) : list WriteCall :=
  CallMarkItem
    :: (if self_verify then [CallAppend hash_code] else [])
    ++ Serialize x.

Definition item_bytes (x : T) : list byte :=
  calls_data (item_calls x).

(** The blocks of a sink paired with the stream position of their first
    valid byte. *)
Fixpoint with_starts (start : nat) (s : BlockSink)
  : list (nat * SinkCall) :=
  match s with
  | [] => []
  | c :: s' => (start, c) :: with_starts (start + length (call_bytes c)) s'
  end.

Definition in_range (lo hi p : nat) : bool :=
  (lo <=? p) && (p <? hi).

(** The metadata of a sealed block agrees with the item starts
    [marks]: the count is the number of starts in the block's valid
    range, and with a count above zero the first offset is that of the
    earliest of them. *)
Definition block_meta_ok (marks : list nat) (sc : nat * SinkCall) : Prop :=
  match sc with
  | (start, SinkAppendBlock b lo hi first n) =>
      lo = 0 /\
      n = N.of_nat (length (filter (in_range start (start + hi)) marks)) /\
      (n <> 0%N ->
       first < hi /\
       In (start + first) marks /\
       Forall (fun p => start <= p -> start + first <= p) marks)
  | _ => False
  end.

(** ** Invariants *)

(** The members of a writer that is open and has its block. *)
Inductive open_writer : Writer -> Prop :=
| open_writer_intro b c n fo s :
    length b = BlockSize ->
    c <= BlockSize ->
    open_writer (mkWriter (Some b) (Some c) BlockSize n fo s false).

(** What [Append] does to an open writer with a sink, as a relation: the
    data fits, or a prefix fills the block, which is sealed, and the rest
    goes to the fresh block. *)
Inductive appends : list byte -> Writer -> Writer -> Prop :=
| appends_fits data b c n fo s cl :
    c + length data <= BlockSize ->
    appends data
            (mkWriter (Some b) (Some c) BlockSize n fo (Some s) cl)
            (mkWriter (Some (copy_at b c data)) (Some (c + length data))
                      BlockSize n fo (Some s) cl)
| appends_spills data b c n fo s cl w' :
    BlockSize < c + length data ->
    c <= BlockSize ->
    appends (skipn (BlockSize - c) data)
            (mkWriter (Some make_block) (Some 0) BlockSize 0%N 0
               (Some (s ++ [SinkAppendBlock
                              (copy_at b c (firstn (BlockSize - c) data))
                              0 BlockSize fo n]))
               cl)
            w' ->
    appends data
            (mkWriter (Some b) (Some c) BlockSize n fo (Some s) cl)
            w'.

(** A block the writer sealed because it was full. *)
Definition full_block (c : SinkCall) : Prop :=
  match c with
  | SinkAppendBlock b lo hi _ _ =>
      lo = 0 /\ hi = BlockSize /\ length b = BlockSize
  | _ => False
  end.

(** The writer after a sequence of [MarkItem], [Append] and [PutByte]
    calls on a fresh writer with a sink, [bytes] being the bytes written
    and [marks] the stream positions of the item starts: the sink holds
    full blocks only; these and the used part of the current block are
    the bytes written; the metadata of the sealed blocks and the counters
    of the current block agree with [marks]. *)
Inductive stream_inv (bytes : list byte) (marks : list nat)
  : Writer -> Prop :=
| stream_inv_intro b c n fo s :
    length b = BlockSize ->
    c <= BlockSize ->
    Forall full_block s ->
    sink_bytes s ++ firstn c b = bytes ->
    Forall (block_meta_ok marks) (with_starts 0 s) ->
    Forall (fun p => p <= length bytes
                     /\ p < length (sink_bytes s) + BlockSize) marks ->
    n = N.of_nat (length (filter (Nat.leb (length (sink_bytes s))) marks)) ->
    (n <> 0%N ->
     In (length (sink_bytes s) + fo) marks
     /\ Forall (fun p => length (sink_bytes s) <= p ->
                         length (sink_bytes s) + fo <= p) marks) ->
    stream_inv bytes marks
      (mkWriter (Some b) (Some c) BlockSize n fo (Some s) false).

(** Nothing is left unsealed by [Close] without reason: the current block
    has bytes, or nothing was written, or an item start is pending at the
    end of the stream. *)
Definition tail_inv (bytes : list byte) (marks : list nat) (w : Writer)
  : Prop :=
  current_ w <> Some 0 \/ bytes = [] \/ In (length bytes) marks.

(** The part of [stream_inv] that is about bytes alone. *)
Inductive bytes_inv (bytes : list byte) : Writer -> Prop :=
| bytes_inv_intro b c n fo s :
    length b = BlockSize ->
    c <= BlockSize ->
    sink_bytes s ++ firstn c b = bytes ->
    bytes_inv bytes
      (mkWriter (Some b) (Some c) BlockSize n fo (Some s) false).

(** The calls and the bytes of a sequence of items. *)
Definition items_calls (items : list T) : list WriteCall :=
  flat_map item_calls items.

Definition items_bytes (items : list T) : list byte :=
  flat_map item_bytes items.

(** A call that writes bytes and starts no item. *)
Definition is_data_call (c : WriteCall) : bool :=
  match c with
  | CallMarkItem => false
  | _ => true
  end.

Definition is_close (o : Op) : bool :=
  match o with
  | OpClose => true
  | _ => false
  end.

(** A block sealed with no item start carries a first item offset of
    zero. *)
Definition call_zero_ok (c : SinkCall) : Prop :=
  match c with
  | SinkAppendBlock _ _ _ first n => n = 0%N -> first = 0
  | _ => True
  end.

Definition sink_zero_ok (s : option BlockSink) : Prop :=
  match s with
  | Some l => Forall call_zero_ok l
  | None => True
  end.

(** The counters of a writer, after at most [m] calls of [MarkItem], in
    any state the operations lead to: with its block, a count that has
    not wrapped and a first offset of zero while it is zero; or with the
    block gone after [Close]. *)
Inductive zero_inv (m : nat) : Writer -> Prop :=
| zero_inv_block b cur e k fo s cl :
    k <= m ->
    (k = 0 -> fo = 0) ->
    sink_zero_ok s ->
    zero_inv m (mkWriter (Some b) cur e (N.of_nat k) fo s cl)
| zero_inv_none e fo s cl :
    sink_zero_ok s ->
    zero_inv m (mkWriter None None e 0%N fo s cl).

(** The number of [MarkItem] calls of a sequence of calls, and of a
    sequence of operations. *)
Definition count_marks (cs : list WriteCall) : nat :=
  length (filter (fun c => negb (is_data_call c)) cs).

Definition op_marks (o : Op) : nat :=
  match o with
  | OpItem x => count_marks (item_calls x)
  | OpCall c => count_marks [c]
  | _ => 0
  end.

Definition ops_marks (ops : list Op) : nat :=
  list_sum (map op_marks ops).

(** ** What the further properties speak of *)

(** The bytes an operation puts on the way to the sink: those it writes,
    and the valid bytes of the virtual blocks it forwards. *)
Definition op_bytes (o : Op) : list byte :=
  match o with
  | OpItem x => item_bytes x
  | OpCall c => call_data c
  | OpAppendBlocks vblocks => sink_bytes (map SinkAppendVBlock vblocks)
  | OpFlush => []
  | OpClose => []
  end.

Definition ops_bytes (ops : list Op) : list byte :=
  flat_map op_bytes ops.

(** A block the writer sealed lies within its buffer: the range starts at
    the begin, ends within the capacity, and the first item offset is not
    beyond the range. *)
Definition block_in_bounds (c : SinkCall) : Prop :=
  match c with
  | SinkAppendBlock b lo hi first _ =>
      lo = 0 /\ first <= hi /\ hi <= BlockSize /\ length b = BlockSize
  | _ => True
  end.

(** The open writer with a sink after any operations but [Close]: the
    bytes so far are at the sink and in the used part of the block, and
    all offsets are within bounds. *)
Inductive layout_inv (bytes : list byte) : Writer -> Prop :=
| layout_inv_intro b c n fo s :
    length b = BlockSize ->
    c <= BlockSize ->
    fo <= c ->
    Forall block_in_bounds s ->
    sink_bytes s ++ firstn c b = bytes ->
    layout_inv bytes
      (mkWriter (Some b) (Some c) BlockSize n fo (Some s) false).

(** The item starts the sink was told of. *)
Definition call_items (c : SinkCall) : nat :=
  match c with
  | SinkAppendBlock _ _ _ _ n => N.to_nat n
  | _ => 0
  end.

Definition items_total (s : BlockSink) : nat :=
  list_sum (map call_items s).

(** The open writer with a sink after [m] calls of [MarkItem]: each is
    counted once, at the sink or in the current block. *)
Inductive count_inv (m : nat) : Writer -> Prop :=
| count_inv_intro b c k fo s :
    length b = BlockSize ->
    c <= BlockSize ->
    items_total s + k = m ->
    count_inv m
      (mkWriter (Some b) (Some c) BlockSize (N.of_nat k) fo (Some s) false).

(** The open writer without a sink that has buffered [bytes]. *)
Inductive buffer_inv (bytes : list byte) : Writer -> Prop :=
| buffer_inv_intro b c n fo :
    length b = BlockSize ->
    c = length bytes ->
    c <= BlockSize ->
    firstn c b = bytes ->
    buffer_inv bytes
      (mkWriter (Some b) (Some c) BlockSize n fo None false).


(** What no operation but [Close] changes: whether the writer is closed,
    and whether it has a sink. *)
Definition same_mode (w w' : Writer) : Prop :=
  closed_ w' = closed_ w /\ IsValid w' = IsValid w.

(** What each operation comes to on a writer whose [Close] has sealed the
    block: only a further [Close] returns. *)
Definition after_sealing_close (o : Op) (w : Writer) : result Writer :=
  match o with
  | OpClose => Ok w
  | OpItem _ => Fail AssertionFailed
  | OpCall CallMarkItem => Fail NullBlock
  | OpCall (CallAppend _) => Fail AssertionFailed
  | OpCall (CallPutByte _) => Fail AssertionFailed
  | OpFlush => Fail NullBlock
  | OpAppendBlocks _ => Fail NullBlock
  end.


(** An item followed by a [Flush], for each item in turn. *)
Definition flushed_items (items : list T) : list Op :=
  flat_map (fun x => [OpItem x; OpFlush]) items.

(** The block of one item: its valid bytes are the bytes of the item,
    which starts at the begin and is the one item of the block. *)
Definition item_block (x : T) (c : SinkCall) : Prop :=
  exists b,
    c = SinkAppendBlock b 0 (length (item_bytes x)) 0 1%N
    /\ firstn (length (item_bytes x)) b = item_bytes x.


(** ** Item starts over all operations *)

(** The calls an operation makes on the write functions. *)
Definition op_calls (o : Op) : list WriteCall :=
  match o with
  | OpItem x => item_calls x
  | OpCall c => [c]
  | _ => []
  end.

(** The stream positions of the item starts of a sequence of operations,
    [pos] bytes having gone to the sink before; the bytes of the blocks
    [AppendBlocks] forwards count as the bytes written do. *)
Fixpoint ops_mark_positions (pos : nat) (ops : list Op) : list nat :=
  match ops with
  | [] => []
  | o :: ops' =>
      mark_positions pos (op_calls o)
      ++ ops_mark_positions (pos + length (op_bytes o)) ops'
  end.

(** The operations that seal the current block whatever its fill. *)
Definition sealing (o : Op) : bool :=
  match o with
  | OpFlush | OpAppendBlocks _ | OpClose => true
  | _ => false
  end.

(** Whether an item start waits for its first byte after a call, given
    whether one did before: [MarkItem] makes one wait, a byte written
    ends the wait. *)
Definition call_pending (pending : bool) (c : WriteCall) : bool :=
  match c with
  | CallMarkItem => true
  | CallAppend [] => pending
  | _ => false
  end.

(** No operation of [ops] seals the current block while an item start
    waits for its first byte. *)
Fixpoint no_start_pending (pending : bool) (ops : list Op) : bool :=
  match ops with
  | [] => true
  | o :: ops' =>
      if sealing o then negb pending && no_start_pending false ops'
      else no_start_pending (fold_left call_pending (op_calls o) pending)
                            ops'
  end.

(** The blocks the writer sealed, among the calls on the sink, each with
    the stream position of its first valid byte. *)
Definition sealed_blocks (start : nat) (s : BlockSink)
  : list (nat * SinkCall) :=
  filter (fun sc => is_append_block (snd sc)) (with_starts start s).

(** The open writer after any operations but [Close] on a fresh writer
    with a sink, [bytes] having gone to the sink or to the current block,
    [marks] being the stream positions of the item starts, and [pending]
    telling whether one of them may wait for its first byte: the sealed
    blocks are within bounds and their metadata is as [marks] says; the
    counters of the current block agree with [marks]. *)
Inductive meta_inv (bytes : list byte) (marks : list nat) (pending : bool)
  : Writer -> Prop :=
| meta_inv_intro b c n fo s :
    length b = BlockSize ->
    c <= BlockSize ->
    fo <= c ->
    Forall block_in_bounds s ->
    sink_bytes s ++ firstn c b = bytes ->
    Forall (block_meta_ok marks) (sealed_blocks 0 s) ->
    Forall (fun p => p <= length bytes
                     /\ p < length (sink_bytes s) + BlockSize) marks ->
    (pending = false -> Forall (fun p => p < length bytes) marks) ->
    n = N.of_nat (length (filter (Nat.leb (length (sink_bytes s))) marks)) ->
    (n <> 0%N ->
     In (length (sink_bytes s) + fo) marks
     /\ Forall (fun p => length (sink_bytes s) <= p ->
                         length (sink_bytes s) + fo <= p) marks) ->
    meta_inv bytes marks pending
      (mkWriter (Some b) (Some c) BlockSize n fo (Some s) false).


(** * Proofs *)

(** ** Copies into a block *)

Lemma copy_at_nil (b : Block) (c : nat) : copy_at b c [] = b.
Proof.
  unfold copy_at. cbn [length app]. rewrite Nat.add_0_r.
  apply firstn_skipn.
Qed.

Lemma copy_at_length (b : Block) (c : nat) (d : list byte) :
  c + length d <= length b -> length (copy_at b c d) = length b.
Proof.
  intros H. unfold copy_at.
  rewrite !length_app, length_firstn, length_skipn. lia.
Qed.

Lemma firstn_copy_at (b : Block) (c : nat) (d : list byte) :
  c + length d <= length b ->
  firstn (c + length d) (copy_at b c d) = firstn c b ++ d.
Proof.
  intros H. unfold copy_at.
  assert (Hc : length (firstn c b) = c) by (rewrite length_firstn; lia).
  rewrite app_assoc.
  rewrite firstn_app.
  rewrite length_app, Hc.
  replace (c + length d - (c + length d)) with 0 by lia.
  cbn [firstn]. rewrite app_nil_r.
  apply firstn_all2. rewrite length_app, Hc. lia.
Qed.

(** ** The operations on a writer given by its members *)

Lemma Flush_eq b c e n fo s cl :
  Flush (mkWriter (Some b) (Some c) e n fo (Some s) cl)
  = Ok (mkWriter (Some make_block) (Some 0) BlockSize 0%N 0
                 (Some (s ++ [SinkAppendBlock b 0 c fo n])) cl).
Proof. reflexivity. Qed.

Lemma Append_loop_fits fuel d b c n fo s cl :
  length b = BlockSize ->
  c + length d <= BlockSize ->
  Append_loop fuel d (mkWriter (Some b) (Some c) BlockSize n fo s cl)
  = Ok (mkWriter (Some (copy_at b c d)) (Some (c + length d))
                 BlockSize n fo s cl).
Proof.
  intros Hb Hfit.
  destruct fuel; cbn -[copy_at Nat.ltb Nat.leb];
    (destruct (Nat.ltb_spec BlockSize (c + length d)); [lia|]);
    unfold copy_to_current; cbn -[copy_at Nat.ltb Nat.leb];
    (destruct (Nat.leb_spec (c + length d) (length b)); [|lia]);
    reflexivity.
Qed.

Lemma Append_loop_spills fuel d b c n fo s cl :
  length b = BlockSize ->
  c <= BlockSize ->
  BlockSize < c + length d ->
  Append_loop (S fuel) d
    (mkWriter (Some b) (Some c) BlockSize n fo (Some s) cl)
  = Append_loop fuel (skipn (BlockSize - c) d)
      (mkWriter (Some make_block) (Some 0) BlockSize 0%N 0
         (Some (s ++ [SinkAppendBlock
                        (copy_at b c (firstn (BlockSize - c) d))
                        0 BlockSize fo n]))
         cl).
Proof.
  intros Hb Hc Hsp.
  cbn -[copy_at Nat.ltb Nat.leb firstn skipn Nat.sub].
  destruct (Nat.ltb_spec BlockSize (c + length d)); [|lia].
  destruct (Nat.ltb_spec BlockSize c); [lia|].
  unfold copy_to_current. cbn -[copy_at Nat.ltb Nat.leb firstn skipn Nat.sub].
  assert (Hl : length (firstn (BlockSize - c) d) = BlockSize - c)
    by (rewrite length_firstn; lia).
  rewrite Hl.
  destruct (Nat.leb_spec (c + (BlockSize - c)) (length b)); [|lia].
  cbn -[copy_at Nat.ltb Nat.leb firstn skipn Nat.sub].
  replace (c + (BlockSize - c)) with BlockSize by lia.
  reflexivity.
Qed.

(** The bound of [Append] is enough: on an open writer with a sink and a
    block of at least one byte the loop ends, and does what [appends]
    says. *)
Lemma Append_loop_fuel fuel d b c n fo s cl :
  0 < BlockSize ->
  length b = BlockSize ->
  c <= BlockSize ->
  length d + (if c =? BlockSize then 1 else 0) <= fuel ->
  exists w',
    Append_loop fuel d
      (mkWriter (Some b) (Some c) BlockSize n fo (Some s) cl) = Ok w'
    /\ appends d (mkWriter (Some b) (Some c) BlockSize n fo (Some s) cl) w'.
Proof.
  intros Hpos. revert d b c n fo s.
  induction fuel as [|fuel IH]; intros d b c n fo s Hb Hc Hfuel.
  - destruct (Nat.eqb_spec c BlockSize); [lia|].
    assert (length d = 0) by lia.
    rewrite Append_loop_fits by lia.
    eexists; split; [reflexivity|]. constructor. lia.
  - destruct (Nat.le_gt_cases (c + length d) BlockSize) as [Hfit|Hsp].
    + rewrite Append_loop_fits by lia.
      eexists; split; [reflexivity|]. constructor. lia.
    + rewrite Append_loop_spills by lia.
      destruct (IH (skipn (BlockSize - c) d) make_block 0 0%N 0
                   (s ++ [SinkAppendBlock
                            (copy_at b c (firstn (BlockSize - c) d))
                            0 BlockSize fo n]))
        as [w' [Hrun Happ]].
      * unfold make_block. apply repeat_length.
      * lia.
      * rewrite length_skipn.
        destruct (Nat.eqb_spec 0 BlockSize); [lia|].
        destruct (Nat.eqb_spec c BlockSize); lia.
      * exists w'. split; [exact Hrun|].
        apply appends_spills; assumption.
Qed.

Lemma Append_appends d b c n fo s :
  0 < BlockSize ->
  length b = BlockSize ->
  c <= BlockSize ->
  exists w',
    Append d (mkWriter (Some b) (Some c) BlockSize n fo (Some s) false)
    = Ok w'
    /\ appends d
         (mkWriter (Some b) (Some c) BlockSize n fo (Some s) false) w'.
Proof.
  intros Hpos Hb Hc. unfold Append. cbn [closed_ negb].
  apply Append_loop_fuel; try assumption.
  destruct (c =? BlockSize); lia.
Qed.

(** ** Counting item starts *)

Lemma filter_none (A : Type) (f : A -> bool) (l : list A) :
  Forall (fun x => f x = false) l -> filter f l = [].
Proof.
  induction 1 as [|x l Hx Hl IH]; cbn; [reflexivity|].
  now rewrite Hx.
Qed.

Lemma filter_none_inv (A : Type) (f : A -> bool) (l : list A) :
  length (filter f l) = 0 -> Forall (fun x => f x = false) l.
Proof.
  induction l as [|x l IH]; cbn; intros H; constructor.
  - destruct (f x); [discriminate H|reflexivity].
  - apply IH. destruct (f x); [discriminate H|exact H].
Qed.

(** ** The sink's view *)

Lemma sink_bytes_cons (c : SinkCall) (s : BlockSink) :
  sink_bytes (c :: s) = call_bytes c ++ sink_bytes s.
Proof. reflexivity. Qed.

Lemma sink_bytes_app (s t : BlockSink) :
  sink_bytes (s ++ t) = sink_bytes s ++ sink_bytes t.
Proof. unfold sink_bytes. apply flat_map_app. Qed.

Lemma with_starts_app (s t : BlockSink) (start : nat) :
  with_starts start (s ++ t)
  = with_starts start s
    ++ with_starts (start + length (sink_bytes s)) t.
Proof.
  revert start. induction s as [|c s IH]; intros start; cbn.
  - now rewrite Nat.add_0_r.
  - rewrite IH. fold (sink_bytes s). rewrite length_app.
    now rewrite Nat.add_assoc.
Qed.

Lemma full_block_bytes (c : SinkCall) :
  full_block c -> length (call_bytes c) = BlockSize.
Proof.
  destruct c as [b lo hi fo n| |]; cbn; try tauto.
  intros (-> & -> & Hb). cbn. rewrite length_firstn. lia.
Qed.

Lemma with_starts_end (s : BlockSink) (start : nat) :
  Forall full_block s ->
  Forall (fun sc => fst sc + BlockSize
                    <= start + length (sink_bytes s))
         (with_starts start s).
Proof.
  intros Hs. revert start.
  induction Hs as [|c s Hc Hs IH]; intros start;
    cbn [with_starts]; constructor;
    rewrite sink_bytes_cons, length_app.
  - cbn [fst]. rewrite (full_block_bytes _ Hc). lia.
  - specialize (IH (start + length (call_bytes c))).
    eapply Forall_impl; [|exact IH]. cbn beta. intros sc H. lia.
Qed.

Lemma block_meta_ok_mark (marks : list nat) (sc : nat * SinkCall)
      (p : nat) :
  full_block (snd sc) ->
  fst sc + BlockSize <= p ->
  block_meta_ok marks sc ->
  block_meta_ok (marks ++ [p]) sc.
Proof.
  destruct sc as [start [b lo hi fo n| |]]; cbn; try tauto.
  intros (_ & -> & _) Hp (Hlo & Hn & Hfirst).
  split; [exact Hlo|]. split.
  - rewrite filter_app, length_app. cbn.
    unfold in_range at 2.
    destruct (Nat.ltb_spec p (start + BlockSize)); [lia|].
    rewrite andb_false_r. cbn. now rewrite Nat.add_0_r.
  - intros Hn0. destruct (Hfirst Hn0) as (Hlt & Hin & Hall).
    split; [exact Hlt|]. split.
    + apply in_or_app. now left.
    + apply Forall_app. split; [exact Hall|].
      constructor; [lia|constructor].
Qed.

(** ** The steps preserve [stream_inv] *)

Lemma stream_inv_init :
  stream_inv [] [] (BlockWriterBase (Some [])).
Proof.
  unfold BlockWriterBase, AllocateBlock. cbn.
  constructor; cbn; try constructor; try lia.
  unfold make_block. apply repeat_length.
Qed.

(** The copy of [Append], when the data fits. *)
Lemma stream_inv_copy bytes marks b c n fo s d :
  c + length d <= BlockSize ->
  stream_inv bytes marks
    (mkWriter (Some b) (Some c) BlockSize n fo (Some s) false) ->
  stream_inv (bytes ++ d) marks
    (mkWriter (Some (copy_at b c d)) (Some (c + length d))
              BlockSize n fo (Some s) false).
Proof.
  intros Hfit H. inversion H as [b0 c0 n0 fo0 s0 Hb Hc Hfull Hbytes Hmeta
                                   Hmarks Hn Hfo].
  clear H. subst b0 c0 n0 fo0 s0.
  constructor; try assumption.
  - rewrite copy_at_length; lia.
  - rewrite firstn_copy_at by lia. now rewrite app_assoc, Hbytes.
  - eapply Forall_impl; [|exact Hmarks]. cbn beta.
    intros p [H1 H2]. rewrite length_app. lia.
Qed.

(** The flush of a full block, in [Append] and in [MarkItem]. *)
Lemma stream_inv_flush_full bytes marks b n fo s :
  stream_inv bytes marks
    (mkWriter (Some b) (Some BlockSize) BlockSize n fo (Some s) false) ->
  stream_inv bytes marks
    (mkWriter (Some make_block) (Some 0) BlockSize 0%N 0
              (Some (s ++ [SinkAppendBlock b 0 BlockSize fo n])) false).
Proof.
  intros H. inversion H as [b0 c0 n0 fo0 s0 Hb Hc Hfull Hbytes Hmeta
                              Hmarks Hn Hfo].
  clear H. subst b0 c0 n0 fo0 s0.
  assert (Hnew : sink_bytes (s ++ [SinkAppendBlock b 0 BlockSize fo n])
                 = sink_bytes s ++ firstn BlockSize b).
  { rewrite sink_bytes_app. cbn. now rewrite Nat.sub_0_r, app_nil_r. }
  assert (Hlen : length (sink_bytes (s ++ [SinkAppendBlock b 0 BlockSize
                                                           fo n]))
                 = length (sink_bytes s) + BlockSize).
  { rewrite Hnew, length_app, <- Hb, firstn_all. reflexivity. }
  assert (Hsame : filter (in_range (length (sink_bytes s))
                                   (length (sink_bytes s) + BlockSize))
                         marks
                  = filter (Nat.leb (length (sink_bytes s))) marks).
  { apply filter_ext_in. intros p Hp.
    rewrite Forall_forall in Hmarks. destruct (Hmarks p Hp) as [_ Hlt].
    unfold in_range.
    destruct (Nat.ltb_spec p (length (sink_bytes s) + BlockSize)); [|lia].
    apply andb_true_r. }
  constructor.
  - unfold make_block. apply repeat_length.
  - lia.
  - apply Forall_app. split; [exact Hfull|].
    constructor; [|constructor]. cbn. auto.
  - rewrite Hnew. cbn. now rewrite app_nil_r.
  - rewrite with_starts_app. apply Forall_app. split; [exact Hmeta|].
    cbn [with_starts]. constructor; [|constructor].
    cbn [block_meta_ok Nat.add].
    split; [reflexivity|]. split.
    + now rewrite Hsame.
    + intros Hn0. destruct (Hfo Hn0) as [Hin Hall].
      split; [|split; assumption].
      rewrite Forall_forall in Hmarks.
      destruct (Hmarks _ Hin). lia.
  - rewrite Hlen. eapply Forall_impl; [|exact Hmarks]. cbn beta. lia.
  - rewrite Hlen.
    rewrite filter_none; [reflexivity|].
    eapply Forall_impl; [|exact Hmarks]. cbn beta. intros p [_ Hlt].
    apply Nat.leb_gt. lia.
  - intros Hn0. now contradiction Hn0.
Qed.

Lemma with_starts_full (s : BlockSink) (start : nat) :
  Forall full_block s ->
  Forall (fun sc => full_block (snd sc)) (with_starts start s).
Proof.
  intros Hs. revert start.
  induction Hs as [|c s Hc Hs IH]; intros start; cbn [with_starts];
    constructor; auto.
Qed.

Lemma stream_inv_length bytes marks b c n fo s cl :
  stream_inv bytes marks
    (mkWriter (Some b) (Some c) BlockSize n fo (Some s) cl) ->
  length bytes = length (sink_bytes s) + c.
Proof.
  intros H. inversion H as [b0 c0 n0 fo0 s0 Hb Hc Hfull Hbytes Hmeta
                              Hmarks Hn Hfo].
  rewrite <- Hbytes, length_app, length_firstn. lia.
Qed.

(** The bookkeeping of [MarkItem], the block not being full. *)
Lemma stream_inv_mark bytes marks b c n fo s :
  c < BlockSize ->
  (N.of_nat (length marks) + 1 < size_t_modulus)%N ->
  stream_inv bytes marks
    (mkWriter (Some b) (Some c) BlockSize n fo (Some s) false) ->
  stream_inv bytes (marks ++ [length bytes])
    (mkWriter (Some b) (Some c) BlockSize
              ((n + 1) mod size_t_modulus)%N
              (if (n =? 0)%N then c else fo) (Some s) false).
Proof.
  intros Hlt Hwrap H.
  pose proof (stream_inv_length H) as Hlen.
  inversion H as [b0 c0 n0 fo0 s0 Hb Hc Hfull Hbytes Hmeta
                    Hmarks Hn Hfo].
  clear H. subst b0 c0 n0 fo0 s0.
  set (S0 := length (sink_bytes s)) in *.
  assert (Hcount : length (filter (Nat.leb S0) marks) <= length marks)
    by apply filter_length_le.
  assert (Hnew : filter (Nat.leb S0) (marks ++ [length bytes])
                 = filter (Nat.leb S0) marks ++ [length bytes]).
  { rewrite filter_app. cbn.
    destruct (Nat.leb_spec S0 (length bytes)); [reflexivity|lia]. }
  constructor; try assumption.
  - pose proof (with_starts_end 0 Hfull) as Hend.
    pose proof (with_starts_full 0 Hfull) as Hfb.
    rewrite Forall_forall in *. intros sc Hsc.
    apply block_meta_ok_mark; auto.
    specialize (Hend sc Hsc). cbn beta in Hend. fold S0 in Hend. lia.
  - apply Forall_app. split.
    + exact Hmarks.
    + constructor; [|constructor]. fold S0. lia.
  - fold S0. rewrite Hnew, length_app. cbn [length].
    rewrite N.mod_small; lia.
  - intros _. fold S0.
    destruct (N.eqb_spec n 0) as [Hz|Hnz].
    + assert (Hnone : Forall (fun p => Nat.leb S0 p = false) marks).
      { apply filter_none_inv. lia. }
      split.
      * apply in_or_app. right. left. lia.
      * apply Forall_app. split.
        -- eapply Forall_impl; [|exact Hnone]. cbn beta.
           intros p Hp Hle. apply Nat.leb_gt in Hp. lia.
        -- constructor; [lia|constructor].
    + destruct (Hfo Hnz) as [Hin Hall]. fold S0 in Hin, Hall.
      split.
      * apply in_or_app. now left.
      * apply Forall_app. split; [exact Hall|].
        constructor; [|constructor].
        rewrite Forall_forall in Hmarks.
        destruct (Hmarks _ Hin). lia.
Qed.

Lemma MarkItem_eq b c n fo s cl :
  MarkItem (mkWriter (Some b) (Some c) BlockSize n fo (Some s) cl)
  = Ok (if c =? BlockSize
        then mkWriter (Some make_block) (Some 0) BlockSize
                      ((0 + 1) mod size_t_modulus)%N 0
                      (Some (s ++ [SinkAppendBlock b 0 c fo n])) cl
        else mkWriter (Some b) (Some c) BlockSize
                      ((n + 1) mod size_t_modulus)%N
                      (if (n =? 0)%N then c else fo) (Some s) cl).
Proof.
  unfold MarkItem. cbn [current_ end_].
  destruct (c =? BlockSize).
  - rewrite Flush_eq. reflexivity.
  - cbn [bind nitems_ block_ current_]. destruct (n =? 0)%N; reflexivity.
Qed.

Lemma MarkItem_stream_inv bytes marks w :
  0 < BlockSize ->
  (N.of_nat (length marks) + 1 < size_t_modulus)%N ->
  stream_inv bytes marks w ->
  exists w',
    MarkItem w = Ok w' /\ stream_inv bytes (marks ++ [length bytes]) w'.
Proof.
  intros Hpos Hwrap H.
  destruct H as [b c n fo s Hb Hc Hfull Hbytes Hmeta Hmarks Hn Hfo].
  assert (H : stream_inv bytes marks
                (mkWriter (Some b) (Some c) BlockSize n fo (Some s) false))
    by (constructor; assumption).
  rewrite MarkItem_eq. eexists. split; [reflexivity|].
  destruct (Nat.eqb_spec c BlockSize) as [->|Hne].
  - apply stream_inv_flush_full in H.
    apply (stream_inv_mark Hpos Hwrap) in H. exact H.
  - apply stream_inv_mark; [lia|assumption|assumption].
Qed.

(** [Append] extends the stream by its data. *)
Lemma appends_stream_inv d w w' :
  appends d w w' ->
  forall bytes marks,
    stream_inv bytes marks w -> stream_inv (bytes ++ d) marks w'.
Proof.
  induction 1 as [d b c n fo s cl Hfit|d b c n fo s cl w' Hsp Hc Happ IH];
    intros bytes marks H.
  - assert (cl = false) by (inversion H; reflexivity). subst cl.
    now apply stream_inv_copy.
  - assert (cl = false) by (inversion H; reflexivity). subst cl.
    rewrite <- (firstn_skipn (BlockSize - c) d) at 1.
    rewrite app_assoc. apply IH.
    apply stream_inv_flush_full.
    assert (Hl : length (firstn (BlockSize - c) d) = BlockSize - c)
      by (rewrite length_firstn; lia).
    assert (Hfit : c + length (firstn (BlockSize - c) d) <= BlockSize)
      by lia.
    pose proof (stream_inv_copy (firstn (BlockSize - c) d) Hfit H) as H1.
    rewrite Hl in H1.
    replace (c + (BlockSize - c)) with BlockSize in H1 by lia.
    exact H1.
Qed.

Lemma appends_nonempty d w w' :
  appends d w w' -> d <> [] -> current_ w' <> Some 0.
Proof.
  induction 1 as [d b c n fo s cl Hfit|d b c n fo s cl w' Hsp Hc Happ IH];
    intros Hd.
  - cbn. destruct d; [congruence|]. cbn [length]. intros [=]. lia.
  - apply IH. intros Hnil.
    apply (f_equal (@length byte)) in Hnil.
    rewrite length_skipn in Hnil. cbn in Hnil. lia.
Qed.

(** ** [PutByte] against [Append] *)

Lemma make_block_length : length make_block = BlockSize.
Proof. unfold make_block. apply repeat_length. Qed.

Lemma PutByte_as_Append (x : byte) (w : Writer) :
  0 < BlockSize ->
  open_writer w ->
  PutByte x w = Append [x] w.
Proof.
  intros Hpos Hw. destruct Hw as [b c n fo s Hb Hc].
  unfold PutByte, Append. cbn [closed_ current_ end_ length].
  destruct (Nat.ltb_spec c BlockSize) as [Hlt|Hge].
  - rewrite Append_loop_fits by (cbn [length]; lia).
    unfold store_byte, copy_to_current. cbn [block_ current_ length].
    destruct (Nat.leb_spec (c + 1) (length b)); [|lia].
    reflexivity.
  - assert (c = BlockSize) by lia. subst c.
    destruct s as [s|].
    + rewrite Append_loop_spills by (cbn [length]; lia).
      rewrite Nat.sub_diag. cbn [firstn skipn].
      rewrite copy_at_nil.
      rewrite Append_loop_fits
        by (cbn [length]; auto using make_block_length; lia).
      rewrite Flush_eq. cbn [bind].
      unfold store_byte, copy_to_current. cbn [block_ current_ length].
      rewrite make_block_length.
      destruct (Nat.leb_spec (0 + 1) BlockSize); [|lia].
      reflexivity.
    + cbn -[copy_at Nat.ltb Nat.leb Nat.sub].
      destruct (Nat.ltb_spec BlockSize (BlockSize + 1)); [|lia].
      destruct (Nat.ltb_spec BlockSize BlockSize); [lia|].
      rewrite Nat.sub_diag. unfold copy_to_current.
      cbn -[copy_at Nat.ltb Nat.leb Nat.sub].
      destruct (Nat.leb_spec (BlockSize + 0) (length b)); [|lia].
      reflexivity.
Qed.

(** ** Runs of calls *)

Lemma stream_inv_open bytes marks w :
  stream_inv bytes marks w -> open_writer w.
Proof.
  intros H. destruct H. now constructor.
Qed.

Lemma Append_stream_inv d bytes marks w :
  0 < BlockSize ->
  stream_inv bytes marks w ->
  exists w',
    Append d w = Ok w'
    /\ stream_inv (bytes ++ d) marks w'
    /\ (d <> [] -> current_ w' <> Some 0).
Proof.
  intros Hpos H.
  destruct H as [b c n fo s Hb Hc Hfull Hbytes Hmeta Hmarks Hn Hfo].
  destruct (@Append_appends d b c n fo s Hpos Hb Hc) as [w' [Hrun Happ]].
  exists w'. split; [exact Hrun|]. split.
  - apply (appends_stream_inv Happ). now constructor.
  - now apply (appends_nonempty Happ).
Qed.

Lemma mark_positions_app (cs ds : list WriteCall) (pos : nat) :
  mark_positions pos (cs ++ ds)
  = mark_positions pos cs
    ++ mark_positions (pos + length (calls_data cs)) ds.
Proof.
  revert pos. induction cs as [|c cs IH]; intros pos; cbn [app].
  - cbn. now rewrite Nat.add_0_r.
  - unfold calls_data. cbn [flat_map]. fold (calls_data cs).
    rewrite length_app, Nat.add_assoc.
    destruct c; cbn [mark_positions call_data length app];
      rewrite ?Nat.add_0_r; rewrite IH; reflexivity.
Qed.

Lemma calls_data_app (cs ds : list WriteCall) :
  calls_data (cs ++ ds) = calls_data cs ++ calls_data ds.
Proof. unfold calls_data. apply flat_map_app. Qed.

Lemma run_calls_app (cs ds : list WriteCall) (w : Writer) :
  run_calls (cs ++ ds) w = (w1 <- run_calls cs w ;; run_calls ds w1).
Proof.
  revert w. induction cs as [|c cs IH]; intros w; cbn; [reflexivity|].
  destruct (run_call c w); cbn; [apply IH|reflexivity].
Qed.

Lemma run_call_inv c bytes marks w :
  0 < BlockSize ->
  (N.of_nat (length (marks ++ mark_positions (length bytes) [c]))
   < size_t_modulus)%N ->
  stream_inv bytes marks w ->
  tail_inv bytes marks w ->
  exists w',
    run_call c w = Ok w'
    /\ stream_inv (bytes ++ call_data c)
                  (marks ++ mark_positions (length bytes) [c]) w'
    /\ tail_inv (bytes ++ call_data c)
                (marks ++ mark_positions (length bytes) [c]) w'.
Proof.
  intros Hpos Hwrap H Ht. destruct c as [|d|x]; cbn [run_call call_data].
  - cbn [mark_positions] in *. rewrite app_nil_r.
    rewrite length_app in Hwrap. cbn [length] in Hwrap.
    assert (Hw : (N.of_nat (length marks) + 1 < size_t_modulus)%N) by lia.
    destruct (@MarkItem_stream_inv bytes marks w Hpos Hw H)
      as [w' [Hrun Hinv]].
    exists w'. split; [exact Hrun|]. split; [exact Hinv|].
    right. right. apply in_or_app. right. now left.
  - cbn [mark_positions]. rewrite app_nil_r.
    destruct (@Append_stream_inv d bytes marks w Hpos H)
      as [w' [Hrun [Hinv Hne]]].
    exists w'. split; [exact Hrun|]. split; [exact Hinv|].
    destruct d as [|x d].
    + rewrite app_nil_r.
      destruct H as [b c n fo s Hb Hc Hfull Hbytes Hmeta Hmarks Hn Hfo].
      unfold Append in Hrun. cbn [closed_] in Hrun.
      rewrite Append_loop_fits in Hrun by (cbn [length]; lia).
      injection Hrun as <-. unfold tail_inv in *. cbn [current_] in *.
      cbn [length]. now rewrite Nat.add_0_r.
    + left. apply Hne. discriminate.
  - cbn [mark_positions]. rewrite app_nil_r.
    rewrite PutByte_as_Append by eauto using stream_inv_open.
    destruct (@Append_stream_inv [x] bytes marks w Hpos H)
      as [w' [Hrun [Hinv Hne]]].
    exists w'. split; [exact Hrun|]. split; [exact Hinv|].
    left. apply Hne. discriminate.
Qed.

Lemma run_calls_inv cs bytes marks w :
  0 < BlockSize ->
  (N.of_nat (length (marks ++ mark_positions (length bytes) cs))
   < size_t_modulus)%N ->
  stream_inv bytes marks w ->
  tail_inv bytes marks w ->
  exists w',
    run_calls cs w = Ok w'
    /\ stream_inv (bytes ++ calls_data cs)
                  (marks ++ mark_positions (length bytes) cs) w'
    /\ tail_inv (bytes ++ calls_data cs)
                (marks ++ mark_positions (length bytes) cs) w'.
Proof.
  intros Hpos. revert bytes marks w.
  induction cs as [|c cs IH]; intros bytes marks w Hwrap H Ht.
  - cbn. rewrite !app_nil_r. eauto.
  - change (c :: cs) with ([c] ++ cs) in *.
    rewrite mark_positions_app, app_assoc in *.
    rewrite calls_data_app, app_assoc.
    assert (Hc : calls_data [c] = call_data c)
      by (cbn; apply app_nil_r).
    rewrite Hc in *.
    assert (Hw1 : (N.of_nat (length (marks
                                     ++ mark_positions (length bytes) [c]))
                   < size_t_modulus)%N)
      by (rewrite !length_app in *; lia).
    destruct (@run_call_inv c bytes marks w Hpos Hw1 H Ht)
      as [w1 [Hrun1 [Hinv1 Ht1]]].
    rewrite <- length_app in *.
    destruct (IH _ _ _ Hwrap Hinv1 Ht1) as [w2 [Hrun2 [Hinv2 Ht2]]].
    exists w2. split; [|split; assumption].
    cbn [app run_calls]. rewrite Hrun1. exact Hrun2.
Qed.

(** ** The bytes of the stream *)

Lemma bytes_inv_init : bytes_inv [] (BlockWriterBase (Some [])).
Proof.
  unfold BlockWriterBase, AllocateBlock. cbn [sink_ closed_].
  constructor; [apply make_block_length|lia|reflexivity].
Qed.

Lemma bytes_inv_flush bytes b c n fo s :
  bytes_inv bytes
    (mkWriter (Some b) (Some c) BlockSize n fo (Some s) false) ->
  bytes_inv bytes
    (mkWriter (Some make_block) (Some 0) BlockSize 0%N 0
              (Some (s ++ [SinkAppendBlock b 0 c fo n])) false).
Proof.
  intros H. inversion H as [b0 c0 n0 fo0 s0 Hb Hc Hbytes].
  constructor; [apply make_block_length|lia|].
  rewrite sink_bytes_app. cbn.
  now rewrite Nat.sub_0_r, !app_nil_r.
Qed.

Lemma appends_bytes_inv d w w' :
  appends d w w' ->
  forall bytes, bytes_inv bytes w -> bytes_inv (bytes ++ d) w'.
Proof.
  induction 1 as [d b c n fo s cl Hfit|d b c n fo s cl w' Hsp Hc Happ IH];
    intros bytes H;
    inversion H as [b0 c0 n0 fo0 s0 Hb Hc0 Hbytes]; subst cl.
  - constructor; [rewrite copy_at_length; lia|lia|].
    rewrite firstn_copy_at by lia. now rewrite app_assoc, Hbytes.
  - rewrite <- (firstn_skipn (BlockSize - c) d) at 1.
    rewrite app_assoc. apply IH.
    assert (Hl : length (firstn (BlockSize - c) d) = BlockSize - c)
      by (rewrite length_firstn; lia).
    apply bytes_inv_flush.
    constructor; [rewrite copy_at_length; lia|lia|].
    replace BlockSize with (c + length (firstn (BlockSize - c) d)) at 1
      by lia.
    rewrite firstn_copy_at by lia. now rewrite app_assoc, Hbytes.
Qed.

Lemma run_call_bytes_inv c bytes w :
  0 < BlockSize ->
  bytes_inv bytes w ->
  exists w',
    run_call c w = Ok w' /\ bytes_inv (bytes ++ call_data c) w'.
Proof.
  intros Hpos H.
  assert (Hopen : open_writer w) by (destruct H; now constructor).
  destruct c as [|d|x]; cbn [run_call call_data].
  - rewrite app_nil_r.
    destruct H as [b c n fo s Hb Hc Hbytes].
    rewrite MarkItem_eq. eexists. split; [reflexivity|].
    destruct (Nat.eqb_spec c BlockSize) as [->|Hne].
    + constructor; [apply make_block_length|lia|].
      rewrite sink_bytes_app. cbn.
      now rewrite Nat.sub_0_r, !app_nil_r.
    + now constructor.
  - destruct H as [b c n fo s Hb Hc Hbytes].
    destruct (@Append_appends d b c n fo s Hpos Hb Hc) as [w' [Hrun Happ]].
    exists w'. split; [exact Hrun|].
    apply (appends_bytes_inv Happ). now constructor.
  - rewrite PutByte_as_Append by assumption.
    destruct H as [b c n fo s Hb Hc Hbytes].
    destruct (@Append_appends [x] b c n fo s Hpos Hb Hc)
      as [w' [Hrun Happ]].
    exists w'. split; [exact Hrun|].
    apply (appends_bytes_inv Happ). now constructor.
Qed.

Lemma run_calls_bytes_inv cs bytes w :
  0 < BlockSize ->
  bytes_inv bytes w ->
  exists w',
    run_calls cs w = Ok w' /\ bytes_inv (bytes ++ calls_data cs) w'.
Proof.
  intros Hpos. revert bytes w.
  induction cs as [|c cs IH]; intros bytes w H.
  - cbn. rewrite app_nil_r. eauto.
  - destruct (@run_call_bytes_inv c bytes w Hpos H) as [w1 [Hrun1 H1]].
    destruct (IH _ _ H1) as [w2 [Hrun2 H2]].
    exists w2. split.
    + cbn [run_calls]. rewrite Hrun1. exact Hrun2.
    + unfold calls_data in *. cbn [flat_map].
      now rewrite app_assoc.
Qed.

(** ** Items *)

Lemma operator_call_calls (x : T) (w : Writer) :
  closed_ w = false ->
  operator_call x w = run_calls (item_calls x) w.
Proof.
  intros Hopen. unfold operator_call, item_calls. rewrite Hopen.
  cbn [run_calls run_call]. destruct (MarkItem w) as [w1|f]; cbn [bind].
  - destruct self_verify; reflexivity.
  - reflexivity.
Qed.

Lemma item_bytes_eq (x : T) :
  item_bytes x
  = (if self_verify then hash_code else []) ++ calls_data (Serialize x).
Proof.
  unfold item_bytes, item_calls, calls_data. cbn [flat_map call_data app].
  rewrite flat_map_app. destruct self_verify; cbn; [|reflexivity].
  now rewrite app_nil_r.
Qed.

Lemma calls_data_items (items : list T) :
  calls_data (items_calls items) = items_bytes items.
Proof.
  unfold items_calls, items_bytes.
  induction items as [|x items IH]; cbn [flat_map]; [reflexivity|].
  rewrite calls_data_app, IH. reflexivity.
Qed.

Lemma run_app (ops1 ops2 : list Op) (w : Writer) :
  run (ops1 ++ ops2) w = (w1 <- run ops1 w ;; run ops2 w1).
Proof.
  revert w. induction ops1 as [|o ops1 IH]; intros w; cbn; [reflexivity|].
  destruct (run_op o w); cbn; [apply IH|reflexivity].
Qed.

(** Writing items one by one is running their calls one by one, on a
    writer that stays open. *)
Lemma run_items_calls (items : list T) bytes (w : Writer) :
  0 < BlockSize ->
  bytes_inv bytes w ->
  run (map OpItem items) w = run_calls (items_calls items) w.
Proof.
  intros Hpos. revert bytes w.
  induction items as [|x items IH]; intros bytes w H; [reflexivity|].
  cbn [map run run_op]. unfold items_calls. cbn [flat_map].
  rewrite run_calls_app.
  rewrite operator_call_calls by (destruct H; reflexivity).
  destruct (@run_calls_bytes_inv (item_calls x) bytes w Hpos H)
    as [w1 [Hrun1 H1]].
  rewrite Hrun1. cbn [bind]. apply (IH _ _ H1).
Qed.

Lemma Close_eq b c n fo s :
  Close (mkWriter (Some b) (Some c) BlockSize n fo (Some s) false)
  = Ok (if (c =? 0) && (n =? 0)%N
        then mkWriter (Some b) (Some c) BlockSize n fo
                      (Some (s ++ [SinkClose])) true
        else mkWriter None None BlockSize 0%N fo
                      (Some ((s ++ [SinkAppendBlock b 0 c fo n])
                               ++ [SinkClose])) true).
Proof.
  unfold Close, MaybeFlushBlock.
  cbn [closed_ negb set_closed block_ current_ nitems_].
  destruct (c =? 0), (n =? 0)%N; reflexivity.
Qed.

(** ** Closing the stream *)

Lemma full_blocks_length (s : BlockSink) :
  Forall full_block s ->
  length (sink_bytes s) = BlockSize * length s.
Proof.
  induction 1 as [|c s Hc Hs IH]; [cbn; lia|].
  rewrite sink_bytes_cons, length_app, IH, (full_block_bytes _ Hc).
  cbn [length]. lia.
Qed.

Lemma full_blocks_count (s : BlockSink) :
  Forall full_block s -> sealed_count s = length s.
Proof.
  unfold sealed_count.
  induction 1 as [|c s Hc Hs IH]; [reflexivity|].
  destruct c; cbn in Hc; try tauto. cbn. now rewrite IH.
Qed.

Lemma sealed_count_app (s t : BlockSink) :
  sealed_count (s ++ t) = sealed_count s + sealed_count t.
Proof. unfold sealed_count. now rewrite filter_app, length_app. Qed.

Lemma mark_positions_data (cs : list WriteCall) (pos : nat) :
  forallb is_data_call cs = true -> mark_positions pos cs = [].
Proof.
  revert pos. induction cs as [|c cs IH]; intros pos H; [reflexivity|].
  cbn [forallb] in H. apply andb_prop in H. destruct H as [Hc Hcs].
  destruct c; [discriminate Hc| |]; cbn [mark_positions]; now apply IH.
Qed.

Lemma block_count_arith (N k m c : nat) :
  0 < c <= BlockSize ->
  k < BlockSize ->
  N * BlockSize + k = BlockSize * m + c ->
  m + 1 = N + (if 0 <? k then 1 else 0) /\ (N =? 0) && (k =? 0) = false.
Proof.
  intros Hc Hk Heq.
  destruct (Nat.ltb_spec 0 k) as [Hk0|Hk0].
  - assert (N = m) by nia. subst m.
    split; [lia|]. destruct (Nat.eqb_spec k 0); [lia|].
    apply andb_false_r.
  - assert (N = m + 1) by nia. subst N.
    split; [lia|]. destruct (Nat.eqb_spec (m + 1) 0); [lia|reflexivity].
Qed.

(** ** The claims on streams of items *)

(** C1: for every sequence of items written through [operator()] and
    the writer then closed, the valid byte ranges of the blocks handed to
    the sink, concatenated in the order of the calls, are the bytes of
    the items in write order (given a block of at least one byte). *)
Theorem C1_sink_bytes_are_item_bytes (items : list T) :
  0 < BlockSize ->
  exists w' sink,
    run (map OpItem items ++ [OpClose]) (BlockWriterBase (Some [])) = Ok w'
    /\ sink_ w' = Some sink
    /\ sink_bytes sink = items_bytes items.
Proof.
  intros Hpos. rewrite run_app.
  rewrite (run_items_calls items Hpos bytes_inv_init).
  destruct (@run_calls_bytes_inv (items_calls items) [] _ Hpos
                                 bytes_inv_init) as [w1 [Hrun1 H1]].
  rewrite Hrun1. cbn [bind run run_op app] in *.
  rewrite calls_data_items in H1.
  destruct H1 as [b c n fo s Hb Hc Hbytes].
  rewrite Close_eq. cbn [bind].
  destruct ((c =? 0) && (n =? 0)%N) eqn:Hempty;
    eexists; eexists; (split; [reflexivity|]);
    cbn [sink_]; (split; [reflexivity|]).
  - apply andb_prop in Hempty. destruct Hempty as [Hc0 _].
    apply Nat.eqb_eq in Hc0. subst c.
    rewrite sink_bytes_app. cbn in *.
    now rewrite !app_nil_r in *.
  - rewrite !sink_bytes_app. cbn.
    now rewrite Nat.sub_0_r, !app_nil_r.
Qed.

Lemma run_items_inv (items : list T) :
  0 < BlockSize ->
  (N.of_nat (length (mark_positions 0 (items_calls items)))
   < size_t_modulus)%N ->
  exists w1,
    run (map OpItem items) (BlockWriterBase (Some [])) = Ok w1
    /\ stream_inv (items_bytes items)
                  (mark_positions 0 (items_calls items)) w1
    /\ tail_inv (items_bytes items)
                (mark_positions 0 (items_calls items)) w1.
Proof.
  intros Hpos Hwrap.
  rewrite (run_items_calls items Hpos bytes_inv_init).
  assert (Ht : tail_inv [] [] (BlockWriterBase (Some [])))
    by (right; left; reflexivity).
  destruct (@run_calls_inv (items_calls items) [] [] _ Hpos Hwrap
                           stream_inv_init Ht) as [w1 [Hrun [Hinv Htl]]].
  cbn [app length] in Hinv, Htl. rewrite calls_data_items in Hinv, Htl.
  eauto.
Qed.

Lemma existsb_filter (A : Type) (f : A -> bool) (l : list A) :
  existsb f l = negb (length (filter f l) =? 0).
Proof.
  induction l as [|x l IH]; cbn; [reflexivity|].
  destruct (f x); cbn; [reflexivity|exact IH].
Qed.

Lemma filter_leb_0 (l : list nat) : filter (Nat.leb 0) l = l.
Proof.
  induction l as [|p l IH]; [reflexivity|].
  change (p :: filter (Nat.leb 0) l = p :: l). now rewrite IH.
Qed.

(** C3 (amended): a single item of N * BlockSize + k bytes, k < BlockSize,
    with fewer than 2^64 item starts, written and the writer closed: the
    valid bytes of the sealed blocks are the bytes of the item, and the
    sink receives N blocks and one more exactly when k > 0 or an item
    start of the item, its own or a nested one, sits at the end of its
    bytes, no byte having followed it.  So the count is N + (1 if k > 0)
    whenever every item start has a byte behind it; and an item of no
    byte gives one block, of valid range [0, 0), first item offset 0 and
    an item count that is the number of its item starts, which is one
    when its serializer starts no nested item. *)
Theorem C3_single_item_blocks (x : T) (N k : nat) :
  0 < BlockSize ->
  k < BlockSize ->
  (N.of_nat (length (mark_positions 0 (item_calls x))) < size_t_modulus)%N ->
  length (item_bytes x) = N * BlockSize + k ->
  exists w' sink,
    run [OpItem x; OpClose] (BlockWriterBase (Some [])) = Ok w'
    /\ sink_ w' = Some sink
    /\ sink_bytes sink = item_bytes x
    /\ sealed_count sink
       = N + (if (0 <? k)
                 || existsb (Nat.eqb (length (item_bytes x)))
                            (mark_positions 0 (item_calls x))
              then 1 else 0)
    /\ (Forall (fun p => p < length (item_bytes x))
               (mark_positions 0 (item_calls x)) ->
        sealed_count sink = N + (if 0 <? k then 1 else 0))
    /\ (length (item_bytes x) = 0 ->
        exists b,
          sink = [SinkAppendBlock b 0 0 0
                    (N.of_nat (length (mark_positions 0 (item_calls x))));
                  SinkClose])
    /\ (forallb is_data_call (Serialize x) = true ->
        mark_positions 0 (item_calls x) = [0]).
Proof.
  intros Hpos Hk Hwrap Hsize.
  assert (Hcalls1 : items_calls [x] = item_calls x)
    by (unfold items_calls; cbn [flat_map]; apply app_nil_r).
  assert (Hbytes1 : items_bytes [x] = item_bytes x)
    by (unfold items_bytes; cbn [flat_map]; apply app_nil_r).
  change [OpItem x; OpClose] with (map OpItem [x] ++ [OpClose]).
  rewrite run_app.
  destruct (@run_items_inv [x] Hpos) as [w1 [Hrun1 [Hinv _]]].
  { rewrite Hcalls1. exact Hwrap. }
  rewrite Hrun1. cbn [bind run run_op].
  rewrite Hcalls1, Hbytes1 in Hinv.
  assert (Hfirst : exists ps, mark_positions 0 (item_calls x) = 0 :: ps)
    by (unfold item_calls; cbn [mark_positions]; eauto).
  set (marks := mark_positions 0 (item_calls x)) in *.
  set (total := length (item_bytes x)) in *.
  pose proof Hinv as Hinv0.
  destruct Hinv as [b c n fo s Hb Hc Hfull Hbytes Hmeta Hmarks Hn Hfo].
  pose proof (stream_inv_length Hinv0) as Hlen. fold total in Hlen.
  rewrite (full_blocks_length Hfull) in Hlen, Hn, Hmarks, Hfo.
  rewrite Forall_forall in Hmarks.
  rewrite Close_eq. cbn [bind].
  set (sink := if (c =? 0) && (n =? 0)%N
               then s ++ [SinkClose]
               else (s ++ [SinkAppendBlock b 0 c fo n]) ++ [SinkClose]).
  eexists. exists sink.
  split; [reflexivity|].
  split; [unfold sink; destruct ((c =? 0) && (n =? 0)%N); reflexivity|].
  (* the start at the end of the bytes, in the three positions of the
     cursor *)
  assert (Hcount : sealed_count sink
                   = N + (if (0 <? k) || existsb (Nat.eqb total) marks
                          then 1 else 0)).
  { rewrite existsb_filter. unfold sink.
    destruct (Nat.eq_dec c 0) as [->|Hc0].
    - assert (N = length s) by nia. assert (k = 0) by nia. subst N k.
      replace (filter (Nat.eqb total) marks)
        with (filter (Nat.leb (BlockSize * length s)) marks).
      + rewrite Hn. cbn [Nat.eqb Nat.ltb Nat.leb andb orb].
        destruct (length (filter (Nat.leb (BlockSize * length s)) marks));
          cbn [N.of_nat N.eqb Nat.eqb negb];
          rewrite ?sealed_count_app, (full_blocks_count Hfull);
          cbn; lia.
      + apply filter_ext_in. intros p Hp. destruct (Hmarks p Hp) as [Hle _].
        fold total in Hle.
        destruct (Nat.leb_spec (BlockSize * length s) p),
                 (Nat.eqb_spec total p); try reflexivity; lia.
    - destruct (Nat.eqb_spec c 0); [contradiction|]. cbn [andb].
      rewrite !sealed_count_app, (full_blocks_count Hfull).
      cbn [sealed_count filter is_append_block length].
      destruct (Nat.eq_dec c BlockSize) as [->|Hcb].
      + assert (N = length s + 1) by nia. assert (k = 0) by nia. subst N k.
        rewrite filter_none; [cbn; lia|].
        apply Forall_forall. intros p Hp. destruct (Hmarks p Hp) as [_ Hlt].
        apply Nat.eqb_neq. lia.
      + assert (N = length s) by nia. assert (k = c) by nia. subst N k.
        destruct (Nat.ltb_spec 0 c); [|lia]. cbn [orb]. lia. }
  split.
  { unfold sink. destruct ((c =? 0) && (n =? 0)%N) eqn:Hempty.
    - apply andb_prop in Hempty. destruct Hempty as [Hc0 _].
      apply Nat.eqb_eq in Hc0. subst c.
      rewrite sink_bytes_app. cbn in *. now rewrite !app_nil_r in *.
    - rewrite !sink_bytes_app. cbn. now rewrite Nat.sub_0_r, !app_nil_r. }
  split; [exact Hcount|]. split.
  { intros Hwritten. rewrite Hcount.
    rewrite existsb_filter, filter_none; [now rewrite orb_false_r|].
    eapply Forall_impl; [|exact Hwritten]. cbn beta.
    intros p Hp. apply Nat.eqb_neq. lia. }
  split.
  { intros Hz. assert (Hs : length s = 0) by nia.
    assert (Hc0 : c = 0) by nia. subst c.
    apply length_zero_iff_nil in Hs. subst s.
    cbn [length] in *. rewrite Nat.mul_0_r in *.
    rewrite filter_leb_0 in Hn.
    destruct Hfirst as [ps Hps].
    assert (Hnz : n <> 0%N) by (rewrite Hn, Hps; cbn; discriminate).
    destruct (Hfo Hnz) as [Hin _].
    destruct (Hmarks _ Hin) as [Hle _].
    assert (fo = 0) by lia. subst fo.
    exists b. unfold sink. cbn [Nat.eqb andb].
    destruct (N.eqb_spec n 0); [contradiction|].
    rewrite Hn. reflexivity. }
  intros Hdata. unfold marks, item_calls. cbn [mark_positions]. f_equal.
  apply mark_positions_data. rewrite forallb_app, Hdata.
  destruct self_verify; reflexivity.
Qed.

(** ** Single operations *)

(** C9: on every open writer (a block of [BlockSize] >= 1 bytes, the
    cursor within it), with or without a sink, [PutByte b] has the result
    of [Append] of the one byte [b]: the same members, the same calls on
    the sink, the same fault if the full block cannot be flushed. *)
Theorem C9_PutByte_is_Append_of_one_byte (x : byte) (w : Writer) :
  0 < BlockSize ->
  open_writer w ->
  PutByte x w = Append [x] w.
Proof. exact (@PutByte_as_Append x w). Qed.

(** C7: [Close] on an open writer with a sink seals the current block
    exactly when its cursor is off the begin or its item count is not
    zero, then closes the sink, once; a second [Close], and the
    destructor, leave the writer and the sink as they are. *)
Theorem C7_Close_is_idempotent (w : Writer) (b : Block) (c : nat)
        (s : BlockSink) :
  open_writer w ->
  block_ w = Some b ->
  current_ w = Some c ->
  sink_ w = Some s ->
  exists w1,
    Close w = Ok w1
    /\ sink_ w1
       = Some (s ++ (if (c =? 0) && (nitems_ w =? 0)%N then []
                     else [SinkAppendBlock b 0 c (first_offset_ w)
                                           (nitems_ w)])
                 ++ [SinkClose])
    /\ closed_ w1 = true
    /\ Close w1 = Ok w1
    /\ Destroy w1 = Ok w1.
Proof.
  intros Hw Hb Hc Hs. destruct Hw as [b0 c0 n fo s0 Hlen Hle].
  cbn in Hb, Hc, Hs. injection Hb as ->. injection Hc as ->. subst s0.
  rewrite Close_eq. cbn [nitems_ first_offset_].
  destruct ((c =? 0) && (n =? 0)%N); eexists;
    (split; [reflexivity|]); cbn [sink_ closed_ app];
    repeat split; try reflexivity.
  now rewrite <- app_assoc.
Qed.

(** C4 (amended): [Flush] on a writer with a sink whose block has no
    byte and no item start makes one [AppendBlock] call, for a block of
    no valid byte and no item, and leaves the writer with a fresh empty
    block. *)
Theorem C4_Flush_of_empty_block (w : Writer) (b : Block) (s : BlockSink) :
  open_writer w ->
  block_ w = Some b ->
  current_ w = Some 0 ->
  nitems_ w = 0%N ->
  sink_ w = Some s ->
  Flush w
  = Ok (mkWriter (Some make_block) (Some 0) BlockSize 0%N 0
                 (Some (s ++ [SinkAppendBlock b 0 0 (first_offset_ w) 0%N]))
                 false).
Proof.
  intros Hw Hb Hc Hn Hs. destruct Hw as [b0 c0 n fo s0 Hlen Hle].
  cbn in Hb, Hc, Hn, Hs. injection Hb as ->. injection Hc as ->.
  subst n s0. apply Flush_eq.
Qed.

(** C6: without a sink, [Flush] on an open writer dereferences the null
    sink, and so does [Close] when the block has a byte or an item start;
    only [Close] on an empty block goes through, as the setting of
    [closed_]. *)
Theorem C6_null_sink_is_dereferenced (w : Writer) :
  open_writer w ->
  sink_ w = None ->
  Flush w = Fail NullSink
  /\ (current_ w <> Some 0 \/ nitems_ w <> 0%N -> Close w = Fail NullSink)
  /\ (current_ w = Some 0 -> nitems_ w = 0%N ->
      Close w = Ok (set_closed true w)).
Proof.
  intros Hw Hs. destruct Hw as [b c n fo s Hlen Hle].
  cbn in Hs. subst s. split; [reflexivity|].
  unfold Close, MaybeFlushBlock.
  cbn [closed_ negb set_closed block_ current_ nitems_ sink_].
  split.
  - intros [Hc|Hn].
    + destruct (Nat.eqb_spec c 0); [congruence|]. reflexivity.
    + destruct (N.eqb_spec n 0); [congruence|].
      rewrite orb_true_r. reflexivity.
  - intros [= ->] ->. reflexivity.
Qed.

(** C8: after [Close] on a fresh writer the assertion of [Append], of
    [PutByte] and of [operator()] fails, but [MarkItem], which has none,
    goes through and counts an item the sink never sees. *)
Theorem C8_MarkItem_after_Close_goes_through (s : BlockSink) :
  0 < BlockSize ->
  exists w1 w2,
    Close (BlockWriterBase (Some s)) = Ok w1
    /\ closed_ w1 = true
    /\ (forall d, Append d w1 = Fail AssertionFailed)
    /\ (forall x, PutByte x w1 = Fail AssertionFailed)
    /\ (forall x, operator_call x w1 = Fail AssertionFailed)
    /\ MarkItem w1 = Ok w2
    /\ nitems_ w2 = 1%N
    /\ sink_ w2 = Some (s ++ [SinkClose]).
Proof.
  intros Hpos. unfold BlockWriterBase, AllocateBlock.
  cbn [sink_ closed_]. rewrite Close_eq. cbn [Nat.eqb N.eqb andb].
  eexists. eexists. split; [reflexivity|].
  rewrite MarkItem_eq.
  destruct (Nat.eqb_spec 0 BlockSize); [lia|].
  repeat split; reflexivity.
Qed.

(** ** The open writer and its one block *)

Lemma appends_open d w w' :
  appends d w w' ->
  open_writer w ->
  open_writer w' /\ IsValid w' = true.
Proof.
  induction 1 as [d b c n fo s cl Hfit|d b c n fo s cl w' Hsp Hc Happ IH];
    intros Hw; inversion Hw as [b0 c0 n0 fo0 s0 Hb Hc0]; subst.
  - split; [|reflexivity].
    constructor; [rewrite copy_at_length; lia|lia].
  - apply IH. constructor; [apply make_block_length|lia].
Qed.

Lemma appends_sink d w w' :
  appends d w w' ->
  forall s, sink_ w = Some s -> exists rest, sink_ w' = Some (s ++ rest).
Proof.
  induction 1 as [d b c n fo s cl Hfit|d b c n fo s cl w' Hsp Hc Happ IH];
    intros s0 [= <-].
  - exists []. cbn. now rewrite app_nil_r.
  - destruct (IH _ eq_refl) as [rest Hrest].
    eexists. rewrite Hrest, <- app_assoc. reflexivity.
Qed.

Lemma run_call_open c w :
  0 < BlockSize ->
  open_writer w ->
  IsValid w = true ->
  exists w', run_call c w = Ok w' /\ open_writer w' /\ IsValid w' = true.
Proof.
  intros Hpos Hw Hv. pose proof Hw as Hw0.
  destruct Hw as [b c0 n fo [s|] Hb Hc]; [|discriminate Hv].
  destruct c as [|d|x]; cbn [run_call].
  - rewrite MarkItem_eq. eexists. split; [reflexivity|].
    destruct (c0 =? BlockSize); (split; [|reflexivity]).
    + constructor; [apply make_block_length|lia].
    + now constructor.
  - destruct (@Append_appends d b c0 n fo s Hpos Hb Hc)
      as [w' [Hrun Happ]].
    exists w'. split; [exact Hrun|]. now apply (appends_open Happ).
  - rewrite PutByte_as_Append by assumption.
    destruct (@Append_appends [x] b c0 n fo s Hpos Hb Hc)
      as [w' [Hrun Happ]].
    exists w'. split; [exact Hrun|]. now apply (appends_open Happ).
Qed.

Lemma run_calls_open cs w :
  0 < BlockSize ->
  open_writer w ->
  IsValid w = true ->
  exists w', run_calls cs w = Ok w' /\ open_writer w' /\ IsValid w' = true.
Proof.
  intros Hpos. revert w.
  induction cs as [|c cs IH]; intros w Hw Hv; [cbn; eauto|].
  destruct (@run_call_open c w Hpos Hw Hv) as [w1 [Hrun1 [Hw1 Hv1]]].
  destruct (IH w1 Hw1 Hv1) as [w2 [Hrun2 H2]].
  exists w2. split; [|exact H2].
  cbn [run_calls]. rewrite Hrun1. exact Hrun2.
Qed.

Lemma run_op_open o w :
  0 < BlockSize ->
  open_writer w ->
  IsValid w = true ->
  is_close o = false ->
  exists w', run_op o w = Ok w' /\ open_writer w' /\ IsValid w' = true.
Proof.
  intros Hpos Hw Hv Ho.
  destruct o as [x|c| |vblocks|]; cbn [run_op]; [| | | |discriminate Ho].
  - rewrite operator_call_calls by (destruct Hw; reflexivity).
    now apply run_calls_open.
  - now apply run_call_open.
  - destruct Hw as [b c0 n fo [s|] Hb Hc]; [|discriminate Hv].
    rewrite Flush_eq. eexists. split; [reflexivity|].
    split; [|reflexivity]. constructor; [apply make_block_length|lia].
  - destruct Hw as [b c0 n fo [s|] Hb Hc]; [|discriminate Hv].
    unfold AppendBlocks, MaybeFlushBlock.
    cbn [block_ current_ nitems_].
    destruct (negb (c0 =? 0) || negb (n =? 0)%N);
      destruct vblocks; cbn; eexists;
      (split; [reflexivity|]);
      (split; [|reflexivity]);
      (constructor; [apply make_block_length|lia]).
Qed.

Lemma run_open ops w :
  0 < BlockSize ->
  open_writer w ->
  IsValid w = true ->
  existsb is_close ops = false ->
  exists w', run ops w = Ok w' /\ open_writer w' /\ IsValid w' = true.
Proof.
  intros Hpos. revert w.
  induction ops as [|o ops IH]; intros w Hw Hv Hops; [cbn; eauto|].
  cbn [existsb] in Hops. apply orb_false_elim in Hops.
  destruct Hops as [Ho Hops].
  destruct (@run_op_open o w Hpos Hw Hv Ho) as [w1 [Hrun1 [Hw1 Hv1]]].
  destruct (IH w1 Hw1 Hv1 Hops) as [w2 [Hrun2 H2]].
  exists w2. split; [|exact H2].
  cbn [run]. rewrite Hrun1. exact Hrun2.
Qed.

(** C10 (amended): after every sequence of operations other than
    [Close], on a writer with a sink and a block size of at least one,
    the writer is open and holds one block of [BlockSize] bytes with the
    cursor within it.  A block whose cursor is at the limit is kept as
    it is by an [Append] of no byte, and is sealed with all its bytes,
    before anything else is done, by the next [MarkItem], [PutByte] or
    [Append] of at least one byte, which go on in a fresh block. *)
Theorem C10_full_block_is_sealed_by_the_next_write
        (ops : list Op) (s0 : BlockSink) :
  0 < BlockSize ->
  existsb is_close ops = false ->
  exists w b c s,
    run ops (BlockWriterBase (Some s0)) = Ok w
    /\ open_writer w
    /\ block_ w = Some b /\ length b = BlockSize
    /\ current_ w = Some c /\ c <= BlockSize
    /\ sink_ w = Some s
    /\ (c = BlockSize ->
        let sealed :=
          s ++ [SinkAppendBlock b 0 BlockSize (first_offset_ w)
                                (nitems_ w)] in
        Append [] w = Ok w
        /\ (exists w1, MarkItem w = Ok w1
                       /\ sink_ w1 = Some sealed
                       /\ current_ w1 = Some 0)
        /\ (forall x, exists w1, PutByte x w = Ok w1
                                 /\ sink_ w1 = Some sealed
                                 /\ current_ w1 = Some 1)
        /\ (forall x d, exists w1 rest,
               Append (x :: d) w = Ok w1
               /\ sink_ w1 = Some (sealed ++ rest)
               /\ current_ w1 <> Some 0)).
Proof.
  intros Hpos Hops.
  assert (Hinit : open_writer (BlockWriterBase (Some s0)))
    by (constructor; [apply make_block_length|lia]).
  destruct (@run_open ops _ Hpos Hinit eq_refl Hops)
    as [w [Hrun [Hw Hv]]].
  pose proof Hw as Hw0.
  destruct Hw as [b c n fo [s|] Hb Hc]; [|discriminate Hv].
  eexists. exists b, c, s. split; [exact Hrun|].
  repeat (split; [first [assumption|reflexivity]|]).
  intros ->. cbn [first_offset_ nitems_]. cbv zeta.
  split; [|split; [|split]].
  - unfold Append. cbn [closed_].
    rewrite Append_loop_fits by (cbn [length]; lia).
    cbn [length]. now rewrite copy_at_nil, Nat.add_0_r.
  - rewrite MarkItem_eq, Nat.eqb_refl.
    eexists. repeat split; reflexivity.
  - intros x. rewrite PutByte_as_Append by assumption.
    unfold Append. cbn [closed_].
    rewrite Append_loop_spills by (cbn [length]; lia).
    rewrite Nat.sub_diag. cbn [firstn skipn]. rewrite copy_at_nil.
    rewrite Append_loop_fits
      by (cbn [length]; auto using make_block_length; lia).
    eexists. repeat split; reflexivity.
  - intros x d. unfold Append. cbn [closed_].
    rewrite Append_loop_spills by (cbn [length]; lia).
    rewrite Nat.sub_diag. cbn [firstn skipn]. rewrite copy_at_nil.
    destruct (@Append_loop_fuel (length (x :: d)) (x :: d) make_block 0
                0%N 0
                (s ++ [SinkAppendBlock b 0 BlockSize fo n]) false Hpos
                make_block_length (Nat.le_0_l _))
      as [w1 [Hrun1 Happ]].
    { destruct (Nat.eqb_spec 0 BlockSize); lia. }
    destruct (appends_sink Happ eq_refl) as [rest Hrest].
    exists w1, rest. split; [exact Hrun1|]. split; [exact Hrest|].
    apply (appends_nonempty Happ). discriminate.
Qed.

(** ** The first item offset of a block without item start *)

Lemma bind_Ok (A B : Type) (r : result A) (k : A -> result B) (b : B) :
  bind r k = Ok b -> exists a, r = Ok a /\ k a = Ok b.
Proof. destruct r as [a|f]; cbn; [eauto|discriminate]. Qed.

Lemma zero_inv_block_eq m b cur e n k fo s cl :
  n = N.of_nat k ->
  k <= m ->
  (k = 0 -> fo = 0) ->
  sink_zero_ok s ->
  zero_inv m (mkWriter (Some b) cur e n fo s cl).
Proof. intros ->. now constructor. Qed.

Lemma Flush_zero m w w' :
  zero_inv m w -> Flush w = Ok w' -> zero_inv m w'.
Proof.
  intros [b [c|] e k fo [l|] cl Hk Hfo Hs|e fo s cl Hs] Hrun;
    try discriminate Hrun.
  rewrite Flush_eq in Hrun. injection Hrun as <-.
  apply zero_inv_block_eq with (k := 0); [reflexivity|lia|reflexivity|].
  cbn in *. apply Forall_app. split; [exact Hs|].
  constructor; [|constructor]. cbn. intros Hz. apply Hfo. lia.
Qed.

Lemma MaybeFlushBlock_zero m w w' :
  zero_inv m w -> MaybeFlushBlock w = Ok w' -> zero_inv m w'.
Proof.
  intros H Hrun. pose proof H as H0.
  destruct H as [b cur e k fo s cl Hk Hfo Hs|e fo s cl Hs];
    [|discriminate Hrun].
  unfold MaybeFlushBlock in Hrun. cbn [block_ current_ nitems_] in Hrun.
  destruct (negb match cur with Some c => c =? 0 | None => false end
            || negb (N.of_nat k =? 0)%N).
  - destruct cur as [c|], s as [l|]; try discriminate Hrun.
    cbn in Hrun. injection Hrun as <-. constructor.
    cbn in *. apply Forall_app. split; [exact Hs|].
    constructor; [|constructor]. cbn. intros Hz. apply Hfo. lia.
  - injection Hrun as <-. exact H0.
Qed.

Lemma AllocateBlock_zero m w :
  zero_inv m w -> zero_inv m (AllocateBlock w).
Proof.
  intros [b cur e k fo s cl Hk Hfo Hs|e fo s cl Hs];
    apply zero_inv_block_eq with (k := 0); cbn; auto; lia.
Qed.

Lemma sink_zero_ok_sink m w :
  zero_inv m w -> sink_zero_ok (sink_ w).
Proof. now intros [b cur e k fo s cl Hk Hfo Hs|e fo s cl Hs]. Qed.

Lemma set_sink_zero m w s :
  zero_inv m w -> sink_zero_ok s -> zero_inv m (set_sink s w).
Proof.
  intros [b cur e k fo s0 cl Hk Hfo Hs|e fo s0 cl Hs] Hs';
    now constructor.
Qed.

Lemma Close_zero m w w' :
  zero_inv m w -> Close w = Ok w' -> zero_inv m w'.
Proof.
  intros H Hrun. unfold Close in Hrun.
  destruct (closed_ w); cbn [negb] in Hrun; [congruence|].
  apply bind_Ok in Hrun. destruct Hrun as [w1 [Hrun1 Hrun2]].
  assert (H1 : zero_inv m w1).
  { apply (MaybeFlushBlock_zero (w := set_closed true w)); [|exact Hrun1].
    destruct H; now constructor. }
  pose proof (sink_zero_ok_sink H1) as Hs1.
  destruct (sink_ w1) as [l|]; injection Hrun2 as <-; [|exact H1].
  apply set_sink_zero; [exact H1|]. cbn in *.
  apply Forall_app. split; [exact Hs1|]. now repeat constructor.
Qed.

Lemma AppendBlocks_zero m vblocks w w' :
  zero_inv m w -> AppendBlocks vblocks w = Ok w' -> zero_inv m w'.
Proof.
  intros H Hrun. unfold AppendBlocks in Hrun.
  apply bind_Ok in Hrun. destruct Hrun as [w1 [Hrun1 Hrun]].
  apply bind_Ok in Hrun. destruct Hrun as [w2 [Hrun2 Hrun]].
  injection Hrun as <-. apply AllocateBlock_zero.
  pose proof (MaybeFlushBlock_zero H Hrun1) as H1.
  destruct vblocks as [|vb vblocks]; [now injection Hrun2 as <-|].
  pose proof (sink_zero_ok_sink H1) as Hs1.
  destruct (sink_ w1) as [l|]; [|discriminate Hrun2].
  injection Hrun2 as <-. apply set_sink_zero; [exact H1|].
  cbn [sink_zero_ok] in *. apply Forall_app. split; [exact Hs1|].
  apply Forall_forall. intros c Hc.
  change (In c (map SinkAppendVBlock (vb :: vblocks))) in Hc.
  apply in_map_iff in Hc. destruct Hc as [vb' [<- _]]. exact I.
Qed.

Lemma MarkItem_zero m w w' :
  (N.of_nat m + 1 < size_t_modulus)%N ->
  zero_inv m w -> MarkItem w = Ok w' -> zero_inv (S m) w'.
Proof.
  intros Hwrap H Hrun. unfold MarkItem in Hrun.
  apply bind_Ok in Hrun. destruct Hrun as [w1 [Hrun1 Hrun]].
  apply bind_Ok in Hrun. destruct Hrun as [w2 [Hrun2 Hrun]].
  injection Hrun as <-.
  assert (H1 : zero_inv m w1).
  { destruct (match current_ w with
              | Some c => c =? end_ w
              | None => false
              end).
    - exact (Flush_zero H Hrun1).
    - now injection Hrun1 as <-. }
  clear H Hrun1.
  destruct H1 as [b cur e k fo s cl Hk Hfo Hs|e fo s cl Hs];
    cbn [nitems_ block_ current_] in Hrun2.
  - assert (Hnext : ((N.of_nat k + 1) mod size_t_modulus)%N
                    = N.of_nat (S k))
      by (rewrite N.mod_small; lia).
    destruct (N.eqb_spec (N.of_nat k) 0) as [Hz|Hnz].
    + destruct cur as [c|]; [|discriminate Hrun2].
      injection Hrun2 as <-. cbn.
      apply zero_inv_block_eq with (k := S k);
        [exact Hnext|lia|lia|exact Hs].
    + injection Hrun2 as <-. cbn.
      apply zero_inv_block_eq with (k := S k);
        [exact Hnext|lia|lia|exact Hs].
  - discriminate Hrun2.
Qed.

Lemma copy_to_current_zero m src w w' :
  zero_inv m w -> copy_to_current src w = Ok w' -> zero_inv m w'.
Proof.
  intros [b [c|] e k fo s cl Hk Hfo Hs|e fo s cl Hs] Hrun;
    try discriminate Hrun.
  unfold copy_to_current in Hrun. cbn [block_ current_] in Hrun.
  destruct (c + length src <=? length b); [|discriminate Hrun].
  injection Hrun as <-. now constructor.
Qed.

Lemma advance_zero m n w w' :
  zero_inv m w -> advance n w = Ok w' -> zero_inv m w'.
Proof.
  intros [b [c|] e k fo s cl Hk Hfo Hs|e fo s cl Hs] Hrun;
    try discriminate Hrun.
  injection Hrun as <-. now constructor.
Qed.

Lemma store_byte_zero m x w w' :
  zero_inv m w -> store_byte x w = Ok w' -> zero_inv m w'.
Proof.
  intros H Hrun. unfold store_byte in Hrun.
  apply bind_Ok in Hrun. destruct Hrun as [w1 [Hrun1 Hrun2]].
  eauto using copy_to_current_zero, advance_zero.
Qed.

Lemma Append_loop_zero m fuel d w w' :
  zero_inv m w -> Append_loop fuel d w = Ok w' -> zero_inv m w'.
Proof.
  revert d w. induction fuel as [|fuel IH]; intros d w H Hrun;
    cbn [Append_loop] in Hrun;
    destruct (current_ w) as [c|]; try discriminate Hrun;
    destruct (end_ w <? c + length d); try discriminate Hrun.
  - apply bind_Ok in Hrun. destruct Hrun as [w1 [Hrun1 Hrun2]].
    eauto using copy_to_current_zero, advance_zero.
  - destruct (end_ w <? c); [discriminate Hrun|].
    apply bind_Ok in Hrun. destruct Hrun as [w1 [Hrun1 Hrun]].
    apply bind_Ok in Hrun. destruct Hrun as [w2 [Hrun2 Hrun]].
    apply bind_Ok in Hrun. destruct Hrun as [w3 [Hrun3 Hrun]].
    eauto using copy_to_current_zero, advance_zero, Flush_zero.
  - apply bind_Ok in Hrun. destruct Hrun as [w1 [Hrun1 Hrun2]].
    eauto using copy_to_current_zero, advance_zero.
Qed.

Lemma run_call_zero m c w w' :
  (N.of_nat (m + count_marks [c]) < size_t_modulus)%N ->
  zero_inv m w ->
  run_call c w = Ok w' ->
  zero_inv (m + count_marks [c]) w'.
Proof.
  intros Hwrap H Hrun. destruct c as [|d|x]; cbn in *.
  - rewrite Nat.add_1_r. apply (MarkItem_zero (w := w)); [lia|auto|auto].
  - rewrite Nat.add_0_r. unfold Append in Hrun.
    destruct (closed_ w); [discriminate Hrun|].
    eauto using Append_loop_zero.
  - rewrite Nat.add_0_r. unfold PutByte in Hrun.
    destruct (closed_ w); [discriminate Hrun|].
    destruct (current_ w) as [c|]; [|discriminate Hrun].
    destruct (c <? end_ w).
    + eauto using store_byte_zero.
    + apply bind_Ok in Hrun. destruct Hrun as [w1 [Hrun1 Hrun]].
      eauto using store_byte_zero, Flush_zero.
Qed.

Lemma count_marks_cons (c : WriteCall) (cs : list WriteCall) :
  count_marks (c :: cs) = count_marks [c] + count_marks cs.
Proof.
  unfold count_marks. cbn [filter].
  destruct (negb (is_data_call c)); reflexivity.
Qed.

Lemma run_calls_zero m cs w w' :
  (N.of_nat (m + count_marks cs) < size_t_modulus)%N ->
  zero_inv m w ->
  run_calls cs w = Ok w' ->
  zero_inv (m + count_marks cs) w'.
Proof.
  revert m w. induction cs as [|c cs IH]; intros m w Hwrap H Hrun.
  - cbn in *. injection Hrun as <-. now rewrite Nat.add_0_r.
  - cbn [run_calls] in Hrun.
    apply bind_Ok in Hrun. destruct Hrun as [w1 [Hrun1 Hrun]].
    rewrite count_marks_cons in *. rewrite Nat.add_assoc in *.
    apply IH with (w := w1); [exact Hwrap| |exact Hrun].
    apply run_call_zero with (w := w); [lia|exact H|exact Hrun1].
Qed.

Lemma run_op_zero m o w w' :
  (N.of_nat (m + op_marks o) < size_t_modulus)%N ->
  zero_inv m w ->
  run_op o w = Ok w' ->
  zero_inv (m + op_marks o) w'.
Proof.
  intros Hwrap H Hrun.
  destruct o as [x|c| |vblocks|]; cbn [run_op op_marks] in *.
  - destruct (closed_ w) eqn:Hcl.
    + unfold operator_call in Hrun. rewrite Hcl in Hrun.
      discriminate Hrun.
    + rewrite operator_call_calls in Hrun by exact Hcl.
      eauto using run_calls_zero.
  - eauto using run_call_zero.
  - rewrite Nat.add_0_r. eauto using Flush_zero.
  - rewrite Nat.add_0_r. eauto using AppendBlocks_zero.
  - rewrite Nat.add_0_r. eauto using Close_zero.
Qed.

Lemma ops_marks_cons (o : Op) (ops : list Op) :
  ops_marks (o :: ops) = op_marks o + ops_marks ops.
Proof. reflexivity. Qed.

Lemma run_zero m ops w w' :
  (N.of_nat (m + ops_marks ops) < size_t_modulus)%N ->
  zero_inv m w ->
  run ops w = Ok w' ->
  zero_inv (m + ops_marks ops) w'.
Proof.
  revert m w. induction ops as [|o ops IH]; intros m w Hwrap H Hrun.
  - cbn in *. injection Hrun as <-. now rewrite Nat.add_0_r.
  - cbn [run] in Hrun.
    apply bind_Ok in Hrun. destruct Hrun as [w1 [Hrun1 Hrun]].
    rewrite ops_marks_cons, Nat.add_assoc in *.
    apply IH with (w := w1); [exact Hwrap| |exact Hrun].
    apply run_op_zero with (w := w); [lia|exact H|exact Hrun1].
Qed.

(** C5 (amended): in every run of the operations with fewer than 2^64
    [MarkItem] calls, each block sealed to the sink with an item count
    of zero carries a first item offset of zero, the value an item at
    the begin of a block has. *)
Theorem C5_first_offset_zero_without_items (ops : list Op) (w' : Writer)
        (s : BlockSink) :
  (N.of_nat (ops_marks ops) < size_t_modulus)%N ->
  run ops (BlockWriterBase (Some [])) = Ok w' ->
  sink_ w' = Some s ->
  Forall call_zero_ok s.
Proof.
  intros Hwrap Hrun Hs.
  assert (H0 : zero_inv 0 (BlockWriterBase (Some []))).
  { apply zero_inv_block_eq with (k := 0); cbn; auto. }
  pose proof (@run_zero 0 ops _ w' Hwrap H0 Hrun) as H.
  apply sink_zero_ok_sink in H. rewrite Hs in H. exact H.
Qed.

(** * Further properties of the operations *)

(** ** [Append] as an action of byte strings *)

Lemma copy_at_app (b : Block) (c : nat) (d1 d2 : list byte) :
  c + length d1 + length d2 <= length b ->
  copy_at (copy_at b c d1) (c + length d1) d2 = copy_at b c (d1 ++ d2).
Proof.
  intros H. unfold copy_at at 1.
  rewrite firstn_copy_at by lia.
  unfold copy_at.
  assert (Hc : length (firstn c b) = c) by (rewrite length_firstn; lia).
  rewrite (app_assoc (firstn c b) d1).
  rewrite skipn_app.
  rewrite (skipn_all2 (firstn c b ++ d1))
    by (rewrite length_app, Hc; lia).
  rewrite length_app, Hc.
  replace (c + length d1 + length d2 - (c + length d1)) with (length d2)
    by lia.
  rewrite skipn_skipn.
  replace (length d2 + (c + length d1)) with (c + length (d1 ++ d2))
    by (rewrite length_app; lia).
  cbn [app]. now rewrite <- !app_assoc.
Qed.

Lemma appends_fun d w w1 w2 :
  appends d w w1 -> appends d w w2 -> w1 = w2.
Proof.
  intros H1. revert w2.
  induction H1 as [d b c n fo s cl Hfit|d b c n fo s cl w' Hsp Hc Happ IH];
    intros w2 H2; inversion H2; subst; try lia; auto.
Qed.

Lemma appends_app d1 d2 w w1 w2 :
  appends d1 w w1 ->
  open_writer w ->
  appends d2 w1 w2 ->
  appends (d1 ++ d2) w w2.
Proof.
  intros H1. revert d2 w2.
  induction H1 as [d1 b c n fo s cl Hfit|d1 b c n fo s cl w' Hsp Hc Happ IH];
    intros d2 w2 Hw H2;
    inversion Hw as [b0 c0 n0 fo0 s0 Hb Hc0]; subst.
  - inversion H2 as [d b1 c1 n1 fo1 s1 cl1 Hfit2
                    |d b1 c1 n1 fo1 s1 cl1 w3 Hsp2 Hc2 Happ2]; subst.
    + rewrite copy_at_app by lia.
      replace (c + length d1 + length d2) with (c + length (d1 ++ d2))
        by (rewrite length_app; lia).
      constructor. rewrite length_app. lia.
    + apply appends_spills; [rewrite length_app; lia|lia|].
      assert (Hk : length (firstn (BlockSize - (c + length d1)) d2)
                   = BlockSize - (c + length d1))
        by (rewrite length_firstn; lia).
      rewrite copy_at_app in Happ2 by lia.
      rewrite firstn_app, skipn_app.
      rewrite (firstn_all2 d1), (skipn_all2 d1) by lia.
      replace (BlockSize - c - length d1)
        with (BlockSize - (c + length d1)) by lia.
      exact Happ2.
  - apply appends_spills; [rewrite length_app; lia|lia|].
    rewrite firstn_app, skipn_app.
    replace (BlockSize - c - length d1) with 0 by lia.
    cbn [firstn skipn]. rewrite app_nil_r.
    apply IH; [|exact H2].
    constructor; [apply make_block_length|lia].
Qed.

(** The bytes given to [Append] in one call or in two, cut anywhere, make
    no difference, and no byte at all is no change: on every open writer
    with a sink the result is the same writer and the same calls on the
    sink. *)
Theorem Append_app (d1 d2 : list byte) (w : Writer) :
  0 < BlockSize ->
  open_writer w ->
  IsValid w = true ->
  Append [] w = Ok w
  /\ Append (d1 ++ d2) w = (w1 <- Append d1 w ;; Append d2 w1).
Proof.
  intros Hpos Hw Hv. pose proof Hw as Hw0.
  destruct Hw as [b c n fo [s|] Hb Hc]; [|discriminate Hv].
  split.
  - unfold Append. cbn [closed_].
    rewrite Append_loop_fits by (cbn [length]; lia).
    cbn [length]. now rewrite copy_at_nil, Nat.add_0_r.
  - destruct (@Append_appends d1 b c n fo s Hpos Hb Hc) as [w1 [Hrun1 H1]].
    destruct (appends_open H1 Hw0) as [Hw1 Hv1].
    rewrite Hrun1. cbn [bind].
    pose proof Hw1 as Hw10.
    destruct Hw1 as [b1 c1 n1 fo1 [s1|] Hb1 Hc1]; [|discriminate Hv1].
    destruct (@Append_appends d2 b1 c1 n1 fo1 s1 Hpos Hb1 Hc1)
      as [w2 [Hrun2 H2]].
    destruct (@Append_appends (d1 ++ d2) b c n fo s Hpos Hb Hc)
      as [w3 [Hrun3 H3]].
    rewrite Hrun2, Hrun3. f_equal.
    exact (appends_fun H3 (appends_app H1 Hw0 H2)).
Qed.

Lemma appends_blocks d w w' :
  appends d w w' ->
  0 < BlockSize ->
  open_writer w ->
  forall c s,
    current_ w = Some c ->
    sink_ w = Some s ->
    exists blocks,
      sink_ w' = Some (s ++ blocks)
      /\ Forall full_block blocks
      /\ length blocks = (c + length d - 1) / BlockSize
      /\ current_ w' = Some (c + length d - BlockSize * length blocks).
Proof.
  intros H Hpos.
  induction H as [d b c n fo s cl Hfit|d b c n fo s cl w' Hsp Hc Happ IH];
    intros Hw c0 s0 [= <-] [= <-];
    inversion Hw as [b0 c1 n0 fo0 s1 Hb Hc1]; subst.
  - exists []. cbn [sink_ current_ length].
    rewrite app_nil_r, Nat.mul_0_r, Nat.sub_0_r.
    repeat split; auto.
    symmetry. apply Nat.div_small. lia.
  - assert (Hw' : open_writer
                    (mkWriter (Some make_block) (Some 0) BlockSize 0%N 0
                       (Some (s ++ [SinkAppendBlock
                                      (copy_at b c
                                         (firstn (BlockSize - c) d))
                                      0 BlockSize fo n]))
                       false))
      by (constructor; [apply make_block_length|lia]).
    destruct (IH Hw' 0 _ eq_refl eq_refl)
      as [blocks [Hs [Hfull [Hlen Hcur]]]].
    rewrite length_skipn in Hlen, Hcur.
    assert (Hl : length (firstn (BlockSize - c) d) = BlockSize - c)
      by (rewrite length_firstn; lia).
    eexists (_ :: blocks). rewrite Hs, <- app_assoc. cbn [app].
    split; [reflexivity|]. split.
    + constructor; [|exact Hfull]. cbn.
      rewrite copy_at_length by lia. auto.
    + cbn [length].
      assert (Hdiv : (c + length d - 1) / BlockSize
                     = S ((0 + (length d - (BlockSize - c)) - 1) / BlockSize)).
      { replace (c + length d - 1)
          with ((0 + (length d - (BlockSize - c)) - 1) + 1 * BlockSize)
          by lia.
        rewrite Nat.div_add by lia. lia. }
      split; [lia|].
      rewrite Hcur. f_equal. rewrite Nat.mul_succ_r. lia.
Qed.

(** [Append] in closed form: [size] bytes appended at cursor [c] seal
    [(c + size - 1) / BlockSize] blocks, all of them full, and leave the
    cursor that many blocks back from [c + size]. *)
Theorem Append_seals_full_blocks (d : list byte) (w : Writer) (c : nat)
        (s : BlockSink) :
  0 < BlockSize ->
  open_writer w ->
  current_ w = Some c ->
  sink_ w = Some s ->
  exists w' blocks,
    Append d w = Ok w'
    /\ sink_ w' = Some (s ++ blocks)
    /\ Forall full_block blocks
    /\ length blocks = (c + length d - 1) / BlockSize
    /\ current_ w' = Some (c + length d - BlockSize * length blocks).
Proof.
  intros Hpos Hw Hc Hs. pose proof Hw as Hw0.
  destruct Hw as [b c0 n fo s0 Hb Hc0]. cbn in Hc, Hs.
  injection Hc as ->. subst s0.
  destruct (@Append_appends d b c n fo s Hpos Hb Hc0) as [w' [Hrun H]].
  destruct (appends_blocks H Hpos Hw0 eq_refl eq_refl) as [blocks Hblocks].
  exists w', blocks. split; [exact Hrun|exact Hblocks].
Qed.

(** ** [AppendBlocks] *)

Lemma AppendBlocks_order_eq (vblocks : list VirtualBlock) (w : Writer)
        (b : Block) (c : nat) (s : BlockSink) :
  open_writer w ->
  block_ w = Some b ->
  current_ w = Some c ->
  sink_ w = Some s ->
  AppendBlocks vblocks w
  = Ok (mkWriter (Some make_block) (Some 0) BlockSize 0%N 0
          (Some ((s ++ (if (c =? 0) && (nitems_ w =? 0)%N then []
                        else [SinkAppendBlock b 0 c (first_offset_ w)
                                              (nitems_ w)]))
                   ++ map SinkAppendVBlock vblocks))
          false).
Proof.
  intros Hw Hb Hc Hs. destruct Hw as [b0 c0 n fo s0 Hlen Hle].
  cbn in Hb, Hc, Hs. injection Hb as ->. injection Hc as ->. subst s0.
  unfold AppendBlocks, MaybeFlushBlock.
  cbn [block_ current_ nitems_ first_offset_].
  destruct (c =? 0), (n =? 0)%N, vblocks; cbn;
    rewrite ?app_nil_r; reflexivity.
Qed.

(** ** Bytes and bounds over all operations *)

Lemma layout_inv_init : layout_inv [] (BlockWriterBase (Some [])).
Proof.
  unfold BlockWriterBase, AllocateBlock. cbn [sink_ closed_].
  constructor; auto using make_block_length; lia.
Qed.

Lemma layout_inv_copy bytes b c n fo s d :
  c + length d <= BlockSize ->
  layout_inv bytes
    (mkWriter (Some b) (Some c) BlockSize n fo (Some s) false) ->
  layout_inv (bytes ++ d)
    (mkWriter (Some (copy_at b c d)) (Some (c + length d))
              BlockSize n fo (Some s) false).
Proof.
  intros Hfit H. inversion H as [b0 c0 n0 fo0 s0 Hb Hc Hfo Hs Hbytes].
  constructor; [rewrite copy_at_length; lia|lia|lia|assumption|].
  rewrite firstn_copy_at by lia. now rewrite app_assoc, Hbytes.
Qed.

Lemma layout_inv_seal bytes b c n fo s :
  layout_inv bytes
    (mkWriter (Some b) (Some c) BlockSize n fo (Some s) false) ->
  layout_inv bytes
    (mkWriter (Some make_block) (Some 0) BlockSize 0%N 0
              (Some (s ++ [SinkAppendBlock b 0 c fo n])) false).
Proof.
  intros H. inversion H as [b0 c0 n0 fo0 s0 Hb Hc Hfo Hs Hbytes].
  constructor; [apply make_block_length|lia|lia| |].
  - apply Forall_app. split; [exact Hs|].
    constructor; [|constructor]. cbn. auto.
  - rewrite sink_bytes_app. cbn.
    now rewrite Nat.sub_0_r, !app_nil_r.
Qed.

Lemma appends_layout d w w' :
  appends d w w' ->
  forall bytes, layout_inv bytes w -> layout_inv (bytes ++ d) w'.
Proof.
  induction 1 as [d b c n fo s cl Hfit|d b c n fo s cl w' Hsp Hc Happ IH];
    intros bytes H;
    assert (cl = false) by (inversion H; reflexivity); subst cl.
  - now apply layout_inv_copy.
  - rewrite <- (firstn_skipn (BlockSize - c) d) at 1.
    rewrite app_assoc. apply IH. apply layout_inv_seal.
    assert (Hl : length (firstn (BlockSize - c) d) = BlockSize - c)
      by (rewrite length_firstn; lia).
    assert (Hfit : c + length (firstn (BlockSize - c) d) <= BlockSize)
      by lia.
    pose proof (layout_inv_copy (firstn (BlockSize - c) d) Hfit H) as H1.
    rewrite Hl in H1.
    replace (c + (BlockSize - c)) with BlockSize in H1 by lia.
    exact H1.
Qed.

Lemma run_call_layout c bytes w :
  0 < BlockSize ->
  layout_inv bytes w ->
  exists w',
    run_call c w = Ok w' /\ layout_inv (bytes ++ call_data c) w'.
Proof.
  intros Hpos H.
  assert (Hopen : open_writer w) by (destruct H; now constructor).
  destruct c as [|d|x]; cbn [run_call call_data].
  - rewrite app_nil_r. pose proof H as H0.
    destruct H as [b c n fo s Hb Hc Hfo Hs Hbytes].
    rewrite MarkItem_eq. eexists. split; [reflexivity|].
    destruct (Nat.eqb_spec c BlockSize) as [->|Hne].
    + apply layout_inv_seal in H0.
      inversion H0 as [b0 c0 n0 fo0 s0 Hb' Hc' Hfo' Hs' Hbytes'].
      now constructor.
    + constructor; auto. destruct (n =? 0)%N; lia.
  - destruct H as [b c n fo s Hb Hc Hfo Hs Hbytes].
    destruct (@Append_appends d b c n fo s Hpos Hb Hc) as [w' [Hrun Happ]].
    exists w'. split; [exact Hrun|].
    apply (appends_layout Happ). now constructor.
  - rewrite PutByte_as_Append by assumption.
    destruct H as [b c n fo s Hb Hc Hfo Hs Hbytes].
    destruct (@Append_appends [x] b c n fo s Hpos Hb Hc)
      as [w' [Hrun Happ]].
    exists w'. split; [exact Hrun|].
    apply (appends_layout Happ). now constructor.
Qed.

Lemma run_calls_layout cs bytes w :
  0 < BlockSize ->
  layout_inv bytes w ->
  exists w',
    run_calls cs w = Ok w' /\ layout_inv (bytes ++ calls_data cs) w'.
Proof.
  intros Hpos. revert bytes w.
  induction cs as [|c cs IH]; intros bytes w H.
  - cbn. rewrite app_nil_r. eauto.
  - destruct (@run_call_layout c bytes w Hpos H) as [w1 [Hrun1 H1]].
    destruct (IH _ _ H1) as [w2 [Hrun2 H2]].
    exists w2. split.
    + cbn [run_calls]. rewrite Hrun1. exact Hrun2.
    + unfold calls_data in *. cbn [flat_map].
      now rewrite app_assoc.
Qed.

Lemma run_op_layout o bytes w :
  0 < BlockSize ->
  layout_inv bytes w ->
  is_close o = false ->
  exists w',
    run_op o w = Ok w' /\ layout_inv (bytes ++ op_bytes o) w'.
Proof.
  intros Hpos H Ho.
  destruct o as [x|c| |vblocks|]; cbn [run_op op_bytes];
    [| | | |discriminate Ho].
  - rewrite operator_call_calls by (destruct H; reflexivity).
    now apply run_calls_layout.
  - now apply run_call_layout.
  - rewrite app_nil_r. pose proof H as H0.
    destruct H as [b c n fo s Hb Hc Hfo Hs Hbytes].
    rewrite Flush_eq. eexists. split; [reflexivity|].
    now apply layout_inv_seal.
  - pose proof H as H0.
    destruct H as [b c n fo s Hb Hc Hfo Hs Hbytes].
    assert (Hw : open_writer
                   (mkWriter (Some b) (Some c) BlockSize n fo (Some s)
                             false))
      by now constructor.
    rewrite (AppendBlocks_order_eq vblocks Hw eq_refl eq_refl eq_refl).
    cbn [nitems_ first_offset_].
    eexists. split; [reflexivity|].
    constructor; [apply make_block_length|lia|lia| |].
    + apply Forall_app. split.
      * destruct ((c =? 0) && (n =? 0)%N).
        -- now rewrite app_nil_r.
        -- apply Forall_app. split; [exact Hs|].
           constructor; [|constructor]. cbn. auto.
      * apply Forall_forall. intros sc Hsc. apply in_map_iff in Hsc.
        destruct Hsc as [vb [<- _]]. exact I.
    + cbn [firstn]. rewrite app_nil_r, sink_bytes_app. f_equal.
      destruct ((c =? 0) && (n =? 0)%N) eqn:Hempty.
      * apply andb_prop in Hempty. destruct Hempty as [Hc0 _].
        apply Nat.eqb_eq in Hc0. subst c.
        cbn [firstn] in Hbytes. now rewrite app_nil_r in *.
      * rewrite sink_bytes_app. cbn.
        now rewrite Nat.sub_0_r, !app_nil_r.
Qed.

Lemma run_layout ops bytes w :
  0 < BlockSize ->
  layout_inv bytes w ->
  existsb is_close ops = false ->
  exists w',
    run ops w = Ok w' /\ layout_inv (bytes ++ ops_bytes ops) w'.
Proof.
  intros Hpos. revert bytes w.
  induction ops as [|o ops IH]; intros bytes w H Hops.
  - cbn. rewrite app_nil_r. eauto.
  - cbn [existsb] in Hops. apply orb_false_elim in Hops.
    destruct Hops as [Ho Hops].
    destruct (@run_op_layout o bytes w Hpos H Ho) as [w1 [Hrun1 H1]].
    destruct (IH _ _ H1 Hops) as [w2 [Hrun2 H2]].
    exists w2. split.
    + cbn [run]. rewrite Hrun1. exact Hrun2.
    + unfold ops_bytes in *. cbn [flat_map]. now rewrite app_assoc.
Qed.

Lemma Close_layout bytes w :
  layout_inv bytes w ->
  exists w' blocks,
    Close w = Ok w'
    /\ closed_ w' = true
    /\ sink_ w' = Some (blocks ++ [SinkClose])
    /\ sink_bytes blocks = bytes
    /\ Forall block_in_bounds blocks.
Proof.
  intros H. destruct H as [b c n fo s Hb Hc Hfo Hs Hbytes].
  rewrite Close_eq.
  destruct ((c =? 0) && (n =? 0)%N) eqn:Hempty;
    eexists; eexists; (split; [reflexivity|]);
    cbn [sink_ closed_]; (split; [reflexivity|]);
    (split; [reflexivity|]).
  - apply andb_prop in Hempty. destruct Hempty as [Hc0 _].
    apply Nat.eqb_eq in Hc0. subst c.
    cbn [firstn] in Hbytes. rewrite app_nil_r in Hbytes. auto.
  - split.
    + rewrite sink_bytes_app. cbn. now rewrite Nat.sub_0_r, app_nil_r.
    + apply Forall_app. split; [exact Hs|].
      constructor; [|constructor]. cbn. auto.
Qed.

(** [AppendBlocks] on an open writer with a sink: the pending block goes
    to the sink first, if it has a byte or an item start and only then;
    the given blocks follow in their order; the writer goes on in a fresh
    empty block. *)
Theorem AppendBlocks_order (vblocks : list VirtualBlock) (w : Writer)
        (b : Block) (c : nat) (s : BlockSink) :
  open_writer w ->
  block_ w = Some b ->
  current_ w = Some c ->
  sink_ w = Some s ->
  AppendBlocks vblocks w
  = Ok (mkWriter (Some make_block) (Some 0) BlockSize 0%N 0
          (Some ((s ++ (if (c =? 0) && (nitems_ w =? 0)%N then []
                        else [SinkAppendBlock b 0 c (first_offset_ w)
                                              (nitems_ w)]))
                   ++ map SinkAppendVBlock vblocks))
          false).
Proof. exact (@AppendBlocks_order_eq vblocks w b c s). Qed.

(** Whatever the operations before the [Close] (items, single calls,
    [Flush], [AppendBlocks]), the valid bytes of the blocks at the sink, in
    the order of the calls, are the bytes written and the valid bytes of
    the forwarded blocks, in the order of the operations. *)
Theorem sink_bytes_of_all_operations (ops : list Op) :
  0 < BlockSize ->
  existsb is_close ops = false ->
  exists w' blocks,
    run (ops ++ [OpClose]) (BlockWriterBase (Some [])) = Ok w'
    /\ sink_ w' = Some (blocks ++ [SinkClose])
    /\ sink_bytes blocks = ops_bytes ops.
Proof.
  intros Hpos Hops. rewrite run_app.
  destruct (@run_layout ops [] _ Hpos layout_inv_init Hops)
    as [w1 [Hrun1 H1]].
  rewrite Hrun1. cbn [bind run run_op app] in *.
  destruct (Close_layout H1) as [w' [blocks [Hrun [_ [Hs [Hbytes _]]]]]].
  rewrite Hrun. cbn [bind]. eauto.
Qed.

(** Every block the writer hands to the sink, whatever the operations,
    has its range start at the begin of a buffer of [BlockSize] bytes, its
    range end within the buffer, and its first item offset within the
    range. *)
Theorem sealed_blocks_within_bounds (ops : list Op) :
  0 < BlockSize ->
  existsb is_close ops = false ->
  exists w' blocks,
    run (ops ++ [OpClose]) (BlockWriterBase (Some [])) = Ok w'
    /\ sink_ w' = Some (blocks ++ [SinkClose])
    /\ Forall block_in_bounds blocks.
Proof.
  intros Hpos Hops. rewrite run_app.
  destruct (@run_layout ops [] _ Hpos layout_inv_init Hops)
    as [w1 [Hrun1 H1]].
  rewrite Hrun1. cbn [bind run run_op app] in *.
  destruct (Close_layout H1) as [w' [blocks [Hrun [_ [Hs [_ Hin]]]]]].
  rewrite Hrun. cbn [bind]. eauto.
Qed.

(** The destructor of a writer that was never closed does what [Close]
    does: the bytes still in the block reach the sink, the sink is closed,
    and the writer is left closed. *)
Theorem Destroy_delivers_pending_bytes (ops : list Op) :
  0 < BlockSize ->
  existsb is_close ops = false ->
  exists w1 w' blocks,
    run ops (BlockWriterBase (Some [])) = Ok w1
    /\ Destroy w1 = Ok w'
    /\ closed_ w' = true
    /\ sink_ w' = Some (blocks ++ [SinkClose])
    /\ sink_bytes blocks = ops_bytes ops.
Proof.
  intros Hpos Hops.
  destruct (@run_layout ops [] _ Hpos layout_inv_init Hops)
    as [w1 [Hrun1 H1]].
  cbn [app] in H1.
  destruct (Close_layout H1) as [w' [blocks [Hrun [Hcl [Hs [Hbytes _]]]]]].
  exists w1, w', blocks. split; [exact Hrun1|].
  split; [|auto].
  destruct H1. exact Hrun.
Qed.

(** ** Every item start is counted once *)

Lemma items_total_app (s t : BlockSink) :
  items_total (s ++ t) = items_total s + items_total t.
Proof.
  unfold items_total. now rewrite map_app, list_sum_app.
Qed.

Lemma items_total_vblocks (vblocks : list VirtualBlock) :
  items_total (map SinkAppendVBlock vblocks) = 0.
Proof.
  unfold items_total. induction vblocks as [|vb vblocks IH]; cbn; auto.
Qed.

Lemma count_inv_eq m b c n k fo s :
  n = N.of_nat k ->
  length b = BlockSize ->
  c <= BlockSize ->
  items_total s + k = m ->
  count_inv m (mkWriter (Some b) (Some c) BlockSize n fo (Some s) false).
Proof. intros ->. now constructor. Qed.

Lemma count_inv_seal m b c k fo s :
  count_inv m
    (mkWriter (Some b) (Some c) BlockSize (N.of_nat k) fo (Some s) false) ->
  count_inv m
    (mkWriter (Some make_block) (Some 0) BlockSize 0%N 0
              (Some (s ++ [SinkAppendBlock b 0 c fo (N.of_nat k)])) false).
Proof.
  intros H. inversion H as [b0 c0 k0 fo0 s0 Hb Hc Hsum [Hb0 Hc0 Hk Hfo0 Hs0]].
  apply Nat2N.inj in Hk. subst k0.
  apply count_inv_eq with (k := 0);
    [reflexivity|apply make_block_length|lia|].
  rewrite items_total_app. unfold items_total at 2. cbn.
  rewrite Nat2N.id. lia.
Qed.

Lemma appends_count d w w' :
  appends d w w' ->
  forall m, open_writer w -> count_inv m w -> count_inv m w'.
Proof.
  induction 1 as [d b c n fo s cl Hfit|d b c n fo s cl w' Hsp Hc Happ IH];
    intros m Hw H;
    inversion Hw as [b0 c0 n0 fo0 s0 Hb Hc0]; subst.
  - inversion H as [b0 c0 k fo0 s0 Hb' Hc' Hsum]. subst.
    constructor; [rewrite copy_at_length; lia|lia|reflexivity].
  - apply IH; [constructor; [apply make_block_length|lia]|].
    inversion H as [b0 c0 k fo0 s0 Hb' Hc' Hsum]. subst.
    apply count_inv_seal.
    constructor; [rewrite copy_at_length; rewrite ?length_firstn; lia
                 |lia|reflexivity].
Qed.

Lemma run_call_count c m w :
  0 < BlockSize ->
  (N.of_nat (m + count_marks [c]) < size_t_modulus)%N ->
  count_inv m w ->
  exists w', run_call c w = Ok w' /\ count_inv (m + count_marks [c]) w'.
Proof.
  intros Hpos Hwrap H.
  assert (Hopen : open_writer w) by (destruct H; now constructor).
  destruct c as [|d|x]; cbn [run_call]; unfold count_marks in *;
    cbn [filter is_data_call negb length] in *.
  - pose proof H as H0.
    destruct H as [b c k fo s Hb Hc Hsum].
    rewrite MarkItem_eq. eexists. split; [reflexivity|].
    destruct (Nat.eqb_spec c BlockSize) as [->|Hne].
    + apply count_inv_eq with (k := 1);
        [reflexivity|apply make_block_length|lia|].
      rewrite items_total_app. unfold items_total at 2. cbn.
      rewrite Nat2N.id. lia.
    + apply count_inv_eq with (k := S k); [|auto|auto|lia].
      rewrite N.mod_small; lia.
  - rewrite Nat.add_0_r.
    destruct H as [b c k fo s Hb Hc Hsum].
    destruct (@Append_appends d b c (N.of_nat k) fo s Hpos Hb Hc)
      as [w' [Hrun Happ]].
    exists w'. split; [exact Hrun|].
    apply (appends_count Happ); [assumption|now constructor].
  - rewrite Nat.add_0_r. rewrite PutByte_as_Append by assumption.
    destruct H as [b c k fo s Hb Hc Hsum].
    destruct (@Append_appends [x] b c (N.of_nat k) fo s Hpos Hb Hc)
      as [w' [Hrun Happ]].
    exists w'. split; [exact Hrun|].
    apply (appends_count Happ); [assumption|now constructor].
Qed.

Lemma run_calls_count cs m w :
  0 < BlockSize ->
  (N.of_nat (m + count_marks cs) < size_t_modulus)%N ->
  count_inv m w ->
  exists w', run_calls cs w = Ok w' /\ count_inv (m + count_marks cs) w'.
Proof.
  intros Hpos. revert m w.
  induction cs as [|c cs IH]; intros m w Hwrap H.
  - cbn. rewrite Nat.add_0_r. eauto.
  - rewrite count_marks_cons, Nat.add_assoc in *.
    destruct (@run_call_count c m w Hpos) as [w1 [Hrun1 H1]];
      [lia|exact H|].
    destruct (IH _ _ Hwrap H1) as [w2 [Hrun2 H2]].
    exists w2. split; [|exact H2].
    cbn [run_calls]. rewrite Hrun1. exact Hrun2.
Qed.

Lemma run_op_count o m w :
  0 < BlockSize ->
  (N.of_nat (m + op_marks o) < size_t_modulus)%N ->
  count_inv m w ->
  is_close o = false ->
  exists w', run_op o w = Ok w' /\ count_inv (m + op_marks o) w'.
Proof.
  intros Hpos Hwrap H Ho.
  destruct o as [x|c| |vblocks|]; cbn [run_op op_marks] in *;
    [| | | |discriminate Ho].
  - rewrite operator_call_calls by (destruct H; reflexivity).
    now apply run_calls_count.
  - now apply run_call_count.
  - rewrite Nat.add_0_r. pose proof H as H0.
    destruct H as [b c k fo s Hb Hc Hsum].
    rewrite Flush_eq. eexists. split; [reflexivity|].
    now apply count_inv_seal.
  - rewrite Nat.add_0_r.
    destruct H as [b c k fo s Hb Hc Hsum].
    assert (Hw : open_writer
                   (mkWriter (Some b) (Some c) BlockSize (N.of_nat k) fo
                             (Some s) false))
      by now constructor.
    rewrite (AppendBlocks_order_eq vblocks Hw eq_refl eq_refl eq_refl).
    cbn [nitems_ first_offset_].
    eexists. split; [reflexivity|].
    apply count_inv_eq with (k := 0);
      [reflexivity|apply make_block_length|lia|].
    rewrite !items_total_app, items_total_vblocks.
    destruct ((c =? 0) && (N.of_nat k =? 0)%N) eqn:Hempty.
    + apply andb_prop in Hempty. destruct Hempty as [_ Hk0].
      apply N.eqb_eq in Hk0. cbn. lia.
    + unfold items_total at 2. cbn. rewrite Nat2N.id. lia.
Qed.

Lemma run_count ops m w :
  0 < BlockSize ->
  (N.of_nat (m + ops_marks ops) < size_t_modulus)%N ->
  count_inv m w ->
  existsb is_close ops = false ->
  exists w', run ops w = Ok w' /\ count_inv (m + ops_marks ops) w'.
Proof.
  intros Hpos. revert m w.
  induction ops as [|o ops IH]; intros m w Hwrap H Hops.
  - cbn. rewrite Nat.add_0_r. eauto.
  - cbn [existsb] in Hops. apply orb_false_elim in Hops.
    destruct Hops as [Ho Hops].
    rewrite ops_marks_cons, Nat.add_assoc in *.
    destruct (@run_op_count o m w Hpos) as [w1 [Hrun1 H1]];
      [lia|exact H|exact Ho|].
    destruct (IH _ _ Hwrap H1 Hops) as [w2 [Hrun2 H2]].
    exists w2. split; [|exact H2].
    cbn [run]. rewrite Hrun1. exact Hrun2.
Qed.

(** Whatever the operations before the [Close], with fewer than 2^64
    [MarkItem] calls among them, the item counts of the blocks the writer
    sealed add up to the number of [MarkItem] calls: no item start is
    dropped or counted twice. *)
Theorem item_counts_add_up (ops : list Op) :
  0 < BlockSize ->
  (N.of_nat (ops_marks ops) < size_t_modulus)%N ->
  existsb is_close ops = false ->
  exists w' sink,
    run (ops ++ [OpClose]) (BlockWriterBase (Some [])) = Ok w'
    /\ sink_ w' = Some sink
    /\ items_total sink = ops_marks ops.
Proof.
  intros Hpos Hwrap Hops. rewrite run_app.
  assert (H0 : count_inv 0 (BlockWriterBase (Some [])))
    by (apply count_inv_eq with (k := 0);
        [reflexivity|apply make_block_length|lia|reflexivity]).
  destruct (@run_count ops 0 _ Hpos Hwrap H0 Hops) as [w1 [Hrun1 H1]].
  rewrite Hrun1. cbn [bind run run_op Nat.add] in *.
  destruct H1 as [b c k fo s Hb Hc Hsum].
  rewrite Close_eq. cbn [bind].
  destruct ((c =? 0) && (N.of_nat k =? 0)%N) eqn:Hempty;
    eexists; eexists; (split; [reflexivity|]);
    cbn [sink_]; (split; [reflexivity|]);
    rewrite !items_total_app.
  - apply andb_prop in Hempty. destruct Hempty as [_ Hk0].
    apply N.eqb_eq in Hk0. unfold items_total at 2. cbn. lia.
  - unfold items_total at 2 3. cbn. rewrite Nat2N.id. lia.
Qed.

(** ** The writer without a sink *)

Lemma MarkItem_not_full b c n fo s cl :
  c <> BlockSize ->
  MarkItem (mkWriter (Some b) (Some c) BlockSize n fo s cl)
  = Ok (mkWriter (Some b) (Some c) BlockSize
                 ((n + 1) mod size_t_modulus)%N
                 (if (n =? 0)%N then c else fo) s cl).
Proof.
  intros Hne. unfold MarkItem. cbn [current_ end_].
  destruct (Nat.eqb_spec c BlockSize); [contradiction|].
  cbn [bind nitems_ block_ current_]. destruct (n =? 0)%N; reflexivity.
Qed.

Lemma Append_spills_without_sink d b c n fo :
  length b = BlockSize ->
  c <= BlockSize ->
  BlockSize < c + length d ->
  Append d (mkWriter (Some b) (Some c) BlockSize n fo None false)
  = Fail NullSink.
Proof.
  intros Hb Hc Hsp. unfold Append. cbn [closed_].
  cbn -[copy_at Nat.ltb Nat.leb Nat.sub firstn skipn].
  destruct (Nat.ltb_spec BlockSize (c + length d)); [|lia].
  destruct (Nat.ltb_spec BlockSize c); [lia|].
  unfold copy_to_current.
  cbn -[copy_at Nat.ltb Nat.leb Nat.sub firstn skipn].
  rewrite length_firstn.
  destruct (Nat.leb_spec (c + Nat.min (BlockSize - c) (length d))
                         (length b)); [|lia].
  reflexivity.
Qed.

Lemma run_call_buffer c bytes w :
  buffer_inv bytes w ->
  length bytes + length (call_data c) <= BlockSize ->
  Forall (fun p => p < BlockSize) (mark_positions (length bytes) [c]) ->
  exists w', run_call c w = Ok w' /\ buffer_inv (bytes ++ call_data c) w'.
Proof.
  intros H Hfit Hmarks.
  assert (Hopen : open_writer w) by (destruct H; now constructor).
  destruct H as [b c0 n fo Hb Hc0 Hle Hbytes].
  assert (Hcopy : forall d,
             length bytes + length d <= BlockSize ->
             buffer_inv (bytes ++ d)
               (mkWriter (Some (copy_at b c0 d)) (Some (c0 + length d))
                         BlockSize n fo None false)).
  { intros d Hd.
    constructor; [rewrite copy_at_length; lia|rewrite length_app; lia|lia|].
    rewrite firstn_copy_at by lia. now rewrite Hbytes. }
  destruct c as [|d|x]; cbn [run_call call_data length] in *.
  - cbn [mark_positions] in Hmarks. apply Forall_inv in Hmarks.
    rewrite MarkItem_not_full by lia.
    eexists. split; [reflexivity|].
    rewrite app_nil_r. now constructor.
  - unfold Append. cbn [closed_].
    rewrite Append_loop_fits by lia.
    eexists. split; [reflexivity|]. now apply Hcopy.
  - rewrite PutByte_as_Append by (assumption || lia).
    unfold Append. cbn [closed_].
    rewrite Append_loop_fits by (cbn [length]; lia).
    eexists. split; [reflexivity|]. now apply (Hcopy [x]).
Qed.

Lemma run_calls_buffer cs bytes w :
  buffer_inv bytes w ->
  length bytes + length (calls_data cs) <= BlockSize ->
  Forall (fun p => p < BlockSize) (mark_positions (length bytes) cs) ->
  exists w', run_calls cs w = Ok w' /\ buffer_inv (bytes ++ calls_data cs) w'.
Proof.
  revert bytes w. induction cs as [|c cs IH]; intros bytes w H Hfit Hmarks.
  - cbn. rewrite app_nil_r. eauto.
  - change (c :: cs) with ([c] ++ cs) in *.
    rewrite mark_positions_app in Hmarks. apply Forall_app in Hmarks.
    destruct Hmarks as [Hm1 Hm2].
    rewrite calls_data_app, length_app in Hfit.
    assert (Hc : calls_data [c] = call_data c) by (cbn; apply app_nil_r).
    rewrite Hc in *.
    destruct (@run_call_buffer c bytes w H) as [w1 [Hrun1 H1]];
      [lia|exact Hm1|].
    destruct (IH (bytes ++ call_data c) w1 H1) as [w2 [Hrun2 H2]].
    + rewrite length_app. lia.
    + now rewrite length_app.
    + exists w2. split.
      * cbn [app run_calls]. rewrite Hrun1. exact Hrun2.
      * rewrite calls_data_app, Hc, app_assoc. exact H2.
Qed.

(** A writer constructed without a sink takes the calls that fit in its
    one block (no item start at the block's end): the block then holds
    their bytes and the cursor is behind them.  The first [Append] that
    goes beyond the block dereferences the null sink. *)
Theorem writer_without_sink_buffers_one_block (cs : list WriteCall) :
  length (calls_data cs) <= BlockSize ->
  Forall (fun p => p < BlockSize) (mark_positions 0 cs) ->
  exists w' b,
    run_calls cs (BlockWriterBase None) = Ok w'
    /\ block_ w' = Some b
    /\ firstn (length (calls_data cs)) b = calls_data cs
    /\ current_ w' = Some (length (calls_data cs))
    /\ (forall d, BlockSize < length (calls_data cs) + length d ->
                  Append d w' = Fail NullSink).
Proof.
  intros Hfit Hmarks.
  assert (H0 : buffer_inv [] (BlockWriterBase None))
    by (constructor; [apply make_block_length|reflexivity|lia|reflexivity]).
  destruct (@run_calls_buffer cs [] _ H0 Hfit Hmarks) as [w' [Hrun H]].
  cbn [app] in H. destruct H as [b c n fo Hb Hc Hle Hbytes].
  eexists. exists b. split; [exact Hrun|]. subst c.
  repeat split; auto.
  intros d Hd. apply Append_spills_without_sink; lia.
Qed.

(** ** After [Close] *)

(** After a [Close] that sealed the block of a writer with a sink, the
    writer has given its block away: a further [Close] and the destructor
    change nothing, the writes fail their assertion, and [MarkItem],
    [Flush] and [AppendBlocks], which have none, dereference the block
    that is gone. *)
Theorem sealing_Close_is_final (w : Writer) (s : BlockSink) :
  open_writer w ->
  sink_ w = Some s ->
  current_ w <> Some 0 \/ nitems_ w <> 0%N ->
  exists w1,
    Close w = Ok w1
    /\ block_ w1 = None
    /\ Destroy w1 = Ok w1
    /\ forall o, run_op o w1 = after_sealing_close o w1.
Proof.
  intros Hw Hs Hne. destruct Hw as [b c n fo s0 Hb Hc].
  cbn in Hs, Hne. subst s0.
  rewrite Close_eq.
  assert (Hsealed : (c =? 0) && (n =? 0)%N = false).
  { destruct Hne as [Hc0|Hn0].
    - destruct (Nat.eqb_spec c 0); [congruence|reflexivity].
    - destruct (N.eqb_spec n 0); [congruence|apply andb_false_r]. }
  rewrite Hsealed. eexists. split; [reflexivity|].
  split; [reflexivity|]. split; [reflexivity|].
  intros [x|[|d|x]| |vblocks|]; reflexivity.
Qed.

(** After a [Close] that found the block empty the writer still has it,
    and [Flush] and [AppendBlocks], which do not look at [closed_], go
    through to the sink that was closed. *)
Theorem Flush_after_Close_reaches_the_sink (w : Writer) (b : Block)
        (s : BlockSink) :
  open_writer w ->
  block_ w = Some b ->
  current_ w = Some 0 ->
  nitems_ w = 0%N ->
  sink_ w = Some s ->
  exists w1,
    Close w = Ok w1
    /\ closed_ w1 = true
    /\ sink_ w1 = Some (s ++ [SinkClose])
    /\ (exists w2,
           Flush w1 = Ok w2
           /\ sink_ w2
              = Some ((s ++ [SinkClose])
                        ++ [SinkAppendBlock b 0 0 (first_offset_ w) 0%N]))
    /\ (forall vblocks, exists w2,
           AppendBlocks vblocks w1 = Ok w2
           /\ sink_ w2
              = Some ((s ++ [SinkClose]) ++ map SinkAppendVBlock vblocks)).
Proof.
  intros Hw Hb Hc Hn Hs. destruct Hw as [b0 c n fo s0 Hlen Hle].
  cbn in Hb, Hc, Hn, Hs. injection Hb as ->. injection Hc as ->.
  subst n s0. rewrite Close_eq. cbn [Nat.eqb N.eqb andb first_offset_].
  eexists. split; [reflexivity|]. split; [reflexivity|].
  split; [reflexivity|]. split.
  - rewrite Flush_eq. eexists. split; reflexivity.
  - intros vblocks. unfold AppendBlocks, MaybeFlushBlock.
    cbn [block_ current_ nitems_ Nat.eqb N.eqb negb orb bind].
    destruct vblocks; cbn; eexists; (split; [reflexivity|]);
      rewrite ?app_nil_r; reflexivity.
Qed.

(** ** Open and closed *)

Lemma same_mode_refl w : same_mode w w.
Proof. split; reflexivity. Qed.

Lemma same_mode_trans w1 w2 w3 :
  same_mode w1 w2 -> same_mode w2 w3 -> same_mode w1 w3.
Proof. intros [H1 H2] [H3 H4]. split; congruence. Qed.

Lemma FlushBlock_mode w w' : FlushBlock w = Ok w' -> same_mode w w'.
Proof.
  unfold FlushBlock.
  destruct w as [[b|] [c|] e n fo [s|] cl]; cbn; intros [= <-];
    split; reflexivity.
Qed.

Lemma Flush_mode w w' : Flush w = Ok w' -> same_mode w w'.
Proof.
  unfold Flush. intros H. apply bind_Ok in H.
  destruct H as [w1 [H1 [= <-]]]. apply FlushBlock_mode in H1.
  destruct H1 as [Hc Hv]. split; [exact Hc|exact Hv].
Qed.

Lemma MaybeFlushBlock_mode w w' :
  MaybeFlushBlock w = Ok w' -> same_mode w w'.
Proof.
  unfold MaybeFlushBlock. destruct (block_ w); [|discriminate].
  destruct (_ || _).
  - intros H. apply bind_Ok in H. destruct H as [w1 [H1 [= <-]]].
    apply FlushBlock_mode in H1. destruct H1 as [Hc Hv].
    split; [exact Hc|exact Hv].
  - intros [= <-]. apply same_mode_refl.
Qed.

Lemma AppendBlocks_mode vblocks w w' :
  AppendBlocks vblocks w = Ok w' -> same_mode w w'.
Proof.
  unfold AppendBlocks. intros H.
  apply bind_Ok in H. destruct H as [w1 [H1 H]].
  apply bind_Ok in H. destruct H as [w2 [H2 [= <-]]].
  apply MaybeFlushBlock_mode in H1. destruct H1 as [Hc Hv].
  unfold IsValid in Hv.
  destruct vblocks as [|vb vblocks].
  - injection H2 as <-. split; [exact Hc|exact Hv].
  - destruct (sink_ w1) as [s|] eqn:Hs; [|discriminate H2].
    injection H2 as <-. split; [exact Hc|].
    unfold IsValid. cbn. exact Hv.
Qed.

Lemma MarkItem_mode w w' : MarkItem w = Ok w' -> same_mode w w'.
Proof.
  unfold MarkItem. intros H.
  apply bind_Ok in H. destruct H as [w1 [H1 H]].
  apply bind_Ok in H. destruct H as [w2 [H2 [= <-]]].
  assert (M1 : same_mode w w1).
  { destruct (match current_ w with
              | Some c => c =? end_ w
              | None => false
              end).
    - now apply Flush_mode.
    - injection H1 as <-. apply same_mode_refl. }
  assert (M2 : same_mode w1 w2).
  { destruct (nitems_ w1 =? 0)%N.
    - destruct (block_ w1), (current_ w1); try discriminate H2;
        injection H2 as <-; split; reflexivity.
    - injection H2 as <-. apply same_mode_refl. }
  apply (same_mode_trans M1). apply (same_mode_trans M2).
  split; reflexivity.
Qed.

Lemma copy_to_current_mode src w w' :
  copy_to_current src w = Ok w' -> same_mode w w'.
Proof.
  unfold copy_to_current.
  destruct (block_ w), (current_ w); try discriminate.
  destruct (_ <=? _); [|discriminate].
  intros [= <-]. split; reflexivity.
Qed.

Lemma advance_mode n w w' : advance n w = Ok w' -> same_mode w w'.
Proof.
  unfold advance. destruct (current_ w); [|discriminate].
  intros [= <-]. split; reflexivity.
Qed.

Lemma store_byte_mode x w w' : store_byte x w = Ok w' -> same_mode w w'.
Proof.
  unfold store_byte. intros H.
  apply bind_Ok in H. destruct H as [w1 [H1 H2]].
  eauto using same_mode_trans, copy_to_current_mode, advance_mode.
Qed.

Lemma Append_loop_mode fuel d w w' :
  Append_loop fuel d w = Ok w' -> same_mode w w'.
Proof.
  revert d w. induction fuel as [|fuel IH]; intros d w Hrun;
    cbn [Append_loop] in Hrun;
    destruct (current_ w) as [c|]; try discriminate Hrun;
    destruct (end_ w <? c + length d); try discriminate Hrun.
  - apply bind_Ok in Hrun. destruct Hrun as [w1 [H1 H2]].
    eauto using same_mode_trans, copy_to_current_mode, advance_mode.
  - destruct (end_ w <? c); [discriminate Hrun|].
    apply bind_Ok in Hrun. destruct Hrun as [w1 [H1 Hrun]].
    apply bind_Ok in Hrun. destruct Hrun as [w2 [H2 Hrun]].
    apply bind_Ok in Hrun. destruct Hrun as [w3 [H3 Hrun]].
    apply (same_mode_trans (copy_to_current_mode _ _ H1)).
    apply (same_mode_trans (advance_mode _ _ H2)).
    apply (same_mode_trans (Flush_mode _ H3)).
    exact (IH _ _ Hrun).
  - apply bind_Ok in Hrun. destruct Hrun as [w1 [H1 H2]].
    eauto using same_mode_trans, copy_to_current_mode, advance_mode.
Qed.

Lemma run_call_mode c w w' : run_call c w = Ok w' -> same_mode w w'.
Proof.
  destruct c as [|d|x]; cbn [run_call].
  - apply MarkItem_mode.
  - unfold Append. destruct (closed_ w); [discriminate|].
    apply Append_loop_mode.
  - unfold PutByte. destruct (closed_ w); [discriminate|].
    destruct (current_ w) as [c|]; [|discriminate].
    destruct (c <? end_ w); [apply store_byte_mode|].
    intros H. apply bind_Ok in H. destruct H as [w1 [H1 H2]].
    eauto using same_mode_trans, Flush_mode, store_byte_mode.
Qed.

Lemma run_calls_mode cs w w' : run_calls cs w = Ok w' -> same_mode w w'.
Proof.
  revert w. induction cs as [|c cs IH]; intros w; cbn [run_calls].
  - intros [= <-]. apply same_mode_refl.
  - intros H. apply bind_Ok in H. destruct H as [w1 [H1 H2]].
    eauto using same_mode_trans, run_call_mode.
Qed.

Lemma operator_call_mode x w w' :
  operator_call x w = Ok w' -> same_mode w w'.
Proof.
  unfold operator_call. destruct (closed_ w); [discriminate|].
  intros H. apply bind_Ok in H. destruct H as [w1 [H1 H]].
  apply bind_Ok in H. destruct H as [w2 [H2 H3]].
  apply (same_mode_trans (MarkItem_mode _ H1)).
  apply (@same_mode_trans _ w2); [|exact (run_calls_mode _ _ H3)].
  destruct self_verify.
  - exact (run_call_mode (CallAppend hash_code) _ H2).
  - injection H2 as <-. apply same_mode_refl.
Qed.

Lemma Close_mode w w' :
  Close w = Ok w' -> closed_ w' = true /\ IsValid w' = IsValid w.
Proof.
  unfold Close. destruct (closed_ w) eqn:Hcl; cbn [negb].
  - intros [= <-]. auto.
  - intros H. apply bind_Ok in H. destruct H as [w1 [H1 H2]].
    apply MaybeFlushBlock_mode in H1. destruct H1 as [Hc Hv].
    unfold IsValid in *. cbn [closed_ sink_ set_closed] in Hc, Hv.
    destruct (sink_ w1) as [s|] eqn:Hs1; injection H2 as <-; cbn;
      rewrite ?Hs1; auto.
Qed.

(** Over every run of the operations that returns, from any writer:
    whether the writer has a sink never changes; a closed writer stays
    closed; and an open writer is closed at the end exactly when [Close]
    was among the operations. *)
Theorem closed_only_by_Close (ops : list Op) (w w' : Writer) :
  run ops w = Ok w' ->
  IsValid w' = IsValid w
  /\ closed_ w' = closed_ w || existsb is_close ops.
Proof.
  revert w. induction ops as [|o ops IH]; intros w Hrun.
  - injection Hrun as <-. now rewrite orb_false_r.
  - cbn [run] in Hrun. apply bind_Ok in Hrun.
    destruct Hrun as [w1 [H1 Hrun]].
    destruct (IH _ Hrun) as [Hv Hc]. cbn [existsb].
    assert (Hstep : IsValid w1 = IsValid w
                    /\ closed_ w1 = closed_ w || is_close o).
    { destruct o as [x|c| |vblocks|]; cbn [run_op is_close] in *;
        rewrite ?orb_false_r.
      - apply operator_call_mode in H1. destruct H1. auto.
      - apply run_call_mode in H1. destruct H1. auto.
      - apply Flush_mode in H1. destruct H1. auto.
      - apply AppendBlocks_mode in H1. destruct H1. auto.
      - apply Close_mode in H1. destruct H1 as [-> ->].
        now rewrite orb_true_r. }
    destruct Hstep as [Hv1 Hc1]. split; [congruence|].
    rewrite Hc, Hc1. now rewrite orb_assoc.
Qed.

(** ** The number of blocks of a stream of items *)

(** Items of N * BlockSize + k bytes in all (k < BlockSize), each item
    start having its first byte written, fewer than 2^64 item starts:
    after the close the sink has received N blocks, and one more when
    k > 0; the writer seals by capacity alone, however the bytes divide
    into items. *)
Theorem items_fill_blocks_to_capacity (items : list T) (N k : nat) :
  0 < BlockSize ->
  k < BlockSize ->
  (N.of_nat (length (mark_positions 0 (items_calls items)))
   < size_t_modulus)%N ->
  Forall (fun p => p < length (items_bytes items))
         (mark_positions 0 (items_calls items)) ->
  length (items_bytes items) = N * BlockSize + k ->
  exists w' sink,
    run (map OpItem items ++ [OpClose]) (BlockWriterBase (Some [])) = Ok w'
    /\ sink_ w' = Some sink
    /\ sealed_count sink = N + (if 0 <? k then 1 else 0).
Proof.
  intros Hpos Hk Hwrap Hwritten Hsize. rewrite run_app.
  destruct (run_items_inv items Hpos Hwrap) as [w1 [Hrun1 [Hinv Htl]]].
  rewrite Hrun1. cbn [bind run run_op].
  pose proof Hinv as Hinv0.
  destruct Hinv as [b c n fo s Hb Hc Hfull Hbytes Hmeta Hmarks Hn Hfo].
  pose proof (stream_inv_length Hinv0) as Hlen.
  rewrite (full_blocks_length Hfull) in Hlen, Hn.
  unfold tail_inv in Htl. cbn [current_] in Htl.
  rewrite Close_eq. cbn [bind].
  assert (Hcases : (c <> 0) \/ (c = 0 /\ length (items_bytes items) = 0)).
  { destruct (Nat.eq_dec c 0) as [->|Hc0]; [right|now left].
    split; [reflexivity|].
    destruct Htl as [Htl|[Htl|Htl]]; [congruence|now rewrite Htl|].
    rewrite Forall_forall in Hwritten. specialize (Hwritten _ Htl). lia. }
  destruct Hcases as [Hc0|[-> Hz]].
  - destruct (Nat.eqb_spec c 0); [contradiction|]. cbn [andb].
    eexists; eexists; split; [reflexivity|].
    cbn [sink_]; split; [reflexivity|].
    rewrite !sealed_count_app, (full_blocks_count Hfull).
    cbn [sealed_count filter is_append_block length].
    destruct (@block_count_arith N k (length s) c) as [Hcount _];
      [lia|lia|lia|]. lia.
  - assert (Hmarks0 : mark_positions 0 (items_calls items) = []).
    { destruct (mark_positions 0 (items_calls items)) as [|p ps];
        [reflexivity|].
      apply Forall_inv in Hwritten. lia. }
    rewrite Hmarks0 in Hn. cbn in Hn. subst n.
    cbn [Nat.eqb N.eqb andb].
    eexists; eexists; split; [reflexivity|].
    cbn [sink_]; split; [reflexivity|].
    rewrite sealed_count_app, (full_blocks_count Hfull).
    cbn [sealed_count filter is_append_block length].
    assert (length s = 0) by nia. assert (N = 0) by nia.
    assert (k = 0) by nia. subst N k. cbn. lia.
Qed.

(** ** A [Flush] after each item *)

Lemma run_data_calls_fit cs (b : Block) c n fo s :
  0 < BlockSize ->
  length b = BlockSize ->
  forallb is_data_call cs = true ->
  c + length (calls_data cs) <= BlockSize ->
  exists b' : Block,
    run_calls cs (mkWriter (Some b) (Some c) BlockSize n fo s false)
    = Ok (mkWriter (Some b') (Some (c + length (calls_data cs)))
                   BlockSize n fo s false)
    /\ length b' = BlockSize
    /\ firstn (c + length (calls_data cs)) b' = firstn c b ++ calls_data cs.
Proof.
  intros Hpos. revert b c.
  induction cs as [|call cs IH]; intros b c Hb Hdata Hfit.
  - exists b. cbn. rewrite Nat.add_0_r, app_nil_r. auto.
  - cbn [forallb] in Hdata. apply andb_prop in Hdata.
    destruct Hdata as [Hcall Hcs].
    change (calls_data (call :: cs))
      with (call_data call ++ calls_data cs) in *.
    rewrite length_app in *.
    assert (Hstep : run_call call
                      (mkWriter (Some b) (Some c) BlockSize n fo s false)
                    = Ok (mkWriter (Some (copy_at b c (call_data call)))
                                   (Some (c + length (call_data call)))
                                   BlockSize n fo s false)).
    { destruct call as [|d|x]; [discriminate Hcall| |];
        cbn [run_call call_data length] in *.
      - unfold Append. cbn [closed_]. apply Append_loop_fits; [auto|lia].
      - rewrite PutByte_as_Append by (auto; constructor; lia).
        unfold Append. cbn [closed_].
        apply Append_loop_fits; [auto|cbn [length]; lia]. }
    destruct (IH (copy_at b c (call_data call))
                 (c + length (call_data call)))
      as [b' [Hrun [Hb' Hfirst]]];
      [rewrite copy_at_length; lia|exact Hcs|lia|].
    exists b'. cbn [run_calls]. rewrite Hstep. cbn [bind].
    rewrite Nat.add_assoc. split; [exact Hrun|]. split; [exact Hb'|].
    rewrite Hfirst, firstn_copy_at by lia. now rewrite app_assoc.
Qed.

Lemma run_flushed_items (items : list T) (s : BlockSink) :
  0 < BlockSize ->
  Forall (fun x => forallb is_data_call (Serialize x) = true
                   /\ length (item_bytes x) <= BlockSize) items ->
  exists blocks,
    run (flushed_items items)
        (mkWriter (Some make_block) (Some 0) BlockSize 0%N 0 (Some s) false)
    = Ok (mkWriter (Some make_block) (Some 0) BlockSize 0%N 0
                   (Some (s ++ blocks)) false)
    /\ Forall2 item_block items blocks.
Proof.
  intros Hpos Hitems. revert s.
  induction Hitems as [|x items [Hdata Hfit] Hitems IH]; intros s.
  - exists []. cbn. rewrite app_nil_r. auto.
  - unfold flushed_items. cbn [flat_map app run run_op].
    rewrite operator_call_calls by reflexivity.
    unfold item_calls at 1. cbn [run_calls run_call].
    rewrite MarkItem_not_full by lia. cbn [bind N.eqb].
    assert (Hrest : forallb is_data_call
                      ((if self_verify then [CallAppend hash_code] else [])
                         ++ Serialize x) = true)
      by (rewrite forallb_app, Hdata; destruct self_verify; reflexivity).
    assert (Hbytes : calls_data
                       ((if self_verify then [CallAppend hash_code] else [])
                          ++ Serialize x) = item_bytes x)
      by reflexivity.
    destruct (@run_data_calls_fit _ make_block 0
                ((0 + 1) mod size_t_modulus)%N 0 (Some s) Hpos
                make_block_length Hrest)
      as [b' [Hrun [Hb' Hfirst]]]; [rewrite Hbytes; exact Hfit|].
    rewrite Hbytes in *. cbn [Nat.add firstn app] in *.
    destruct (IH (s ++ [SinkAppendBlock b' 0 (length (item_bytes x)) 0
                          ((0 + 1) mod size_t_modulus)%N]))
      as [blocks [Hrun2 Hall]].
    eexists (_ :: blocks). split.
    + rewrite Hrun. cbn [bind]. rewrite Flush_eq. cbn [bind].
      etransitivity; [exact Hrun2|].
      rewrite <- app_assoc. reflexivity.
    + constructor; [|exact Hall]. exists b'. split; [reflexivity|exact Hfirst].
Qed.

(** With a [Flush] after each item, each item of at most [BlockSize]
    bytes (its serializer starting no nested item) goes to the sink as a
    block of its own: the valid bytes are the bytes of the item, the first
    item offset is 0 and the item count is 1.  The writer is left with a
    fresh empty block. *)
Theorem Flush_after_each_item (items : list T) :
  0 < BlockSize ->
  Forall (fun x => forallb is_data_call (Serialize x) = true
                   /\ length (item_bytes x) <= BlockSize) items ->
  exists w' blocks,
    run (flushed_items items) (BlockWriterBase (Some [])) = Ok w'
    /\ sink_ w' = Some blocks
    /\ current_ w' = Some 0
    /\ Forall2 item_block items blocks.
Proof.
  intros Hpos Hitems.
  destruct (run_flushed_items [] Hpos Hitems) as [blocks [Hrun Hall]].
  eexists. exists blocks. split; [exact Hrun|].
  cbn. auto.
Qed.

(** ** The metadata of the sealed blocks, over all operations *)

Lemma sealed_blocks_app (s t : BlockSink) (start : nat) :
  sealed_blocks start (s ++ t)
  = sealed_blocks start s
    ++ sealed_blocks (start + length (sink_bytes s)) t.
Proof. unfold sealed_blocks. now rewrite with_starts_app, filter_app. Qed.

Lemma sealed_blocks_vblocks (vblocks : list VirtualBlock) (start : nat) :
  sealed_blocks start (map SinkAppendVBlock vblocks) = [].
Proof.
  revert start.
  induction vblocks as [|vb vbs IH]; intros start; [reflexivity|].
  unfold sealed_blocks in *.
  cbn [map with_starts filter snd is_append_block]. apply IH.
Qed.

Lemma in_bounds_bytes b lo hi fo n :
  block_in_bounds (SinkAppendBlock b lo hi fo n) ->
  length (call_bytes (SinkAppendBlock b lo hi fo n)) = hi.
Proof.
  cbn [block_in_bounds call_bytes]. intros (-> & _ & Hhi & Hb).
  cbn [skipn]. rewrite length_firstn. lia.
Qed.

(** Each sealed block ends where the next call on the sink starts. *)
Lemma sealed_blocks_end (s : BlockSink) (start : nat) :
  Forall block_in_bounds s ->
  Forall (fun sc => block_in_bounds (snd sc)
                    /\ fst sc + length (call_bytes (snd sc))
                       <= start + length (sink_bytes s))
         (sealed_blocks start s).
Proof.
  intros Hs. revert start.
  induction Hs as [|c s Hc Hs IH]; intros start; [constructor|].
  change (c :: s) with ([c] ++ s). rewrite sealed_blocks_app.
  rewrite sink_bytes_app, length_app.
  assert (H1 : sink_bytes [c] = call_bytes c) by (cbn; apply app_nil_r).
  rewrite H1.
  apply Forall_app. split.
  - unfold sealed_blocks. cbn [with_starts filter snd].
    destruct (is_append_block c); constructor; [|constructor].
    cbn [fst snd]. split; [exact Hc|lia].
  - eapply Forall_impl; [|exact (IH (start + length (call_bytes c)))].
    cbn beta. intros sc [H2 H3]. split; [exact H2|lia].
Qed.

(** An item start behind a block leaves its metadata as it is. *)
Lemma block_meta_ok_later (marks : list nat) (sc : nat * SinkCall)
      (p : nat) :
  block_in_bounds (snd sc) ->
  fst sc + length (call_bytes (snd sc)) <= p ->
  block_meta_ok marks sc ->
  block_meta_ok (marks ++ [p]) sc.
Proof.
  destruct sc as [start [b lo hi fo n| |]];
    cbn [fst snd block_meta_ok]; try tauto.
  intros Hin Hp (Hlo & Hn & Hfirst).
  rewrite (in_bounds_bytes Hin) in Hp.
  split; [exact Hlo|]. split.
  - rewrite filter_app, length_app. cbn [filter].
    unfold in_range at 2.
    destruct (Nat.ltb_spec p (start + hi)); [lia|].
    rewrite andb_false_r. cbn [length]. now rewrite Nat.add_0_r.
  - intros Hn0. destruct (Hfirst Hn0) as (Hlt & Hi & Hall).
    split; [exact Hlt|]. split.
    + apply in_or_app. now left.
    + apply Forall_app. split; [exact Hall|].
      constructor; [lia|constructor].
Qed.

Lemma meta_inv_init : meta_inv [] [] false (BlockWriterBase (Some [])).
Proof.
  unfold BlockWriterBase, AllocateBlock. cbn [sink_ closed_].
  constructor; cbn; try constructor; try lia.
  apply make_block_length.
Qed.

Lemma meta_inv_length bytes marks pending b c n fo s cl :
  meta_inv bytes marks pending
    (mkWriter (Some b) (Some c) BlockSize n fo (Some s) cl) ->
  length bytes = length (sink_bytes s) + c.
Proof.
  intros H. inversion H as [b0 c0 n0 fo0 s0 Hb Hc Hfc Hbnd Hbytes Hmeta
                              Hmarks Hpend Hn Hfo].
  rewrite <- Hbytes, length_app, length_firstn. lia.
Qed.

Lemma meta_inv_open bytes marks pending w :
  meta_inv bytes marks pending w -> open_writer w.
Proof. intros H. destruct H. now constructor. Qed.

(** The copy of [Append], when the data fits: a byte written ends the
    wait of the item starts. *)
Lemma meta_inv_copy bytes marks pending b c n fo s d :
  c + length d <= BlockSize ->
  meta_inv bytes marks pending
    (mkWriter (Some b) (Some c) BlockSize n fo (Some s) false) ->
  meta_inv (bytes ++ d) marks (call_pending pending (CallAppend d))
    (mkWriter (Some (copy_at b c d)) (Some (c + length d))
              BlockSize n fo (Some s) false).
Proof.
  intros Hfit H.
  inversion H as [b0 c0 n0 fo0 s0 Hb Hc Hfc Hbnd Hbytes Hmeta
                    Hmarks Hpend Hn Hfo].
  clear H. subst b0 c0 n0 fo0 s0.
  constructor; try assumption.
  - rewrite copy_at_length; lia.
  - lia.
  - rewrite firstn_copy_at by lia. now rewrite app_assoc, Hbytes.
  - eapply Forall_impl; [|exact Hmarks]. cbn beta.
    intros p [H1 H2]. rewrite length_app. lia.
  - destruct d as [|x d]; cbn [call_pending].
    + rewrite app_nil_r. exact Hpend.
    + intros _. eapply Forall_impl; [|exact Hmarks]. cbn beta.
      intros p [H1 H2]. rewrite length_app. cbn [length]. lia.
Qed.

(** The current block is sealed, no item start being at its end. *)
Lemma meta_inv_seal bytes marks pending b c n fo s :
  meta_inv bytes marks pending
    (mkWriter (Some b) (Some c) BlockSize n fo (Some s) false) ->
  Forall (fun p => p < length (sink_bytes s) + c) marks ->
  meta_inv bytes marks pending
    (mkWriter (Some make_block) (Some 0) BlockSize 0%N 0
              (Some (s ++ [SinkAppendBlock b 0 c fo n])) false).
Proof.
  intros H Hlt.
  pose proof (meta_inv_length H) as Hlen.
  inversion H as [b0 c0 n0 fo0 s0 Hb Hc Hfc Hbnd Hbytes Hmeta
                    Hmarks Hpend Hn Hfo].
  clear H. subst b0 c0 n0 fo0 s0.
  assert (Hnew : sink_bytes (s ++ [SinkAppendBlock b 0 c fo n])
                 = sink_bytes s ++ firstn c b).
  { rewrite sink_bytes_app. cbn. now rewrite Nat.sub_0_r, app_nil_r. }
  assert (Hl : length (sink_bytes (s ++ [SinkAppendBlock b 0 c fo n]))
               = length (sink_bytes s) + c).
  { rewrite Hnew, length_app, length_firstn. lia. }
  assert (Hsame : filter (in_range (length (sink_bytes s))
                                   (length (sink_bytes s) + c)) marks
                  = filter (Nat.leb (length (sink_bytes s))) marks).
  { apply filter_ext_in. intros p Hp.
    rewrite Forall_forall in Hlt. specialize (Hlt p Hp).
    unfold in_range.
    destruct (Nat.ltb_spec p (length (sink_bytes s) + c)); [|lia].
    apply andb_true_r. }
  constructor.
  - apply make_block_length.
  - lia.
  - lia.
  - apply Forall_app. split; [exact Hbnd|].
    constructor; [|constructor]. cbn. auto.
  - rewrite Hnew. cbn. rewrite app_nil_r. exact Hbytes.
  - rewrite sealed_blocks_app. apply Forall_app. split; [exact Hmeta|].
    unfold sealed_blocks. cbn [with_starts filter snd is_append_block].
    constructor; [|constructor].
    cbn [block_meta_ok Nat.add].
    split; [reflexivity|]. split.
    + now rewrite Hsame.
    + intros Hn0. destruct (Hfo Hn0) as [Hin Hall].
      split; [|split; assumption].
      rewrite Forall_forall in Hlt. specialize (Hlt _ Hin). lia.
  - rewrite Hl. eapply Forall_impl; [|exact Hmarks]. cbn beta. lia.
  - exact Hpend.
  - rewrite Hl. rewrite filter_none; [reflexivity|].
    eapply Forall_impl; [|exact Hlt]. cbn beta. intros p Hp.
    apply Nat.leb_gt. lia.
  - intros Hn0. now contradiction Hn0.
Qed.

(** The bookkeeping of [MarkItem], the block not being full: the start
    waits for its first byte. *)
Lemma meta_inv_mark bytes marks pending b c n fo s :
  c < BlockSize ->
  (N.of_nat (length marks) + 1 < size_t_modulus)%N ->
  meta_inv bytes marks pending
    (mkWriter (Some b) (Some c) BlockSize n fo (Some s) false) ->
  meta_inv bytes (marks ++ [length bytes]) true
    (mkWriter (Some b) (Some c) BlockSize
              ((n + 1) mod size_t_modulus)%N
              (if (n =? 0)%N then c else fo) (Some s) false).
Proof.
  intros Hlt Hwrap H.
  pose proof (meta_inv_length H) as Hlen.
  inversion H as [b0 c0 n0 fo0 s0 Hb Hc Hfc Hbnd Hbytes Hmeta
                    Hmarks Hpend Hn Hfo].
  clear H. subst b0 c0 n0 fo0 s0.
  set (S0 := length (sink_bytes s)) in *.
  assert (Hcount : length (filter (Nat.leb S0) marks) <= length marks)
    by apply filter_length_le.
  assert (Hnew : filter (Nat.leb S0) (marks ++ [length bytes])
                 = filter (Nat.leb S0) marks ++ [length bytes]).
  { rewrite filter_app. cbn.
    destruct (Nat.leb_spec S0 (length bytes)); [reflexivity|lia]. }
  constructor; try assumption.
  - destruct (n =? 0)%N; lia.
  - pose proof (sealed_blocks_end 0 Hbnd) as Hend.
    rewrite Forall_forall in *. intros sc Hsc.
    destruct (Hend sc Hsc) as [Hin Hle]. fold S0 in Hle.
    apply block_meta_ok_later; auto. lia.
  - apply Forall_app. split.
    + exact Hmarks.
    + constructor; [|constructor]. fold S0. lia.
  - discriminate.
  - fold S0. rewrite Hnew, length_app. cbn [length].
    rewrite N.mod_small; lia.
  - intros _. fold S0.
    destruct (N.eqb_spec n 0) as [Hz|Hnz].
    + assert (Hnone : Forall (fun p => Nat.leb S0 p = false) marks).
      { apply filter_none_inv. lia. }
      split.
      * apply in_or_app. right. left. lia.
      * apply Forall_app. split.
        -- eapply Forall_impl; [|exact Hnone]. cbn beta.
           intros p Hp Hle. apply Nat.leb_gt in Hp. lia.
        -- constructor; [lia|constructor].
    + destruct (Hfo Hnz) as [Hin Hall]. fold S0 in Hin, Hall.
      split.
      * apply in_or_app. now left.
      * apply Forall_app. split; [exact Hall|].
        constructor; [|constructor].
        rewrite Forall_forall in Hmarks.
        destruct (Hmarks _ Hin). lia.
Qed.

(** A full block holds no item start at its end. *)
Lemma meta_inv_full bytes marks pending b n fo s :
  meta_inv bytes marks pending
    (mkWriter (Some b) (Some BlockSize) BlockSize n fo (Some s) false) ->
  Forall (fun p => p < length (sink_bytes s) + BlockSize) marks.
Proof.
  intros H.
  inversion H as [b0 c0 n0 fo0 s0 Hb Hc Hfc Hbnd Hbytes Hmeta
                    Hmarks Hpend Hn Hfo].
  eapply Forall_impl; [|exact Hmarks]. cbn beta. tauto.
Qed.

Lemma MarkItem_meta_inv bytes marks pending w :
  0 < BlockSize ->
  (N.of_nat (length marks) + 1 < size_t_modulus)%N ->
  meta_inv bytes marks pending w ->
  exists w',
    MarkItem w = Ok w' /\ meta_inv bytes (marks ++ [length bytes]) true w'.
Proof.
  intros Hpos Hwrap H. pose proof H as H0.
  destruct H as [b c n fo s Hb Hc Hfc Hbnd Hbytes Hmeta Hmarks Hpend Hn Hfo].
  rewrite MarkItem_eq. eexists. split; [reflexivity|].
  destruct (Nat.eqb_spec c BlockSize) as [->|Hne].
  - pose proof (meta_inv_seal H0 (meta_inv_full H0)) as H1.
    apply (meta_inv_mark Hpos Hwrap) in H1. exact H1.
  - apply (@meta_inv_mark bytes marks pending); [lia|assumption|assumption].
Qed.

(** [Append] extends the stream by its data. *)
Lemma appends_meta_inv d w w' :
  appends d w w' ->
  forall bytes marks pending,
    meta_inv bytes marks pending w ->
    meta_inv (bytes ++ d) marks (call_pending pending (CallAppend d)) w'.
Proof.
  induction 1 as [d b c n fo s cl Hfit|d b c n fo s cl w' Hsp Hc Happ IH];
    intros bytes marks pending H.
  - assert (cl = false) by (inversion H; reflexivity). subst cl.
    now apply meta_inv_copy.
  - assert (cl = false) by (inversion H; reflexivity). subst cl.
    assert (Hl : length (firstn (BlockSize - c) d) = BlockSize - c)
      by (rewrite length_firstn; lia).
    assert (Hfit : c + length (firstn (BlockSize - c) d) <= BlockSize)
      by lia.
    pose proof (meta_inv_copy (firstn (BlockSize - c) d) Hfit H) as H1.
    rewrite Hl in H1.
    replace (c + (BlockSize - c)) with BlockSize in H1 by lia.
    pose proof (meta_inv_seal H1 (meta_inv_full H1)) as H2.
    specialize (IH _ _ _ H2).
    rewrite <- app_assoc, firstn_skipn in IH.
    assert (Hrest : skipn (BlockSize - c) d <> []).
    { intros Hnil. apply (f_equal (@length byte)) in Hnil.
      rewrite length_skipn in Hnil. cbn in Hnil. lia. }
    assert (Hd : d <> []) by (intros ->; cbn in Hsp; lia).
    destruct (skipn (BlockSize - c) d) as [|y r]; [congruence|].
    destruct d as [|x d]; [congruence|].
    exact IH.
Qed.

Lemma run_call_meta_inv c bytes marks pending w :
  0 < BlockSize ->
  (N.of_nat (length (marks ++ mark_positions (length bytes) [c]))
   < size_t_modulus)%N ->
  meta_inv bytes marks pending w ->
  exists w',
    run_call c w = Ok w'
    /\ meta_inv (bytes ++ call_data c)
                (marks ++ mark_positions (length bytes) [c])
                (call_pending pending c) w'.
Proof.
  intros Hpos Hwrap H. destruct c as [|d|x]; cbn [run_call call_data].
  - cbn [mark_positions] in *. rewrite app_nil_r.
    rewrite length_app in Hwrap. cbn [length] in Hwrap.
    assert (Hw : (N.of_nat (length marks) + 1 < size_t_modulus)%N) by lia.
    exact (MarkItem_meta_inv Hpos Hw H).
  - cbn [mark_positions]. rewrite app_nil_r.
    pose proof H as H0.
    destruct H as [b c n fo s Hb Hc Hfc Hbnd Hbytes Hmeta Hmarks Hpend
                     Hn Hfo].
    destruct (@Append_appends d b c n fo s Hpos Hb Hc) as [w' [Hrun Happ]].
    exists w'. split; [exact Hrun|].
    exact (appends_meta_inv Happ H0).
  - cbn [mark_positions]. rewrite app_nil_r.
    rewrite PutByte_as_Append by eauto using meta_inv_open.
    pose proof H as H0.
    destruct H as [b c n fo s Hb Hc Hfc Hbnd Hbytes Hmeta Hmarks Hpend
                     Hn Hfo].
    destruct (@Append_appends [x] b c n fo s Hpos Hb Hc)
      as [w' [Hrun Happ]].
    exists w'. split; [exact Hrun|].
    exact (appends_meta_inv Happ H0).
Qed.

Lemma run_calls_meta_inv cs bytes marks pending w :
  0 < BlockSize ->
  (N.of_nat (length (marks ++ mark_positions (length bytes) cs))
   < size_t_modulus)%N ->
  meta_inv bytes marks pending w ->
  exists w',
    run_calls cs w = Ok w'
    /\ meta_inv (bytes ++ calls_data cs)
                (marks ++ mark_positions (length bytes) cs)
                (fold_left call_pending cs pending) w'.
Proof.
  intros Hpos. revert bytes marks pending w.
  induction cs as [|c cs IH]; intros bytes marks pending w Hwrap H.
  - cbn. rewrite !app_nil_r. eauto.
  - change (c :: cs) with ([c] ++ cs) in *.
    rewrite mark_positions_app, app_assoc in *.
    rewrite calls_data_app, app_assoc.
    assert (Hc : calls_data [c] = call_data c)
      by (cbn; apply app_nil_r).
    rewrite Hc in *.
    assert (Hw1 : (N.of_nat (length (marks
                                     ++ mark_positions (length bytes) [c]))
                   < size_t_modulus)%N)
      by (rewrite !length_app in *; lia).
    destruct (@run_call_meta_inv c bytes marks pending w Hpos Hw1 H)
      as [w1 [Hrun1 Hinv1]].
    rewrite <- length_app in *.
    destruct (IH _ _ _ _ Hwrap Hinv1) as [w2 [Hrun2 Hinv2]].
    exists w2. split; [|exact Hinv2].
    cbn [app run_calls]. rewrite Hrun1. exact Hrun2.
Qed.

(** The blocks [AppendBlocks] forwards go to the sink behind the bytes so
    far, the current block being empty and without an item start. *)
Lemma meta_inv_forward bytes marks b fo s
      (vblocks : list VirtualBlock) :
  meta_inv bytes marks false
    (mkWriter (Some b) (Some 0) BlockSize 0%N fo (Some s) false) ->
  meta_inv (bytes ++ sink_bytes (map SinkAppendVBlock vblocks)) marks false
    (mkWriter (Some make_block) (Some 0) BlockSize 0%N 0
              (Some (s ++ map SinkAppendVBlock vblocks)) false).
Proof.
  intros H.
  pose proof (meta_inv_length H) as Hlen.
  inversion H as [b0 c0 n0 fo0 s0 Hb Hc Hfc Hbnd Hbytes Hmeta
                    Hmarks Hpend Hn Hfo].
  clear H. subst b0 c0 n0 fo0 s0.
  assert (Hbefore : Forall (fun p => p < length (sink_bytes s)) marks).
  { assert (Hnone : Forall (fun p => Nat.leb (length (sink_bytes s)) p
                                     = false) marks)
      by (apply filter_none_inv; lia).
    eapply Forall_impl; [|exact Hnone]. cbn beta.
    intros p Hp. now apply Nat.leb_gt in Hp. }
  constructor.
  - apply make_block_length.
  - lia.
  - lia.
  - apply Forall_app. split; [exact Hbnd|].
    apply Forall_forall. intros c Hin. apply in_map_iff in Hin.
    destruct Hin as [vb [<- _]]. exact I.
  - rewrite sink_bytes_app. cbn [firstn] in *.
    rewrite app_nil_r in *. now rewrite Hbytes.
  - rewrite sealed_blocks_app, sealed_blocks_vblocks, app_nil_r.
    exact Hmeta.
  - rewrite sink_bytes_app, !length_app.
    eapply Forall_impl; [|exact Hbefore]. cbn beta. lia.
  - intros _. rewrite length_app.
    eapply Forall_impl; [|exact Hbefore]. cbn beta. lia.
  - rewrite sink_bytes_app, length_app.
    rewrite filter_none; [reflexivity|].
    eapply Forall_impl; [|exact Hbefore]. cbn beta. intros p Hp.
    apply Nat.leb_gt. lia.
  - intros Hn0. now contradiction Hn0.
Qed.


Lemma run_op_meta_inv o bytes marks pending w :
  0 < BlockSize ->
  is_close o = false ->
  (sealing o = true -> pending = false) ->
  (N.of_nat (length (marks ++ mark_positions (length bytes) (op_calls o)))
   < size_t_modulus)%N ->
  meta_inv bytes marks pending w ->
  exists w',
    run_op o w = Ok w'
    /\ meta_inv (bytes ++ op_bytes o)
                (marks ++ mark_positions (length bytes) (op_calls o))
                (if sealing o then false
                 else fold_left call_pending (op_calls o) pending)
                w'.
Proof.
  intros Hpos Hcl Hseal Hwrap H.
  destruct o as [x|c| |vblocks|];
    cbn [run_op op_bytes op_calls sealing] in *.
  - rewrite operator_call_calls by (destruct H; reflexivity).
    unfold item_bytes. now apply run_calls_meta_inv.
  - destruct (@run_call_meta_inv c bytes marks pending w Hpos Hwrap H)
      as [w' [Hrun Hinv]].
    exists w'. split; [exact Hrun|exact Hinv].
  - rewrite (Hseal eq_refl) in H. cbn [mark_positions]. rewrite !app_nil_r.
    pose proof H as H0.
    destruct H as [b c n fo s Hb Hc Hfc Hbnd Hbytes Hmeta Hmarks Hpend
                     Hn Hfo].
    pose proof (meta_inv_length H0) as Hlen.
    rewrite Flush_eq. eexists. split; [reflexivity|].
    apply (meta_inv_seal H0). rewrite <- Hlen. now apply Hpend.
  - rewrite (Hseal eq_refl) in H. cbn [mark_positions]. rewrite app_nil_r.
    pose proof H as H0.
    destruct H as [b c n fo s Hb Hc Hfc Hbnd Hbytes Hmeta Hmarks Hpend
                     Hn Hfo].
    pose proof (meta_inv_length H0) as Hlen.
    rewrite (@AppendBlocks_order_eq vblocks _ b c s);
      [|now constructor|reflexivity|reflexivity|reflexivity].
    cbn [nitems_ first_offset_].
    eexists. split; [reflexivity|].
    destruct ((c =? 0) && (n =? 0)%N) eqn:Hempty.
    + apply andb_prop in Hempty. destruct Hempty as [Hc0 Hn0].
      apply Nat.eqb_eq in Hc0. apply N.eqb_eq in Hn0.
      rewrite app_nil_r. apply (@meta_inv_forward bytes marks b fo).
      rewrite <- Hc0, <- Hn0 at 1. exact H0.
    + apply (@meta_inv_forward bytes marks make_block 0).
      apply (meta_inv_seal H0). rewrite <- Hlen. now apply Hpend.
  - discriminate Hcl.
Qed.

Lemma run_meta_inv ops bytes marks pending w :
  0 < BlockSize ->
  existsb is_close ops = false ->
  no_start_pending pending ops = true ->
  (N.of_nat (length (marks ++ ops_mark_positions (length bytes) ops))
   < size_t_modulus)%N ->
  meta_inv bytes marks pending w ->
  exists w' pending',
    run ops w = Ok w'
    /\ meta_inv (bytes ++ ops_bytes ops)
                (marks ++ ops_mark_positions (length bytes) ops)
                pending' w'
    /\ (no_start_pending pending (ops ++ [OpClose]) = true ->
        pending' = false).
Proof.
  intros Hpos. revert bytes marks pending w.
  induction ops as [|o ops IH]; intros bytes marks pending w Hcl Hnsp Hwrap H.
  - exists w, pending. cbn [run ops_mark_positions app].
    unfold ops_bytes. cbn [flat_map]. rewrite !app_nil_r.
    split; [reflexivity|]. split; [exact H|].
    cbn. destruct pending; [discriminate|reflexivity].
  - cbn [existsb] in Hcl. apply orb_false_elim in Hcl.
    destruct Hcl as [Hcl1 Hcl].
    cbn [ops_mark_positions] in *. rewrite app_assoc in *.
    cbn [no_start_pending app] in *.
    set (pending1 := if sealing o then false
                     else fold_left call_pending (op_calls o) pending).
    assert (Hseal : sealing o = true -> pending = false).
    { intros Hs. rewrite Hs in Hnsp. destruct pending; [discriminate|].
      reflexivity. }
    assert (Hnsp1 : no_start_pending pending1 ops = true).
    { unfold pending1. destruct (sealing o); [|exact Hnsp].
      apply andb_prop in Hnsp. tauto. }
    assert (Hw1 : (N.of_nat (length (marks
                                     ++ mark_positions (length bytes)
                                                       (op_calls o)))
                   < size_t_modulus)%N)
      by (rewrite !length_app in *; lia).
    destruct (@run_op_meta_inv o bytes marks pending w Hpos Hcl1 Hseal
                               Hw1 H) as [w1 [Hrun1 Hinv1]].
    fold pending1 in Hinv1.
    rewrite <- length_app in *.
    destruct (IH _ _ _ _ Hcl Hnsp1 Hwrap Hinv1)
      as [w2 [pending2 [Hrun2 [Hinv2 Hend]]]].
    exists w2, pending2. split; [|split].
    + cbn [run]. rewrite Hrun1. exact Hrun2.
    + unfold ops_bytes in *. cbn [flat_map]. now rewrite app_assoc.
    + intros Hall. apply Hend. unfold pending1.
      destruct (sealing o); [|exact Hall].
      apply andb_prop in Hall. tauto.
Qed.

(** C2 (amended): operations of any kind but [Close] (items, [MarkItem],
    [Append], [PutByte], [Flush], [AppendBlocks]) on a fresh writer with
    a sink, the block of at least one byte and the item starts fewer than
    2^64, no [Flush] and no [AppendBlocks] coming while an item start
    waits for its first byte: every block the writer has sealed to the
    sink has [begin = 0] and an item count that is the number of
    [MarkItem] calls made at a stream position within its valid range,
    and with a count above zero its first item offset lies within the
    valid range and is that of the earliest of them.  The same holds for
    all the sealed blocks after the [Close] that follows, no item start
    waiting for its first byte then either.  The stream position of a
    [MarkItem] is the number of bytes gone to the sink or to the current
    block before it, those of forwarded blocks included: the position of
    the first byte of the item. *)
Theorem C2_block_metadata (ops : list Op) :
  0 < BlockSize ->
  existsb is_close ops = false ->
  (N.of_nat (length (ops_mark_positions 0 ops)) < size_t_modulus)%N ->
  no_start_pending false ops = true ->
  let marks := ops_mark_positions 0 ops in
  (exists w1 sink1,
     run ops (BlockWriterBase (Some [])) = Ok w1
     /\ sink_ w1 = Some sink1
     /\ Forall (block_meta_ok marks) (sealed_blocks 0 sink1))
  /\ (no_start_pending false (ops ++ [OpClose]) = true ->
      exists w' sink,
        run (ops ++ [OpClose]) (BlockWriterBase (Some [])) = Ok w'
        /\ sink_ w' = Some sink
        /\ Forall (block_meta_ok marks) (sealed_blocks 0 sink)).
Proof.
  intros Hpos Hcl Hwrap Hnsp marks.
  destruct (@run_meta_inv ops [] [] false _ Hpos Hcl Hnsp Hwrap
                          meta_inv_init)
    as [w1 [pending1 [Hrun1 [Hinv Hend]]]].
  cbn [app length] in Hinv. fold marks in Hinv.
  split.
  - destruct Hinv as [b c n fo s Hb Hc Hfc Hbnd Hbytes Hmeta Hmarks Hpend
                        Hn Hfo].
    eexists. exists s. split; [exact Hrun1|].
    split; [reflexivity|exact Hmeta].
  - intros Hall. rewrite (Hend Hall) in Hinv.
    rewrite run_app, Hrun1. cbn [bind run run_op].
    pose proof Hinv as H0.
    destruct Hinv as [b c n fo s Hb Hc Hfc Hbnd Hbytes Hmeta Hmarks Hpend
                        Hn Hfo].
    pose proof (meta_inv_length H0) as Hlen.
    rewrite Close_eq. cbn [bind].
    destruct ((c =? 0) && (n =? 0)%N) eqn:Hempty.
    + eexists. eexists. split; [reflexivity|].
      cbn [sink_]. split; [reflexivity|].
      rewrite sealed_blocks_app. unfold sealed_blocks at 2.
      cbn [with_starts filter snd is_append_block].
      now rewrite app_nil_r.
    + eexists. eexists. split; [reflexivity|].
      cbn [sink_]. split; [reflexivity|].
      rewrite sealed_blocks_app. unfold sealed_blocks at 2.
      cbn [with_starts filter snd is_append_block].
      rewrite app_nil_r.
      assert (Hlt : Forall (fun p => p < length (sink_bytes s) + c) marks)
        by (rewrite <- Hlen; now apply Hpend).
      pose proof (meta_inv_seal H0 Hlt) as H1.
      inversion H1. assumption.
Qed.


End BlockWriterBase.

Arguments OpCall {T} c.
Arguments OpFlush {T}.
Arguments OpAppendBlocks {T} vblocks.
Arguments OpClose {T}.

(** * The claims at concrete inputs

    Blocks of four bytes, no self-verification, and items given by the
    calls that serialize them. *)

(** A witness of C1: three items of 5, 5 and 3 bytes. *)
Lemma C1_witness :
  0 < 4
  /\ exists w' sink,
       run 4 false [] (fun x : list WriteCall => x)
           (map (@OpItem _)
                [[CallAppend (repeat "001"%byte 5)];
                 [CallAppend (repeat "002"%byte 5)];
                 [CallPutByte "003"%byte;
                  CallAppend (repeat "004"%byte 2)]]
              ++ [OpClose])
           (BlockWriterBase 4 (Some []))
       = Ok w'
       /\ sink_ w' = Some sink
       /\ sink_bytes sink
          = items_bytes false [] (fun x : list WriteCall => x)
              [[CallAppend (repeat "001"%byte 5)];
               [CallAppend (repeat "002"%byte 5)];
               [CallPutByte "003"%byte;
                CallAppend (repeat "004"%byte 2)]].
Proof.
  split; [lia|].
  apply (@C1_sink_bytes_are_item_bytes 4 false (list WriteCall) []
           (fun x => x)).
  lia.
Defined.

(** A witness of the amended C2: two bytes ahead of the first item, an
    item of 3 bytes, a [Flush], a forwarded block of two valid bytes,
    then items of 5, 0 and 1 bytes; the item starts are at the stream
    positions 2, 7, 12 and 12. *)
Lemma C2_witness :
  0 < 4
  /\ existsb (@is_close (list WriteCall))
       [OpCall (CallAppend (repeat "009"%byte 2));
        OpItem [CallAppend (repeat "001"%byte 3)];
        OpFlush;
        OpAppendBlocks [mkVirtualBlock (repeat "007"%byte 4) 1 3 0 0%N];
        OpItem [CallAppend (repeat "002"%byte 5)];
        OpItem [];
        OpItem [CallPutByte "003"%byte]]
     = false
  /\ (N.of_nat
        (length
           (ops_mark_positions false [] (fun x : list WriteCall => x) 0
              [OpCall (CallAppend (repeat "009"%byte 2));
               OpItem [CallAppend (repeat "001"%byte 3)];
               OpFlush;
               OpAppendBlocks
                 [mkVirtualBlock (repeat "007"%byte 4) 1 3 0 0%N];
               OpItem [CallAppend (repeat "002"%byte 5)];
               OpItem [];
               OpItem [CallPutByte "003"%byte]]))
      < size_t_modulus)%N
  /\ no_start_pending false [] (fun x : list WriteCall => x) false
       [OpCall (CallAppend (repeat "009"%byte 2));
        OpItem [CallAppend (repeat "001"%byte 3)];
        OpFlush;
        OpAppendBlocks [mkVirtualBlock (repeat "007"%byte 4) 1 3 0 0%N];
        OpItem [CallAppend (repeat "002"%byte 5)];
        OpItem [];
        OpItem [CallPutByte "003"%byte]]
     = true
  /\ no_start_pending false [] (fun x : list WriteCall => x) false
       ([OpCall (CallAppend (repeat "009"%byte 2));
         OpItem [CallAppend (repeat "001"%byte 3)];
         OpFlush;
         OpAppendBlocks [mkVirtualBlock (repeat "007"%byte 4) 1 3 0 0%N];
         OpItem [CallAppend (repeat "002"%byte 5)];
         OpItem [];
         OpItem [CallPutByte "003"%byte]] ++ [OpClose])
     = true
  /\ let marks :=
       ops_mark_positions false [] (fun x : list WriteCall => x) 0
         [OpCall (CallAppend (repeat "009"%byte 2));
          OpItem [CallAppend (repeat "001"%byte 3)];
          OpFlush;
          OpAppendBlocks [mkVirtualBlock (repeat "007"%byte 4) 1 3 0 0%N];
          OpItem [CallAppend (repeat "002"%byte 5)];
          OpItem [];
          OpItem [CallPutByte "003"%byte]] in
     (exists w1 sink1,
        run 4 false [] (fun x : list WriteCall => x)
            [OpCall (CallAppend (repeat "009"%byte 2));
             OpItem [CallAppend (repeat "001"%byte 3)];
             OpFlush;
             OpAppendBlocks
               [mkVirtualBlock (repeat "007"%byte 4) 1 3 0 0%N];
             OpItem [CallAppend (repeat "002"%byte 5)];
             OpItem [];
             OpItem [CallPutByte "003"%byte]]
            (BlockWriterBase 4 (Some []))
        = Ok w1
        /\ sink_ w1 = Some sink1
        /\ Forall (block_meta_ok marks) (sealed_blocks 0 sink1))
     /\ (no_start_pending false [] (fun x : list WriteCall => x) false
           ([OpCall (CallAppend (repeat "009"%byte 2));
             OpItem [CallAppend (repeat "001"%byte 3)];
             OpFlush;
             OpAppendBlocks
               [mkVirtualBlock (repeat "007"%byte 4) 1 3 0 0%N];
             OpItem [CallAppend (repeat "002"%byte 5)];
             OpItem [];
             OpItem [CallPutByte "003"%byte]] ++ [OpClose])
         = true ->
         exists w' sink,
           run 4 false [] (fun x : list WriteCall => x)
               ([OpCall (CallAppend (repeat "009"%byte 2));
                 OpItem [CallAppend (repeat "001"%byte 3)];
                 OpFlush;
                 OpAppendBlocks
                   [mkVirtualBlock (repeat "007"%byte 4) 1 3 0 0%N];
                 OpItem [CallAppend (repeat "002"%byte 5)];
                 OpItem [];
                 OpItem [CallPutByte "003"%byte]] ++ [OpClose])
               (BlockWriterBase 4 (Some []))
           = Ok w'
           /\ sink_ w' = Some sink
           /\ Forall (block_meta_ok marks) (sealed_blocks 0 sink)).
Proof.
  assert (H1 : 0 < 4) by lia.
  assert (H2 : existsb (@is_close (list WriteCall))
                 [OpCall (CallAppend (repeat "009"%byte 2));
                  OpItem [CallAppend (repeat "001"%byte 3)];
                  OpFlush;
                  OpAppendBlocks
                    [mkVirtualBlock (repeat "007"%byte 4) 1 3 0 0%N];
                  OpItem [CallAppend (repeat "002"%byte 5)];
                  OpItem [];
                  OpItem [CallPutByte "003"%byte]]
               = false)
    by reflexivity.
  assert (H3 : (N.of_nat
                  (length
                     (ops_mark_positions false []
                        (fun x : list WriteCall => x) 0
                        [OpCall (CallAppend (repeat "009"%byte 2));
                         OpItem [CallAppend (repeat "001"%byte 3)];
                         OpFlush;
                         OpAppendBlocks
                           [mkVirtualBlock (repeat "007"%byte 4) 1 3 0 0%N];
                         OpItem [CallAppend (repeat "002"%byte 5)];
                         OpItem [];
                         OpItem [CallPutByte "003"%byte]]))
                < size_t_modulus)%N)
    by (vm_compute; reflexivity).
  assert (H4 : no_start_pending false [] (fun x : list WriteCall => x)
                 false
                 [OpCall (CallAppend (repeat "009"%byte 2));
                  OpItem [CallAppend (repeat "001"%byte 3)];
                  OpFlush;
                  OpAppendBlocks
                    [mkVirtualBlock (repeat "007"%byte 4) 1 3 0 0%N];
                  OpItem [CallAppend (repeat "002"%byte 5)];
                  OpItem [];
                  OpItem [CallPutByte "003"%byte]]
               = true)
    by reflexivity.
  assert (H5 : no_start_pending false [] (fun x : list WriteCall => x)
                 false
                 ([OpCall (CallAppend (repeat "009"%byte 2));
                   OpItem [CallAppend (repeat "001"%byte 3)];
                   OpFlush;
                   OpAppendBlocks
                     [mkVirtualBlock (repeat "007"%byte 4) 1 3 0 0%N];
                   OpItem [CallAppend (repeat "002"%byte 5)];
                   OpItem [];
                   OpItem [CallPutByte "003"%byte]] ++ [OpClose])
               = true)
    by reflexivity.
  exact (conj H1 (conj H2 (conj H3 (conj H4 (conj H5
           (@C2_block_metadata 4 false (list WriteCall) []
              (fun x => x) _ H1 H2 H3 H4)))))).
Defined.

(** The blocks of that run, and the item starts they were sealed with:
    the start of the item of no byte is counted with that of the item
    behind it, whose byte is its first. *)
Example scenario_all_operations :
  exists w',
    run 4 false [] (fun x : list WriteCall => x)
        [OpCall (CallAppend (repeat "009"%byte 2));
         OpItem [CallAppend (repeat "001"%byte 3)];
         OpFlush;
         OpAppendBlocks [mkVirtualBlock (repeat "007"%byte 4) 1 3 0 0%N];
         OpItem [CallAppend (repeat "002"%byte 5)];
         OpItem [];
         OpItem [CallPutByte "003"%byte];
         OpClose]
        (BlockWriterBase 4 (Some []))
    = Ok w'
    /\ ops_mark_positions false [] (fun x : list WriteCall => x) 0
         [OpCall (CallAppend (repeat "009"%byte 2));
          OpItem [CallAppend (repeat "001"%byte 3)];
          OpFlush;
          OpAppendBlocks [mkVirtualBlock (repeat "007"%byte 4) 1 3 0 0%N];
          OpItem [CallAppend (repeat "002"%byte 5)];
          OpItem [];
          OpItem [CallPutByte "003"%byte]]
       = [2; 7; 12; 12]
    /\ exists b1 b2 b3 b4,
         option_map (sealed_blocks 0) (sink_ w')
         = Some [(0, SinkAppendBlock b1 0 4 2 1%N);
                 (4, SinkAppendBlock b2 0 1 0 0%N);
                 (7, SinkAppendBlock b3 0 4 0 1%N);
                 (11, SinkAppendBlock b4 0 2 1 2%N)].
Proof.
  eexists. split; [vm_compute; reflexivity|].
  split; [reflexivity|].
  do 4 eexists. vm_compute. reflexivity.
Qed.

(** C2 as stated fails for an item of no byte: the block [Close] seals
    counts its start, and has no valid byte for it to fall in. *)
Lemma C2_counterexample :
  exists w' blocks,
    run 4 false [] (fun x : list WriteCall => x)
        (map (@OpItem _) [[]] ++ [OpClose])
        (BlockWriterBase 4 (Some []))
    = Ok w'
    /\ sink_ w' = Some (blocks ++ [SinkClose])
    /\ ~ Forall
           (block_meta_ok
              (mark_positions 0
                 (items_calls false [] (fun x : list WriteCall => x) [[]])))
           (with_starts 0 blocks).
Proof.
  eexists. exists [SinkAppendBlock (repeat "000"%byte 4) 0 0 0 1%N].
  split; [vm_compute; reflexivity|]. split; [reflexivity|].
  intros H. apply Forall_inv in H. cbn in H.
  destruct H as (_ & Hn & _). discriminate Hn.
Qed.

(** Where the amended C2 stops: a [Flush] while an item start waits for
    its first byte.  The start is counted in the block the [Flush]
    seals, whose valid range ends before it, and not in the block its
    first byte goes to. *)
Example scenario_start_pending_at_Flush :
  no_start_pending false [] (fun x : list WriteCall => x) false
    [OpItem [CallAppend (repeat "001"%byte 3)];
     OpCall CallMarkItem;
     OpFlush;
     OpCall (CallAppend (repeat "002"%byte 1));
     OpClose]
  = false
  /\ ops_mark_positions false [] (fun x : list WriteCall => x) 0
       [OpItem [CallAppend (repeat "001"%byte 3)];
        OpCall CallMarkItem;
        OpFlush;
        OpCall (CallAppend (repeat "002"%byte 1))]
     = [0; 3]
  /\ exists w' b1 b2,
       run 4 false [] (fun x : list WriteCall => x)
           [OpItem [CallAppend (repeat "001"%byte 3)];
            OpCall CallMarkItem;
            OpFlush;
            OpCall (CallAppend (repeat "002"%byte 1));
            OpClose]
           (BlockWriterBase 4 (Some []))
       = Ok w'
       /\ sink_ w' = Some [SinkAppendBlock b1 0 3 0 2%N;
                           SinkAppendBlock b2 0 1 0 0%N;
                           SinkClose]
       /\ ~ block_meta_ok [0; 3] (0, SinkAppendBlock b1 0 3 0 2%N)
       /\ ~ block_meta_ok [0; 3] (3, SinkAppendBlock b2 0 1 0 0%N).
Proof.
  split; [reflexivity|]. split; [reflexivity|].
  do 3 eexists. split; [vm_compute; reflexivity|].
  split; [reflexivity|]. split.
  - cbn. intros (_ & Hn & _). discriminate Hn.
  - cbn. intros (_ & Hn & _). discriminate Hn.
Qed.

(** A witness of the amended C3: an item of 9 = 2 * 4 + 1 bytes that
    starts a nested item behind its second byte. *)
Lemma C3_witness :
  0 < 4
  /\ 1 < 4
  /\ (N.of_nat
        (length
           (mark_positions 0
              (item_calls false [] (fun x : list WriteCall => x)
                 [CallAppend (repeat "001"%byte 2);
                  CallMarkItem;
                  CallAppend (repeat "002"%byte 7)])))
      < size_t_modulus)%N
  /\ length (item_bytes false [] (fun x : list WriteCall => x)
               [CallAppend (repeat "001"%byte 2);
                CallMarkItem;
                CallAppend (repeat "002"%byte 7)])
     = 2 * 4 + 1
  /\ exists w' sink,
       run 4 false [] (fun x : list WriteCall => x)
           [OpItem [CallAppend (repeat "001"%byte 2);
                    CallMarkItem;
                    CallAppend (repeat "002"%byte 7)];
            OpClose]
           (BlockWriterBase 4 (Some []))
       = Ok w'
       /\ sink_ w' = Some sink
       /\ sink_bytes sink
          = item_bytes false [] (fun x : list WriteCall => x)
              [CallAppend (repeat "001"%byte 2);
               CallMarkItem;
               CallAppend (repeat "002"%byte 7)]
       /\ sealed_count sink
          = 2 + (if (0 <? 1)
                    || existsb
                         (Nat.eqb
                            (length
                               (item_bytes false []
                                  (fun x : list WriteCall => x)
                                  [CallAppend (repeat "001"%byte 2);
                                   CallMarkItem;
                                   CallAppend (repeat "002"%byte 7)])))
                         (mark_positions 0
                            (item_calls false []
                               (fun x : list WriteCall => x)
                               [CallAppend (repeat "001"%byte 2);
                                CallMarkItem;
                                CallAppend (repeat "002"%byte 7)]))
                 then 1 else 0)
       /\ (Forall
             (fun p =>
                p < length
                      (item_bytes false [] (fun x : list WriteCall => x)
                         [CallAppend (repeat "001"%byte 2);
                          CallMarkItem;
                          CallAppend (repeat "002"%byte 7)]))
             (mark_positions 0
                (item_calls false [] (fun x : list WriteCall => x)
                   [CallAppend (repeat "001"%byte 2);
                    CallMarkItem;
                    CallAppend (repeat "002"%byte 7)])) ->
           sealed_count sink = 2 + (if 0 <? 1 then 1 else 0))
       /\ (length (item_bytes false [] (fun x : list WriteCall => x)
                     [CallAppend (repeat "001"%byte 2);
                      CallMarkItem;
                      CallAppend (repeat "002"%byte 7)])
           = 0 ->
           exists b,
             sink
             = [SinkAppendBlock b 0 0 0
                  (N.of_nat
                     (length
                        (mark_positions 0
                           (item_calls false []
                              (fun x : list WriteCall => x)
                              [CallAppend (repeat "001"%byte 2);
                               CallMarkItem;
                               CallAppend (repeat "002"%byte 7)]))));
                SinkClose])
       /\ (forallb is_data_call
             ((fun x : list WriteCall => x)
                [CallAppend (repeat "001"%byte 2);
                 CallMarkItem;
                 CallAppend (repeat "002"%byte 7)])
           = true ->
           mark_positions 0
             (item_calls false [] (fun x : list WriteCall => x)
                [CallAppend (repeat "001"%byte 2);
                 CallMarkItem;
                 CallAppend (repeat "002"%byte 7)])
           = [0]).
Proof.
  assert (H1 : 0 < 4) by lia.
  assert (H2 : 1 < 4) by lia.
  assert (H3 : (N.of_nat
                  (length
                     (mark_positions 0
                        (item_calls false [] (fun x : list WriteCall => x)
                           [CallAppend (repeat "001"%byte 2);
                            CallMarkItem;
                            CallAppend (repeat "002"%byte 7)])))
                < size_t_modulus)%N)
    by (vm_compute; reflexivity).
  assert (H4 : length (item_bytes false [] (fun x : list WriteCall => x)
                         [CallAppend (repeat "001"%byte 2);
                          CallMarkItem;
                          CallAppend (repeat "002"%byte 7)])
               = 2 * 4 + 1)
    by reflexivity.
  exact (conj H1 (conj H2 (conj H3 (conj H4
           (@C3_single_item_blocks 4 false (list WriteCall) []
              (fun x => x) _ 2 1 H1 H2 H3 H4))))).
Defined.

(** C3 as stated fails for N = 0 and k = 0: an item of no byte gives one
    block, not none. *)
Lemma C3_counterexample :
  exists w' sink,
    length (item_bytes false [] (fun x : list WriteCall => x) [])
    = 0 * 4 + 0
    /\ run 4 false [] (fun x : list WriteCall => x)
           [OpItem []; OpClose] (BlockWriterBase 4 (Some []))
       = Ok w'
    /\ sink_ w' = Some sink
    /\ sealed_count sink = 1
    /\ sealed_count sink <> 0 + (if 0 <? 0 then 1 else 0).
Proof.
  eexists. eexists. split; [reflexivity|].
  split; [vm_compute; reflexivity|]. split; [reflexivity|].
  split; [reflexivity|]. cbn. discriminate.
Qed.

(** Where the amended C3 gives one block more than N + (1 if k > 0): an
    item of 4 = 1 * 4 + 0 bytes that starts a nested item behind its last
    byte.  The full block is sealed by the nested [MarkItem], and [Close]
    seals the block of that start. *)
Example scenario_start_at_the_end_of_an_item :
  exists w' sink,
    run 4 false [] (fun x : list WriteCall => x)
        [OpItem [CallAppend (repeat "001"%byte 4); CallMarkItem]; OpClose]
        (BlockWriterBase 4 (Some []))
    = Ok w'
    /\ sink_ w' = Some sink
    /\ mark_positions 0
         (item_calls false [] (fun x : list WriteCall => x)
            [CallAppend (repeat "001"%byte 4); CallMarkItem])
       = [0; 4]
    /\ sealed_count sink = 2.
Proof.
  eexists. eexists. split; [vm_compute; reflexivity|].
  split; [reflexivity|]. split; reflexivity.
Qed.

(** A witness of the amended C4: [Flush] on the writer as constructed. *)
Lemma C4_witness :
  open_writer 4 (BlockWriterBase 4 (Some []))
  /\ block_ (BlockWriterBase 4 (Some [])) = Some (make_block 4)
  /\ current_ (BlockWriterBase 4 (Some [])) = Some 0
  /\ nitems_ (BlockWriterBase 4 (Some [])) = 0%N
  /\ sink_ (BlockWriterBase 4 (Some [])) = Some []
  /\ Flush 4 (BlockWriterBase 4 (Some []))
     = Ok (mkWriter (Some (make_block 4)) (Some 0) 4 0%N 0
             (Some ([] ++ [SinkAppendBlock (make_block 4) 0 0
                             (first_offset_ (BlockWriterBase 4 (Some [])))
                             0%N]))
             false).
Proof.
  assert (H1 : open_writer 4 (BlockWriterBase 4 (Some [])))
    by (constructor; [reflexivity|lia]).
  exact (conj H1 (conj eq_refl (conj eq_refl (conj eq_refl (conj eq_refl
           (@C4_Flush_of_empty_block 4 (BlockWriterBase 4 (Some []))
              (make_block 4) [] H1 eq_refl eq_refl eq_refl eq_refl)))))).
Defined.

(** C4 as stated fails on the writer as constructed: its [Flush] makes one
    [AppendBlock] call, not none. *)
Lemma C4_counterexample :
  exists w' s,
    Flush 4 (BlockWriterBase 4 (Some [])) = Ok w'
    /\ sink_ w' = Some s
    /\ sealed_count s = 1
    /\ s <> [].
Proof.
  eexists. eexists. split; [reflexivity|]. split; [reflexivity|].
  split; [reflexivity|]. discriminate.
Qed.

(** A witness of the amended C5: a byte, a flush, an item of one byte, a
    flush. *)
Lemma C5_witness :
  (N.of_nat
     (ops_marks false [] (fun x : list WriteCall => x)
        [OpCall (CallPutByte "001"%byte); OpFlush; OpCall CallMarkItem;
         OpCall (CallPutByte "002"%byte); OpFlush])
   < size_t_modulus)%N
  /\ run 4 false [] (fun x : list WriteCall => x)
         [OpCall (CallPutByte "001"%byte); OpFlush; OpCall CallMarkItem;
          OpCall (CallPutByte "002"%byte); OpFlush]
         (BlockWriterBase 4 (Some []))
     = Ok (mkWriter (Some (make_block 4)) (Some 0) 4 0%N 0
             (Some [SinkAppendBlock
                      ["001"%byte; "000"%byte; "000"%byte; "000"%byte]
                      0 1 0 0%N;
                    SinkAppendBlock
                      ["002"%byte; "000"%byte; "000"%byte; "000"%byte]
                      0 1 0 1%N])
             false)
  /\ sink_ (mkWriter (Some (make_block 4)) (Some 0) 4 0%N 0
              (Some [SinkAppendBlock
                       ["001"%byte; "000"%byte; "000"%byte; "000"%byte]
                       0 1 0 0%N;
                     SinkAppendBlock
                       ["002"%byte; "000"%byte; "000"%byte; "000"%byte]
                       0 1 0 1%N])
              false)
     = Some [SinkAppendBlock
               ["001"%byte; "000"%byte; "000"%byte; "000"%byte] 0 1 0 0%N;
             SinkAppendBlock
               ["002"%byte; "000"%byte; "000"%byte; "000"%byte] 0 1 0 1%N]
  /\ Forall call_zero_ok
       [SinkAppendBlock
          ["001"%byte; "000"%byte; "000"%byte; "000"%byte] 0 1 0 0%N;
        SinkAppendBlock
          ["002"%byte; "000"%byte; "000"%byte; "000"%byte] 0 1 0 1%N].
Proof.
  assert (H1 : (N.of_nat
                  (ops_marks false [] (fun x : list WriteCall => x)
                     [OpCall (CallPutByte "001"%byte); OpFlush;
                      OpCall CallMarkItem;
                      OpCall (CallPutByte "002"%byte); OpFlush])
                < size_t_modulus)%N)
    by (vm_compute; reflexivity).
  assert (H2 : run 4 false [] (fun x : list WriteCall => x)
                   [OpCall (CallPutByte "001"%byte); OpFlush;
                    OpCall CallMarkItem;
                    OpCall (CallPutByte "002"%byte); OpFlush]
                   (BlockWriterBase 4 (Some []))
               = Ok (mkWriter (Some (make_block 4)) (Some 0) 4 0%N 0
                       (Some [SinkAppendBlock
                                ["001"%byte; "000"%byte; "000"%byte;
                                 "000"%byte] 0 1 0 0%N;
                              SinkAppendBlock
                                ["002"%byte; "000"%byte; "000"%byte;
                                 "000"%byte] 0 1 0 1%N])
                       false))
    by (vm_compute; reflexivity).
  exact (conj H1 (conj H2 (conj eq_refl
           (@C5_first_offset_zero_without_items 4 false (list WriteCall) []
              (fun x => x) _ _ _ H1 H2 eq_refl)))).
Defined.

(** C5 as stated fails: the block sealed with no item start and the block
    sealed with an item at its first byte carry the same first item offset;
    only the item count tells them apart. *)
Lemma C5_counterexample :
  exists w' b1 b2 first1 first2,
    run 4 false [] (fun x : list WriteCall => x)
        [OpCall (CallPutByte "001"%byte); OpFlush; OpCall CallMarkItem;
         OpCall (CallPutByte "002"%byte); OpFlush]
        (BlockWriterBase 4 (Some []))
    = Ok w'
    /\ mark_positions 0
         [CallPutByte "001"%byte; CallMarkItem; CallPutByte "002"%byte]
       = [1]
    /\ sink_ w' = Some [SinkAppendBlock b1 0 1 first1 0%N;
                        SinkAppendBlock b2 0 1 first2 1%N]
    /\ first1 = first2.
Proof.
  do 5 eexists. split; [vm_compute; reflexivity|].
  split; [reflexivity|]. split; reflexivity.
Qed.

(** A witness of C6: the writer constructed without a sink. *)
Lemma C6_witness :
  open_writer 4 (BlockWriterBase 4 None)
  /\ sink_ (BlockWriterBase 4 None) = None
  /\ Flush 4 (BlockWriterBase 4 None) = Fail NullSink
  /\ (current_ (BlockWriterBase 4 None) <> Some 0
      \/ nitems_ (BlockWriterBase 4 None) <> 0%N ->
      Close (BlockWriterBase 4 None) = Fail NullSink)
  /\ (current_ (BlockWriterBase 4 None) = Some 0 ->
      nitems_ (BlockWriterBase 4 None) = 0%N ->
      Close (BlockWriterBase 4 None)
      = Ok (set_closed true (BlockWriterBase 4 None))).
Proof.
  assert (H1 : open_writer 4 (BlockWriterBase 4 None))
    by (constructor; [reflexivity|lia]).
  exact (conj H1 (conj eq_refl
           (@C6_null_sink_is_dereferenced 4 (BlockWriterBase 4 None)
              H1 eq_refl))).
Defined.

(** The failing inputs of C6: a [Flush] right after construction, and a
    [Close] after one byte, on a writer without a sink. *)
Lemma C6_null_sink_runs :
  run 4 false [] (fun x : list WriteCall => x) [OpFlush]
      (BlockWriterBase 4 None)
  = Fail NullSink
  /\ run 4 false [] (fun x : list WriteCall => x)
         [OpCall (CallPutByte "001"%byte); OpClose]
         (BlockWriterBase 4 None)
     = Fail NullSink.
Proof. split; reflexivity. Qed.

(** A witness of C7: a writer with one item of one byte in its block. *)
Lemma C7_witness :
  open_writer 4
    (mkWriter (Some ["001"%byte; "000"%byte; "000"%byte; "000"%byte])
              (Some 1) 4 1%N 0 (Some []) false)
  /\ block_
       (mkWriter (Some ["001"%byte; "000"%byte; "000"%byte; "000"%byte])
                 (Some 1) 4 1%N 0 (Some []) false)
     = Some ["001"%byte; "000"%byte; "000"%byte; "000"%byte]
  /\ current_
       (mkWriter (Some ["001"%byte; "000"%byte; "000"%byte; "000"%byte])
                 (Some 1) 4 1%N 0 (Some []) false)
     = Some 1
  /\ sink_
       (mkWriter (Some ["001"%byte; "000"%byte; "000"%byte; "000"%byte])
                 (Some 1) 4 1%N 0 (Some []) false)
     = Some []
  /\ exists w1,
       Close (mkWriter (Some ["001"%byte; "000"%byte; "000"%byte;
                              "000"%byte])
                       (Some 1) 4 1%N 0 (Some []) false)
       = Ok w1
       /\ sink_ w1
          = Some ([] ++ (if (1 =? 0) && (1 =? 0)%N then []
                         else [SinkAppendBlock
                                 ["001"%byte; "000"%byte; "000"%byte;
                                  "000"%byte] 0 1 0 1%N])
                    ++ [SinkClose])
       /\ closed_ w1 = true
       /\ Close w1 = Ok w1
       /\ Destroy w1 = Ok w1.
Proof.
  assert (H1 : open_writer 4
                 (mkWriter (Some ["001"%byte; "000"%byte; "000"%byte;
                                  "000"%byte])
                           (Some 1) 4 1%N 0 (Some []) false))
    by (constructor; [reflexivity|lia]).
  exact (conj H1 (conj eq_refl (conj eq_refl (conj eq_refl
           (@C7_Close_is_idempotent 4 _ _ _ _ H1
              eq_refl eq_refl eq_refl))))).
Defined.

(** A witness of C8, the failing input: construct, [Close], [MarkItem]. *)
Lemma C8_witness :
  0 < 4
  /\ exists w1 w2,
       Close (BlockWriterBase 4 (Some [])) = Ok w1
       /\ closed_ w1 = true
       /\ (forall d, Append 4 d w1 = Fail AssertionFailed)
       /\ (forall x, PutByte 4 x w1 = Fail AssertionFailed)
       /\ (forall x : list WriteCall,
              operator_call 4 false [] (fun x => x) x w1
              = Fail AssertionFailed)
       /\ MarkItem 4 w1 = Ok w2
       /\ nitems_ w2 = 1%N
       /\ sink_ w2 = Some ([] ++ [SinkClose]).
Proof.
  assert (H1 : 0 < 4) by lia.
  exact (conj H1
           (@C8_MarkItem_after_Close_goes_through 4 false (list WriteCall)
              [] (fun x => x) [] H1)).
Defined.

(** A witness of C9: a writer whose block is full. *)
Lemma C9_witness :
  0 < 4
  /\ open_writer 4
       (mkWriter (Some ["001"%byte; "002"%byte; "003"%byte; "004"%byte])
                 (Some 4) 4 1%N 0 (Some []) false)
  /\ PutByte 4 "005"%byte
       (mkWriter (Some ["001"%byte; "002"%byte; "003"%byte; "004"%byte])
                 (Some 4) 4 1%N 0 (Some []) false)
     = Append 4 ["005"%byte]
         (mkWriter (Some ["001"%byte; "002"%byte; "003"%byte; "004"%byte])
                   (Some 4) 4 1%N 0 (Some []) false).
Proof.
  assert (H1 : 0 < 4) by lia.
  assert (H2 : open_writer 4
                 (mkWriter (Some ["001"%byte; "002"%byte; "003"%byte;
                                  "004"%byte])
                           (Some 4) 4 1%N 0 (Some []) false))
    by (constructor; [reflexivity|lia]).
  exact (conj H1 (conj H2
           (@C9_PutByte_is_Append_of_one_byte 4 "005"%byte _ H1 H2))).
Defined.

(** A witness of the amended C10: after an [Append] of four bytes. *)
Lemma C10_witness :
  0 < 4
  /\ existsb (@is_close (list WriteCall))
       [OpCall (CallAppend (repeat "001"%byte 4))] = false
  /\ exists w b c s,
       run 4 false [] (fun x : list WriteCall => x)
           [OpCall (CallAppend (repeat "001"%byte 4))]
           (BlockWriterBase 4 (Some []))
       = Ok w
       /\ open_writer 4 w
       /\ block_ w = Some b /\ length b = 4
       /\ current_ w = Some c /\ c <= 4
       /\ sink_ w = Some s
       /\ (c = 4 ->
           let sealed :=
             s ++ [SinkAppendBlock b 0 4 (first_offset_ w) (nitems_ w)] in
           Append 4 [] w = Ok w
           /\ (exists w1, MarkItem 4 w = Ok w1
                          /\ sink_ w1 = Some sealed
                          /\ current_ w1 = Some 0)
           /\ (forall x, exists w1, PutByte 4 x w = Ok w1
                                    /\ sink_ w1 = Some sealed
                                    /\ current_ w1 = Some 1)
           /\ (forall x d, exists w1 rest,
                  Append 4 (x :: d) w = Ok w1
                  /\ sink_ w1 = Some (sealed ++ rest)
                  /\ current_ w1 <> Some 0)).
Proof.
  assert (H1 : 0 < 4) by lia.
  assert (H2 : existsb (@is_close (list WriteCall))
                 [OpCall (CallAppend (repeat "001"%byte 4))] = false)
    by reflexivity.
  exact (conj H1 (conj H2
           (@C10_full_block_is_sealed_by_the_next_write 4 false
              (list WriteCall) [] (fun x => x) _ [] H1 H2))).
Defined.

(** C10 as stated fails: an [Append] that fills the block exactly leaves
    the cursor at the limit with nothing sealed, and a further [Append] of
    no byte keeps the full block as it is. *)
Lemma C10_counterexample :
  exists w,
    run 4 false [] (fun x : list WriteCall => x)
        [OpCall (CallAppend (repeat "001"%byte 4))]
        (BlockWriterBase 4 (Some []))
    = Ok w
    /\ closed_ w = false
    /\ current_ w = Some (end_ w)
    /\ block_ w = Some (repeat "001"%byte 4)
    /\ sink_ w = Some []
    /\ run 4 false [] (fun x : list WriteCall => x)
           [OpCall (CallAppend [])] w
       = Ok w.
Proof.
  eexists. split; [vm_compute; reflexivity|].
  repeat split; reflexivity.
Qed.

(** * A block of no byte

    With [BlockSize = 0] the loop of [Append] never exits once there is a
    byte to write: whatever the bound, it is used up. *)
Lemma Append_loop_without_capacity (fuel : nat) (x : byte) (d : list byte)
      (n : N) (fo : nat) (s : BlockSink) (cl : bool) :
  Append_loop 0 fuel (x :: d)
    (mkWriter (Some []) (Some 0) 0 n fo (Some s) cl)
  = Fail Diverges.
Proof.
  revert n fo s. induction fuel as [|fuel IH]; intros n fo s.
  - reflexivity.
  - cbn -[Append_loop]. cbn [Append_loop current_ end_ length].
    cbn -[Append_loop]. apply IH.
Qed.

(** * Two scenarios of the specification *)

(** Blocks of 16 bytes and three items of 5, 5 and 10 bytes: the first
    block is sealed with 16 valid bytes, first item offset 0 and 3 items;
    the second block holds the last 4 bytes of the third item and no item
    start. *)
Example scenario_three_items :
  run 16 false [] (fun x : list WriteCall => x)
      [OpItem [CallAppend (repeat "001"%byte 5)];
       OpItem [CallAppend (repeat "002"%byte 5)];
       OpItem [CallAppend (repeat "003"%byte 10)]]
      (BlockWriterBase 16 (Some []))
  = Ok (mkWriter
          (Some (repeat "003"%byte 4 ++ repeat "000"%byte 12))
          (Some 4) 16 0%N 0
          (Some [SinkAppendBlock
                   (repeat "001"%byte 5 ++ repeat "002"%byte 5
                      ++ repeat "003"%byte 6)
                   0 16 0 3%N])
          false).
Proof. vm_compute. reflexivity. Qed.

(** [AppendBlocks] with two virtual blocks while three bytes are pending:
    the sink receives the pending block first, then the two blocks in
    their order, and the writer goes on in a fresh block. *)
Example scenario_append_blocks (vb1 vb2 : VirtualBlock) :
  run 4 false [] (fun x : list WriteCall => x)
      [OpCall (CallAppend (repeat "001"%byte 3)); OpAppendBlocks [vb1; vb2]]
      (BlockWriterBase 4 (Some []))
  = Ok (mkWriter (Some (make_block 4)) (Some 0) 4 0%N 0
          (Some [SinkAppendBlock
                   (repeat "001"%byte 3 ++ ["000"%byte]) 0 3 0 0%N;
                 SinkAppendVBlock vb1;
                 SinkAppendVBlock vb2])
          false).
Proof. reflexivity. Qed.

(** * The further properties at concrete inputs *)

(** A witness of [Append_app]: two and three bytes at cursor 3 of 4. *)
Lemma Append_app_witness :
  0 < 4
  /\ open_writer 4
       (mkWriter (Some (repeat "000"%byte 4)) (Some 3) 4 0%N 0 (Some [])
                 false)
  /\ IsValid
       (mkWriter (Some (repeat "000"%byte 4)) (Some 3) 4 0%N 0 (Some [])
                 false) = true
  /\ Append 4 []
       (mkWriter (Some (repeat "000"%byte 4)) (Some 3) 4 0%N 0 (Some [])
                 false)
     = Ok (mkWriter (Some (repeat "000"%byte 4)) (Some 3) 4 0%N 0 (Some [])
                    false)
  /\ Append 4 (["001"%byte; "002"%byte]
                 ++ ["003"%byte; "004"%byte; "005"%byte])
       (mkWriter (Some (repeat "000"%byte 4)) (Some 3) 4 0%N 0 (Some [])
                 false)
     = (w1 <- Append 4 ["001"%byte; "002"%byte]
                (mkWriter (Some (repeat "000"%byte 4)) (Some 3) 4 0%N 0
                          (Some []) false) ;;
        Append 4 ["003"%byte; "004"%byte; "005"%byte] w1).
Proof.
  assert (H1 : 0 < 4) by lia.
  assert (H2 : open_writer 4
                 (mkWriter (Some (repeat "000"%byte 4)) (Some 3) 4 0%N 0
                           (Some []) false))
    by (constructor; [reflexivity|lia]).
  exact (conj H1 (conj H2 (conj eq_refl
           (@Append_app 4 ["001"%byte; "002"%byte]
              ["003"%byte; "004"%byte; "005"%byte] _ H1 H2 eq_refl)))).
Defined.

(** A witness of [Append_seals_full_blocks]: ten bytes at cursor 3 of 4
    seal three blocks and leave the cursor at 1. *)
Lemma Append_seals_full_blocks_witness :
  0 < 4
  /\ open_writer 4
       (mkWriter (Some (repeat "000"%byte 4)) (Some 3) 4 0%N 0 (Some [])
                 false)
  /\ current_
       (mkWriter (Some (repeat "000"%byte 4)) (Some 3) 4 0%N 0 (Some [])
                 false) = Some 3
  /\ sink_
       (mkWriter (Some (repeat "000"%byte 4)) (Some 3) 4 0%N 0 (Some [])
                 false) = Some []
  /\ exists w' blocks,
       Append 4 (repeat "001"%byte 10)
         (mkWriter (Some (repeat "000"%byte 4)) (Some 3) 4 0%N 0 (Some [])
                   false)
       = Ok w'
       /\ sink_ w' = Some ([] ++ blocks)
       /\ Forall (full_block 4) blocks
       /\ length blocks = (3 + length (repeat "001"%byte 10) - 1) / 4
       /\ current_ w'
          = Some (3 + length (repeat "001"%byte 10) - 4 * length blocks).
Proof.
  assert (H1 : 0 < 4) by lia.
  assert (H2 : open_writer 4
                 (mkWriter (Some (repeat "000"%byte 4)) (Some 3) 4 0%N 0
                           (Some []) false))
    by (constructor; [reflexivity|lia]).
  exact (conj H1 (conj H2 (conj eq_refl (conj eq_refl
           (@Append_seals_full_blocks 4 (repeat "001"%byte 10) _ 3 []
              H1 H2 eq_refl eq_refl))))).
Defined.

(** A witness of [AppendBlocks_order]: three bytes pending and two blocks
    to forward. *)
Lemma AppendBlocks_order_witness :
  open_writer 4
    (mkWriter (Some (repeat "001"%byte 4)) (Some 3) 4 0%N 0 (Some [])
              false)
  /\ block_
       (mkWriter (Some (repeat "001"%byte 4)) (Some 3) 4 0%N 0 (Some [])
                 false) = Some (repeat "001"%byte 4)
  /\ current_
       (mkWriter (Some (repeat "001"%byte 4)) (Some 3) 4 0%N 0 (Some [])
                 false) = Some 3
  /\ sink_
       (mkWriter (Some (repeat "001"%byte 4)) (Some 3) 4 0%N 0 (Some [])
                 false) = Some []
  /\ AppendBlocks 4
       [mkVirtualBlock (repeat "002"%byte 4) 0 4 0 1%N;
        mkVirtualBlock (repeat "003"%byte 4) 0 2 0 0%N]
       (mkWriter (Some (repeat "001"%byte 4)) (Some 3) 4 0%N 0 (Some [])
                 false)
     = Ok (mkWriter (Some (make_block 4)) (Some 0) 4 0%N 0
             (Some (([] ++ (if (3 =? 0) && (0 =? 0)%N then []
                            else [SinkAppendBlock (repeat "001"%byte 4)
                                                  0 3 0 0%N]))
                      ++ map SinkAppendVBlock
                           [mkVirtualBlock (repeat "002"%byte 4) 0 4 0 1%N;
                            mkVirtualBlock (repeat "003"%byte 4) 0 2 0
                                           0%N]))
             false).
Proof.
  assert (H1 : open_writer 4
                 (mkWriter (Some (repeat "001"%byte 4)) (Some 3) 4 0%N 0
                           (Some []) false))
    by (constructor; [reflexivity|lia]).
  exact (conj H1 (conj eq_refl (conj eq_refl (conj eq_refl
           (@AppendBlocks_order 4 _ _ _ _ _ H1 eq_refl eq_refl eq_refl))))).
Defined.

(** A witness of [sink_bytes_of_all_operations]: an item, a flush, a
    forwarded block and a byte. *)
Lemma sink_bytes_of_all_operations_witness :
  0 < 4
  /\ existsb (@is_close (list WriteCall))
       [OpItem [CallAppend (repeat "001"%byte 5)]; OpFlush;
        OpAppendBlocks [mkVirtualBlock (repeat "002"%byte 4) 1 3 0 1%N];
        OpCall (CallPutByte "003"%byte)] = false
  /\ exists w' blocks,
       run 4 false [] (fun x : list WriteCall => x)
           ([OpItem [CallAppend (repeat "001"%byte 5)]; OpFlush;
             OpAppendBlocks [mkVirtualBlock (repeat "002"%byte 4) 1 3 0 1%N];
             OpCall (CallPutByte "003"%byte)] ++ [OpClose])
           (BlockWriterBase 4 (Some []))
       = Ok w'
       /\ sink_ w' = Some (blocks ++ [SinkClose])
       /\ sink_bytes blocks
          = ops_bytes false [] (fun x : list WriteCall => x)
              [OpItem [CallAppend (repeat "001"%byte 5)]; OpFlush;
               OpAppendBlocks
                 [mkVirtualBlock (repeat "002"%byte 4) 1 3 0 1%N];
               OpCall (CallPutByte "003"%byte)].
Proof.
  assert (H1 : 0 < 4) by lia.
  assert (H2 : existsb (@is_close (list WriteCall))
                 [OpItem [CallAppend (repeat "001"%byte 5)]; OpFlush;
                  OpAppendBlocks
                    [mkVirtualBlock (repeat "002"%byte 4) 1 3 0 1%N];
                  OpCall (CallPutByte "003"%byte)] = false)
    by reflexivity.
  exact (conj H1 (conj H2
           (@sink_bytes_of_all_operations 4 false (list WriteCall) []
              (fun x => x) _ H1 H2))).
Defined.

(** A witness of [sealed_blocks_within_bounds]: two marked bytes, a flush
    and six bytes. *)
Lemma sealed_blocks_within_bounds_witness :
  0 < 4
  /\ existsb (@is_close (list WriteCall))
       [OpCall (CallPutByte "001"%byte); OpCall CallMarkItem;
        OpCall (CallPutByte "002"%byte); OpFlush;
        OpCall (CallAppend (repeat "003"%byte 6))] = false
  /\ exists w' blocks,
       run 4 false [] (fun x : list WriteCall => x)
           ([OpCall (CallPutByte "001"%byte); OpCall CallMarkItem;
             OpCall (CallPutByte "002"%byte); OpFlush;
             OpCall (CallAppend (repeat "003"%byte 6))] ++ [OpClose])
           (BlockWriterBase 4 (Some []))
       = Ok w'
       /\ sink_ w' = Some (blocks ++ [SinkClose])
       /\ Forall (block_in_bounds 4) blocks.
Proof.
  assert (H1 : 0 < 4) by lia.
  assert (H2 : existsb (@is_close (list WriteCall))
                 [OpCall (CallPutByte "001"%byte); OpCall CallMarkItem;
                  OpCall (CallPutByte "002"%byte); OpFlush;
                  OpCall (CallAppend (repeat "003"%byte 6))] = false)
    by reflexivity.
  exact (conj H1 (conj H2
           (@sealed_blocks_within_bounds 4 false (list WriteCall) []
              (fun x => x) _ H1 H2))).
Defined.

(** A witness of [Destroy_delivers_pending_bytes]: an item of five bytes
    and no [Close]. *)
Lemma Destroy_delivers_pending_bytes_witness :
  0 < 4
  /\ existsb (@is_close (list WriteCall))
       [OpItem [CallAppend (repeat "001"%byte 5)]] = false
  /\ exists w1 w' blocks,
       run 4 false [] (fun x : list WriteCall => x)
           [OpItem [CallAppend (repeat "001"%byte 5)]]
           (BlockWriterBase 4 (Some []))
       = Ok w1
       /\ Destroy w1 = Ok w'
       /\ closed_ w' = true
       /\ sink_ w' = Some (blocks ++ [SinkClose])
       /\ sink_bytes blocks
          = ops_bytes false [] (fun x : list WriteCall => x)
              [OpItem [CallAppend (repeat "001"%byte 5)]].
Proof.
  assert (H1 : 0 < 4) by lia.
  assert (H2 : existsb (@is_close (list WriteCall))
                 [OpItem [CallAppend (repeat "001"%byte 5)]] = false)
    by reflexivity.
  exact (conj H1 (conj H2
           (@Destroy_delivers_pending_bytes 4 false (list WriteCall) []
              (fun x => x) _ H1 H2))).
Defined.

(** A witness of [item_counts_add_up]: three item starts, a flush between
    them. *)
Lemma item_counts_add_up_witness :
  0 < 4
  /\ (N.of_nat
        (ops_marks false [] (fun x : list WriteCall => x)
           [OpItem [CallAppend (repeat "001"%byte 3)]; OpCall CallMarkItem;
            OpFlush; OpItem [CallAppend (repeat "002"%byte 6)]])
      < size_t_modulus)%N
  /\ existsb (@is_close (list WriteCall))
       [OpItem [CallAppend (repeat "001"%byte 3)]; OpCall CallMarkItem;
        OpFlush; OpItem [CallAppend (repeat "002"%byte 6)]] = false
  /\ exists w' sink,
       run 4 false [] (fun x : list WriteCall => x)
           ([OpItem [CallAppend (repeat "001"%byte 3)]; OpCall CallMarkItem;
             OpFlush; OpItem [CallAppend (repeat "002"%byte 6)]]
              ++ [OpClose])
           (BlockWriterBase 4 (Some []))
       = Ok w'
       /\ sink_ w' = Some sink
       /\ items_total sink
          = ops_marks false [] (fun x : list WriteCall => x)
              [OpItem [CallAppend (repeat "001"%byte 3)];
               OpCall CallMarkItem; OpFlush;
               OpItem [CallAppend (repeat "002"%byte 6)]].
Proof.
  assert (H1 : 0 < 4) by lia.
  assert (H2 : (N.of_nat
                  (ops_marks false [] (fun x : list WriteCall => x)
                     [OpItem [CallAppend (repeat "001"%byte 3)];
                      OpCall CallMarkItem; OpFlush;
                      OpItem [CallAppend (repeat "002"%byte 6)]])
                < size_t_modulus)%N)
    by (vm_compute; reflexivity).
  assert (H3 : existsb (@is_close (list WriteCall))
                 [OpItem [CallAppend (repeat "001"%byte 3)];
                  OpCall CallMarkItem; OpFlush;
                  OpItem [CallAppend (repeat "002"%byte 6)]] = false)
    by reflexivity.
  exact (conj H1 (conj H2 (conj H3
           (@item_counts_add_up 4 false (list WriteCall) []
              (fun x => x) _ H1 H2 H3)))).
Defined.

(** A witness of [writer_without_sink_buffers_one_block]: an item of four
    bytes in a block of four. *)
Lemma writer_without_sink_buffers_one_block_witness :
  length (calls_data [CallMarkItem; CallAppend (repeat "001"%byte 3);
                      CallPutByte "002"%byte]) <= 4
  /\ Forall (fun p => p < 4)
       (mark_positions 0 [CallMarkItem; CallAppend (repeat "001"%byte 3);
                          CallPutByte "002"%byte])
  /\ exists w' b,
       run_calls 4 [CallMarkItem; CallAppend (repeat "001"%byte 3);
                    CallPutByte "002"%byte]
                 (BlockWriterBase 4 None)
       = Ok w'
       /\ block_ w' = Some b
       /\ firstn
            (length (calls_data [CallMarkItem;
                                 CallAppend (repeat "001"%byte 3);
                                 CallPutByte "002"%byte])) b
          = calls_data [CallMarkItem; CallAppend (repeat "001"%byte 3);
                        CallPutByte "002"%byte]
       /\ current_ w'
          = Some (length (calls_data [CallMarkItem;
                                      CallAppend (repeat "001"%byte 3);
                                      CallPutByte "002"%byte]))
       /\ (forall d,
              4 < length (calls_data [CallMarkItem;
                                      CallAppend (repeat "001"%byte 3);
                                      CallPutByte "002"%byte])
                  + length d ->
              Append 4 d w' = Fail NullSink).
Proof.
  assert (H1 : length (calls_data [CallMarkItem;
                                   CallAppend (repeat "001"%byte 3);
                                   CallPutByte "002"%byte]) <= 4)
    by (cbn; lia).
  assert (H2 : Forall (fun p => p < 4)
                 (mark_positions 0 [CallMarkItem;
                                    CallAppend (repeat "001"%byte 3);
                                    CallPutByte "002"%byte]))
    by (cbn; repeat (apply Forall_cons; [lia|]); apply Forall_nil).
  exact (conj H1 (conj H2
           (@writer_without_sink_buffers_one_block 4 _ H1 H2))).
Defined.

(** A witness of [sealing_Close_is_final]: a writer with one item of one
    byte in its block. *)
Lemma sealing_Close_is_final_witness :
  open_writer 4
    (mkWriter (Some ["001"%byte; "000"%byte; "000"%byte; "000"%byte])
              (Some 1) 4 1%N 0 (Some []) false)
  /\ sink_
       (mkWriter (Some ["001"%byte; "000"%byte; "000"%byte; "000"%byte])
                 (Some 1) 4 1%N 0 (Some []) false) = Some []
  /\ (current_
        (mkWriter (Some ["001"%byte; "000"%byte; "000"%byte; "000"%byte])
                  (Some 1) 4 1%N 0 (Some []) false) <> Some 0
      \/ nitems_
           (mkWriter (Some ["001"%byte; "000"%byte; "000"%byte;
                            "000"%byte])
                     (Some 1) 4 1%N 0 (Some []) false) <> 0%N)
  /\ exists w1,
       Close (mkWriter (Some ["001"%byte; "000"%byte; "000"%byte;
                              "000"%byte])
                       (Some 1) 4 1%N 0 (Some []) false)
       = Ok w1
       /\ block_ w1 = None
       /\ Destroy w1 = Ok w1
       /\ forall o : Op (list WriteCall),
            run_op 4 false [] (fun x => x) o w1 = after_sealing_close o w1.
Proof.
  assert (H1 : open_writer 4
                 (mkWriter (Some ["001"%byte; "000"%byte; "000"%byte;
                                  "000"%byte])
                           (Some 1) 4 1%N 0 (Some []) false))
    by (constructor; [reflexivity|lia]).
  assert (H3 : current_
                 (mkWriter (Some ["001"%byte; "000"%byte; "000"%byte;
                                  "000"%byte])
                           (Some 1) 4 1%N 0 (Some []) false) <> Some 0
               \/ nitems_
                    (mkWriter (Some ["001"%byte; "000"%byte; "000"%byte;
                                     "000"%byte])
                              (Some 1) 4 1%N 0 (Some []) false) <> 0%N)
    by (left; discriminate).
  exact (conj H1 (conj eq_refl (conj H3
           (@sealing_Close_is_final 4 false (list WriteCall) []
              (fun x => x) _ [] H1 eq_refl H3)))).
Defined.

(** A witness of [Flush_after_Close_reaches_the_sink]: the writer as
    constructed. *)
Lemma Flush_after_Close_reaches_the_sink_witness :
  open_writer 4 (BlockWriterBase 4 (Some []))
  /\ block_ (BlockWriterBase 4 (Some [])) = Some (make_block 4)
  /\ current_ (BlockWriterBase 4 (Some [])) = Some 0
  /\ nitems_ (BlockWriterBase 4 (Some [])) = 0%N
  /\ sink_ (BlockWriterBase 4 (Some [])) = Some []
  /\ exists w1,
       Close (BlockWriterBase 4 (Some [])) = Ok w1
       /\ closed_ w1 = true
       /\ sink_ w1 = Some ([] ++ [SinkClose])
       /\ (exists w2,
              Flush 4 w1 = Ok w2
              /\ sink_ w2
                 = Some (([] ++ [SinkClose])
                           ++ [SinkAppendBlock (make_block 4) 0 0
                                 (first_offset_
                                    (BlockWriterBase 4 (Some []))) 0%N]))
       /\ (forall vblocks, exists w2,
              AppendBlocks 4 vblocks w1 = Ok w2
              /\ sink_ w2
                 = Some (([] ++ [SinkClose])
                           ++ map SinkAppendVBlock vblocks)).
Proof.
  assert (H1 : open_writer 4 (BlockWriterBase 4 (Some [])))
    by (constructor; [reflexivity|lia]).
  exact (conj H1 (conj eq_refl (conj eq_refl (conj eq_refl (conj eq_refl
           (@Flush_after_Close_reaches_the_sink 4 _ (make_block 4) []
              H1 eq_refl eq_refl eq_refl eq_refl)))))).
Defined.

(** A witness of [closed_only_by_Close]: a byte and a [Close]. *)
Lemma closed_only_by_Close_witness :
  run 4 false [] (fun x : list WriteCall => x)
      [OpCall (CallPutByte "001"%byte); OpClose]
      (BlockWriterBase 4 (Some []))
  = Ok (mkWriter None None 4 0%N 0
          (Some [SinkAppendBlock
                   ["001"%byte; "000"%byte; "000"%byte; "000"%byte]
                   0 1 0 0%N;
                 SinkClose])
          true)
  /\ IsValid
       (mkWriter None None 4 0%N 0
          (Some [SinkAppendBlock
                   ["001"%byte; "000"%byte; "000"%byte; "000"%byte]
                   0 1 0 0%N;
                 SinkClose])
          true)
     = IsValid (BlockWriterBase 4 (Some []))
  /\ closed_
       (mkWriter None None 4 0%N 0
          (Some [SinkAppendBlock
                   ["001"%byte; "000"%byte; "000"%byte; "000"%byte]
                   0 1 0 0%N;
                 SinkClose])
          true)
     = closed_ (BlockWriterBase 4 (Some []))
       || existsb (@is_close (list WriteCall))
            [OpCall (CallPutByte "001"%byte); OpClose].
Proof.
  assert (H1 : run 4 false [] (fun x : list WriteCall => x)
                   [OpCall (CallPutByte "001"%byte); OpClose]
                   (BlockWriterBase 4 (Some []))
               = Ok (mkWriter None None 4 0%N 0
                       (Some [SinkAppendBlock
                                ["001"%byte; "000"%byte; "000"%byte;
                                 "000"%byte] 0 1 0 0%N;
                              SinkClose])
                       true))
    by (vm_compute; reflexivity).
  exact (conj H1
           (@closed_only_by_Close 4 false (list WriteCall) []
              (fun x => x) _ _ _ H1)).
Defined.

(** A witness of [items_fill_blocks_to_capacity]: items of 5, 5 and 3
    bytes, 13 = 3 * 4 + 1 bytes in all. *)
Lemma items_fill_blocks_to_capacity_witness :
  0 < 4
  /\ 1 < 4
  /\ (N.of_nat
        (length
           (mark_positions 0
              (items_calls false [] (fun x : list WriteCall => x)
                 [[CallAppend (repeat "001"%byte 5)];
                  [CallAppend (repeat "002"%byte 5)];
                  [CallAppend (repeat "003"%byte 3)]])))
      < size_t_modulus)%N
  /\ Forall
       (fun p =>
          p < length
                (items_bytes false [] (fun x : list WriteCall => x)
                   [[CallAppend (repeat "001"%byte 5)];
                    [CallAppend (repeat "002"%byte 5)];
                    [CallAppend (repeat "003"%byte 3)]]))
       (mark_positions 0
          (items_calls false [] (fun x : list WriteCall => x)
             [[CallAppend (repeat "001"%byte 5)];
              [CallAppend (repeat "002"%byte 5)];
              [CallAppend (repeat "003"%byte 3)]]))
  /\ length
       (items_bytes false [] (fun x : list WriteCall => x)
          [[CallAppend (repeat "001"%byte 5)];
           [CallAppend (repeat "002"%byte 5)];
           [CallAppend (repeat "003"%byte 3)]])
     = 3 * 4 + 1
  /\ exists w' sink,
       run 4 false [] (fun x : list WriteCall => x)
           (map (@OpItem _)
                [[CallAppend (repeat "001"%byte 5)];
                 [CallAppend (repeat "002"%byte 5)];
                 [CallAppend (repeat "003"%byte 3)]]
              ++ [OpClose])
           (BlockWriterBase 4 (Some []))
       = Ok w'
       /\ sink_ w' = Some sink
       /\ sealed_count sink = 3 + (if 0 <? 1 then 1 else 0).
Proof.
  assert (H1 : 0 < 4) by lia.
  assert (H2 : 1 < 4) by lia.
  assert (H3 : (N.of_nat
                  (length
                     (mark_positions 0
                        (items_calls false [] (fun x : list WriteCall => x)
                           [[CallAppend (repeat "001"%byte 5)];
                            [CallAppend (repeat "002"%byte 5)];
                            [CallAppend (repeat "003"%byte 3)]])))
                < size_t_modulus)%N)
    by (vm_compute; reflexivity).
  assert (H4 : Forall
                 (fun p =>
                    p < length
                          (items_bytes false []
                             (fun x : list WriteCall => x)
                             [[CallAppend (repeat "001"%byte 5)];
                              [CallAppend (repeat "002"%byte 5)];
                              [CallAppend (repeat "003"%byte 3)]]))
                 (mark_positions 0
                    (items_calls false [] (fun x : list WriteCall => x)
                       [[CallAppend (repeat "001"%byte 5)];
                        [CallAppend (repeat "002"%byte 5)];
                        [CallAppend (repeat "003"%byte 3)]])))
    by (cbn; repeat (apply Forall_cons; [lia|]); apply Forall_nil).
  exact (conj H1 (conj H2 (conj H3 (conj H4 (conj eq_refl
           (@items_fill_blocks_to_capacity 4 false (list WriteCall) []
              (fun x => x) _ 3 1 H1 H2 H3 H4 eq_refl)))))).
Defined.

(** A witness of [Flush_after_each_item]: two items of three bytes. *)
Lemma Flush_after_each_item_witness :
  0 < 4
  /\ Forall
       (fun x : list WriteCall =>
          forallb is_data_call ((fun x : list WriteCall => x) x) = true
          /\ length (item_bytes false [] (fun x : list WriteCall => x) x)
             <= 4)
       [[CallAppend (repeat "001"%byte 3)];
        [CallPutByte "002"%byte; CallAppend (repeat "003"%byte 2)]]
  /\ exists w' blocks,
       run 4 false [] (fun x : list WriteCall => x)
           (flushed_items
              [[CallAppend (repeat "001"%byte 3)];
               [CallPutByte "002"%byte; CallAppend (repeat "003"%byte 2)]])
           (BlockWriterBase 4 (Some []))
       = Ok w'
       /\ sink_ w' = Some blocks
       /\ current_ w' = Some 0
       /\ Forall2 (item_block false [] (fun x : list WriteCall => x))
            [[CallAppend (repeat "001"%byte 3)];
             [CallPutByte "002"%byte; CallAppend (repeat "003"%byte 2)]]
            blocks.
Proof.
  assert (H1 : 0 < 4) by lia.
  assert (H2 : Forall
                 (fun x : list WriteCall =>
                    forallb is_data_call ((fun x : list WriteCall => x) x)
                    = true
                    /\ length (item_bytes false []
                                 (fun x : list WriteCall => x) x) <= 4)
                 [[CallAppend (repeat "001"%byte 3)];
                  [CallPutByte "002"%byte;
                   CallAppend (repeat "003"%byte 2)]])
    by (repeat (apply Forall_cons; [split; [reflexivity|cbn; lia]|]);
        apply Forall_nil).
  exact (conj H1 (conj H2
           (@Flush_after_each_item 4 false (list WriteCall) []
              (fun x => x) _ H1 H2))).
Defined.
